(** * Options strategy finder: pricing model, strike ladder, expiration
      calendar, strategy synthesizer and risk-profile ranker

    A shallow embedding of the scan API route, the one source file of
    the repository.

    Conventions of the embedding.
    - A JavaScript [number] is an exact real or [NaN]: rounding error,
      overflow and the two infinities of IEEE-754 are outside the model.
      Where IEEE arithmetic on real arguments would answer with an
      infinity (division by zero, [Math.log(0)]) the model answers [NaN];
      the statements that give the value of the closed-form branch of
      the pricing model assume positive spot, strike, volatility and
      time, where neither happens.
    - [undefined] is [None] of an [option].
    - [Math.random()] reads the next element of a stream [U : nat -> R];
      the position in the stream is the state of a small state monad.
    - [new Date()] is an explicit argument (milliseconds since the epoch);
      the host time zone is a fixed offset [tz] from UTC.
    - The ISO date string [YYYY-MM-DD] produced by [toISOString] is kept
      as the UTC day number it denotes.
    - The [description] of a strategy is kept as the pieces of its
      template literal; how a number prints is not modelled. *)

From Stdlib Require Import Reals Lra Lia ZArith List String Bool.
From Stdlib Require Import Sorted Permutation Zfloor.
Import ListNotations.

Open Scope R_scope.

(* ================================================================= *)
(** ** JavaScript numbers *)

Module JS.

Inductive number : Type :=
| Fin (x : R)
| NaN.

Definition Rltb (x y : R) : bool := if Rlt_dec x y then true else false.
Definition Rleb (x y : R) : bool := if Rle_dec x y then true else false.
Definition Reqb (x y : R) : bool := if Req_dec_T x y then true else false.

Definition lift1 (f : R -> R) (a : number) : number :=
  match a with Fin x => Fin (f x) | NaN => NaN end.

Definition lift2 (f : R -> R -> R) (a b : number) : number :=
  match a, b with Fin x, Fin y => Fin (f x y) | _, _ => NaN end.

Definition cmp2 (f : R -> R -> bool) (a b : number) : bool :=
  match a, b with Fin x, Fin y => f x y | _, _ => false end.

Definition nadd : number -> number -> number := lift2 Rplus.
Definition nsub : number -> number -> number := lift2 Rminus.
Definition nmul : number -> number -> number := lift2 Rmult.
Definition nneg : number -> number := lift1 Ropp.

(** [a / b]; a zero divisor is outside the model (see the header). *)
Definition ndiv (a b : number) : number :=
  match a, b with
  | Fin x, Fin y => if Reqb y 0 then NaN else Fin (x / y)
  | _, _ => NaN
  end.

Definition nlt : number -> number -> bool := cmp2 Rltb.
Definition nle : number -> number -> bool := cmp2 Rleb.
Definition ngt (a b : number) : bool := nlt b a.
Definition nge (a b : number) : bool := nle b a.

(** [Math.round]: the nearest integer, halves towards plus infinity. *)
Definition Rround (x : R) : R := IZR (Zfloor (x + 1 / 2)).

Definition Math_round : number -> number := lift1 Rround.
Definition Math_abs : number -> number := lift1 Rabs.
Definition Math_exp : number -> number := lift1 exp.
Definition Math_max : number -> number -> number := lift2 Rmax.

Definition Math_sqrt (a : number) : number :=
  match a with
  | Fin x => if Rleb 0 x then Fin (sqrt x) else NaN
  | NaN => NaN
  end.

(** [Math.log]; [Math.log(0)] is outside the model (see the header). *)
Definition Math_log (a : number) : number :=
  match a with
  | Fin x => if Rltb 0 x then Fin (ln x) else NaN
  | NaN => NaN
  end.

(** [ToNumber] of a value that is a finite number or [undefined]. *)
Definition toNumber (v : option R) : number :=
  match v with Some x => Fin x | None => NaN end.

Definition isFin (a : number) : Prop := exists x, a = Fin x.

End JS.

Export JS.

Declare Scope js_scope.
Delimit Scope js_scope with js.
Bind Scope js_scope with number.
Notation "a + b" := (nadd a b) : js_scope.
Notation "a - b" := (nsub a b) : js_scope.
Notation "a * b" := (nmul a b) : js_scope.
Notation "a / b" := (ndiv a b) : js_scope.
Notation "- a" := (nneg a) : js_scope.
Notation "a <? b" := (nlt a b) (at level 70) : js_scope.
Notation "a <=? b" := (nle a b) (at level 70) : js_scope.
Notation "a >? b" := (ngt a b) (at level 70) : js_scope.
Notation "a >=? b" := (nge a b) (at level 70) : js_scope.
Notation "# x" := (Fin x) (at level 5, x at level 0, format "# x") : js_scope.

(* ================================================================= *)
(** ** The source of randomness *)

Module Rand.

(** A computation that may call [Math.random()]: it starts at a position
    of the stream and returns the position it stopped at. *)
Definition M (A : Type) : Type := nat -> A * nat.

Definition ret {A} (a : A) : M A := fun n => (a, n).

Definition bind {A B} (m : M A) (k : A -> M B) : M B :=
  fun n => let (a, n') := m n in k a n'.

Definition Math_random (U : nat -> R) : M number :=
  fun n => (Fin (U n), S n).

(** The draws are in [[0, 1)]. *)
Definition unit_draws (U : nat -> R) : Prop := forall n, 0 <= U n < 1.

End Rand.

Export Rand.

Notation "x <- m ;; k" := (bind m (fun x => k))
  (at level 61, m at next level, right associativity).

(* ================================================================= *)
(** ** 4.1 Pricing model *)

Record Greeks : Type := mkGreeks {
  delta : number;
  gamma : number;
  theta : number;
  vega : number
}.

Record PricingQuote : Type := mkQuote {
  price : number;
  greeks : Greeks
}.

Module Pricing.

Local Open Scope js_scope.

(** [erf]: the Abramowitz-Stegun rational approximation. *)
Definition erf (x : number) : number :=
  let a1 := #0.254829592 in
  let a2 := #(-0.284496736) in
  let a3 := #1.421413741 in
  let a4 := #(-1.453152027) in
  let a5 := #1.061405429 in
  let p := #0.3275911 in
  let sign := if x >=? #0 then #1 else #(-1) in
  let x := Math_abs x in
  let t := #1 / (#1 + p * x) in
  let y := #1 - (((((a5 * t + a4) * t) + a3) * t + a2) * t + a1) * t
                * Math_exp (- x * x) in
  sign * y.

(** [cdf], the local arrow function of [calculateOptionPrice]. *)
Definition cdf (x : number) : number :=
  #0.5 * (#1 + erf (x / Math_sqrt #2)).

Definition Math_PI : number := #PI.

(** The values computed by [calculateOptionPrice] between the expiry
    test and the market adjustment (lines 486-509). *)
Record Model : Type := mkModel {
  m_price : number;
  m_delta : number;
  m_gamma : number;
  m_theta : number;
  m_vega : number
}.

Definition blackScholes (S K T r σ : number) (isCall : bool) : Model :=
  let d1 := (Math_log (S / K) + (r + #0.5 * σ * σ) * T) / (σ * Math_sqrt T) in
  let d2 := d1 - σ * Math_sqrt T in
  let Nd1 := cdf d1 in
  let Nd2 := cdf d2 in
  let nd1 := Math_exp (- #0.5 * d1 * d1) / Math_sqrt (#2 * Math_PI) in
  let price := if isCall
               then S * Nd1 - K * Math_exp (- r * T) * Nd2
               else K * Math_exp (- r * T) * cdf (- d2) - S * cdf (- d1) in
  let delta := if isCall then Nd1 else Nd1 - #1 in
  let gamma := nd1 / (S * σ * Math_sqrt T) in
  let theta := - (S * nd1 * σ) / (#2 * Math_sqrt T)
               - r * K * Math_exp (- r * T) * (if isCall then Nd2 else cdf (- d2)) in
  let vega := S * nd1 * Math_sqrt T / #100 in
  mkModel price delta gamma theta vega.

Definition calculateOptionPrice (U : nat -> R)
    (currentPrice strike timeToExpiry volatility riskFreeRate : number)
    (isCall : bool) : M PricingQuote :=
  let S := currentPrice in
  let K := strike in
  let T := timeToExpiry / #365 in
  let r := riskFreeRate in
  let σ := volatility in
  if T <=? #0 then
    let intrinsic := if isCall then Math_max (S - K) #0 else Math_max (K - S) #0 in
    ret (mkQuote intrinsic
           (mkGreeks (if isCall then (if S >? K then #1 else #0)
                      else (if S <? K then #(-1) else #0))
                     #0 #0 #0))
  else
    let m := blackScholes S K T r σ isCall in
    let bidAskSpread := Math_max #0.05 (m_price m * #0.02) in
    u <- Math_random U ;;
    let marketAdjustment := #1 + (u - #0.5) * #0.1 in
    let adjustedPrice := m_price m * marketAdjustment in
    ret (mkQuote (Math_max adjustedPrice #0.05)
           (mkGreeks (Math_round (m_delta m * #100) / #100)
                     (Math_round (m_gamma m * #1000) / #1000)
                     (Math_round (m_theta m * #100) / #100 / #365)
                     (Math_round (m_vega m * #100) / #100))).

End Pricing.

Export Pricing.

(* ================================================================= *)
(** ** Arrays *)

Module JSArray.

(** [Array.prototype.sort(compareFn)] is stable since ES2019; a compare
    result that is [NaN] counts as [+0].  Insertion from the right keeps
    an element in front of everything it does not have to follow. *)
Fixpoint insert {A} (compareFn : A -> A -> number) (x : A) (l : list A) : list A :=
  match l with
  | [] => [x]
  | y :: l' => if (compareFn x y >? Fin 0)%js then y :: insert compareFn x l'
               else x :: l
  end.

Fixpoint sort {A} (compareFn : A -> A -> number) (l : list A) : list A :=
  match l with
  | [] => []
  | x :: l' => insert compareFn x (sort compareFn l')
  end.

(** [arr.slice(0, end)] for an integer [end]: a negative [end] counts
    from the end of the array. *)
Definition slice0 {A} (l : list A) (end_ : Z) : list A :=
  let len := Z.of_nat (List.length l) in
  let final := if (end_ <? 0)%Z then Z.max (len + end_) 0 else Z.min end_ len in
  firstn (Z.to_nat final) l.

(** [a || b] where [a] is a finite number or [undefined]: zero and
    [undefined] are falsy. *)
Definition orElse (a b : option R) : option R :=
  match a with
  | Some x => if Reqb x 0 then b else Some x
  | None => b
  end.

End JSArray.

(* ================================================================= *)
(** ** 4.2 Strike ladder generator *)

Module Ladder.

(** The values of [i] in [for (let i = -6; i <= 6; i++)]. *)
Definition loop_indices : list Z :=
  [-6; -5; -4; -3; -2; -1; 0; 1; 2; 3; 4; 5; 6]%Z.

Definition strike_interval (currentPrice : R) : R :=
  if Rltb currentPrice 50 then 2.5
  else if Rltb currentPrice 100 then 5
  else if Rltb currentPrice 200 then 5
  else if Rltb currentPrice 500 then 10
  else 25.

Definition generateStrikes (currentPrice : R) : list R :=
  let interval := strike_interval currentPrice in
  let baseStrike := Rround (currentPrice / interval) * interval in
  let strikes :=
    flat_map (fun i =>
                let strike := baseStrike + IZR i * interval in
                if Rltb 0 strike then [strike] else [])
             loop_indices in
  JSArray.sort (fun a b => Fin (a - b)) strikes.

End Ladder.

Export Ladder.

(* ================================================================= *)
(** ** 4.3 Expiration calendar *)

Module Calendar.

Local Open Scope Z_scope.

Definition msPerDay : Z := 86400000.

Definition Day (t : Z) : Z := t / msPerDay.
Definition TimeWithinDay (t : Z) : Z := t mod msPerDay.

(** 1 January 1970 was a Thursday. *)
Definition WeekDay (t : Z) : Z := (Day t + 4) mod 7.

(** Year, month (1..12) and day of the month of a day number, in the
    proleptic Gregorian calendar (the computation of [YearFromTime],
    [MonthFromTime] and [DateFromTime], by 400-year eras counted from
    1 March). *)
Definition civil_from_days (z : Z) : Z * Z * Z :=
  let z := z + 719468 in
  let era := z / 146097 in
  let doe := z - era * 146097 in
  let yoe := (doe - doe / 1460 + doe / 36524 - doe / 146096) / 365 in
  let y := yoe + era * 400 in
  let doy := doe - (365 * yoe + yoe / 4 - yoe / 100) in
  let mp := (5 * doy + 2) / 153 in
  let d := doy - (153 * mp + 2) / 5 + 1 in
  let m := if mp <? 10 then mp + 3 else mp - 9 in
  (if m <=? 2 then y + 1 else y, m, d).

(** The day number of day [d] of month [m] (1..12) of year [y]; [d] may
    lie outside the month. *)
Definition days_from_civil (y m d : Z) : Z :=
  let y := if m <=? 2 then y - 1 else y in
  let era := y / 400 in
  let yoe := y - era * 400 in
  let doy := (153 * (if 2 <? m then m - 3 else m + 9) + 2) / 5 + d - 1 in
  let doe := yoe * 365 + yoe / 4 - yoe / 100 + doy in
  era * 146097 + doe - 719468.

(** [MakeDay(year, month, date)], [month] counted from 0 and allowed to
    overflow into the following years. *)
Definition MakeDay (year month date : Z) : Z :=
  let ym := year + month / 12 in
  let mn := month mod 12 in
  days_from_civil ym (mn + 1) 1 + date - 1.

Definition MakeDate (day time : Z) : Z := day * msPerDay + time.

Section Host.

(** Local time is UTC plus [tz] milliseconds. *)
Variable tz : Z.

Definition LocalTime (t : Z) : Z := t + tz.
Definition UTC (t : Z) : Z := t - tz.

Definition getDay (d : Z) : Z := WeekDay (LocalTime d).
Definition getFullYear (d : Z) : Z := fst (fst (civil_from_days (Day (LocalTime d)))).
Definition getMonth (d : Z) : Z := snd (fst (civil_from_days (Day (LocalTime d)))) - 1.
Definition getDate (d : Z) : Z := snd (civil_from_days (Day (LocalTime d))).

Definition setDate (d : Z) (date : Z) : Z :=
  let t := LocalTime d in
  UTC (MakeDate (MakeDay (getFullYear d) (getMonth d) date) (TimeWithinDay t)).

(** [new Date(year, month, 1)]: local midnight; years 0..99 mean 19xx. *)
Definition newDate (year month date : Z) : Z :=
  let yr := if (0 <=? year) && (year <=? 99) then 1900 + year else year in
  UTC (MakeDate (MakeDay yr month date) 0).

(** [d.toISOString().split('T')[0]]: the UTC calendar day of [d]. *)
Definition isoDate (d : Z) : Z := Day d.

(** [new Date(s).getTime()] for a date-only string: UTC midnight. *)
Definition parseIsoDate (s : Z) : Z := s * msPerDay.

(** [while (expDate.getDay() !== 5) expDate.setDate(expDate.getDate() + 1)] *)
Fixpoint findNextFriday (fuel : nat) (expDate : Z) : option Z :=
  match fuel with
  | O => None
  | S fuel' =>
      if getDay expDate =? 5 then Some expDate
      else findNextFriday fuel' (setDate expDate (getDate expDate + 1))
  end.

(** The tail of both loop bodies: the DTE test and the [push]. *)
Definition pushIfInWindow (today minDte maxDte : Z) (expDate : Z) : list Z :=
  let dte := (expDate - today) / msPerDay in
  if (minDte <=? dte) && (dte <=? maxDte) then [isoDate expDate] else [].

Definition weeklyExpiration (today minDte maxDte weeks : Z) : option (list Z) :=
  let expDate := today in
  let expDate := setDate expDate (getDate today + weeks * 7) in
  option_map (pushIfInWindow today minDte maxDte) (findNextFriday 7 expDate).

Definition monthlyExpiration (today minDte maxDte months : Z) : option (list Z) :=
  let expDate := newDate (getFullYear today) (getMonth today + months) 1 in
  let expDate := setDate expDate 15 in
  option_map (pushIfInWindow today minDte maxDte) (findNextFriday 7 expDate).

(** A [for] loop whose body may not finish: the pushes in order. *)
Fixpoint forEach (body : Z -> option (list Z)) (range : list Z) : option (list Z) :=
  match range with
  | [] => Some []
  | i :: range' =>
      match body i, forEach body range' with
      | Some a, Some b => Some (a ++ b)
      | _, _ => None
      end
  end.

Definition getExpirationDates (today minDte maxDte : Z) : option (list Z) :=
  match forEach (weeklyExpiration today minDte maxDte) [1;2;3;4;5;6;7;8;9;10;11;12],
        forEach (monthlyExpiration today minDte maxDte) [1;2;3] with
  | Some weekly, Some monthly => Some (firstn 3 (weekly ++ monthly))
  | _, _ => None
  end.

End Host.

End Calendar.

Export Calendar.

(* ================================================================= *)
(** ** 3. Data model of the synthesizer *)

Record StrategyLeg : Type := mkLeg {
  leg_type : string;            (* 'call' | 'put' *)
  action : string;              (* 'buy' | 'sell' *)
  strike : option R;
  expiry : option Z;
  quantity : number;
  premium : number;
  leg_delta : number;
  leg_gamma : number;
  leg_theta : number;
  leg_vega : number
}.

(** A piece of a template literal: literal text, an interpolated strike
    (a number or [undefined]), an interpolated date string (or
    [undefined]), or [x.toFixed(2)]. *)
Inductive Piece : Type :=
| Text (s : string)
| Strike (k : option R)
| Date (d : option Z)
| ToFixed2 (x : number).

Record Strategy : Type := mkStrategy {
  id : string;
  name : string;
  type : string;
  confidence : number;
  maxProfit : number;
  maxLoss : number;
  capitalRequired : number;
  probabilityOfProfit : number;
  description : list Piece;
  legs : list StrategyLeg;
  strategy_greeks : Greeks;
  breakEvenPoints : list number
}.

(* ================================================================= *)
(** ** 4.4 Strategy synthesizer *)

Module Synth.

Import JSArray.
Local Open Scope string_scope.
Local Open Scope js_scope.

(** An object literal [{ type, action, strike, expiry, quantity: 1,
    premium: q.price, ...q.greeks }]. *)
Definition leg (ty act : string) (k : option R) (exp : option Z)
    (q : PricingQuote) : StrategyLeg :=
  mkLeg ty act k exp #1 (price q)
        (delta (greeks q)) (gamma (greeks q)) (theta (greeks q)) (vega (greeks q)).

(** [a - b] and [a + b] on the four Greeks. *)
Definition greeks_sub (a b : Greeks) : Greeks :=
  mkGreeks (delta a - delta b) (gamma a - gamma b)
           (theta a - theta b) (vega a - vega b).

Definition greeks_add (a b : Greeks) : Greeks :=
  mkGreeks (delta a + delta b) (gamma a + gamma b)
           (theta a + theta b) (vega a + vega b).

(** What every block of [generateStrategies] reads. *)
Record Setup : Type := mkSetup {
  currentPrice : R;
  ticker : string;
  strikes : list R;
  primaryExpiry : option Z;
  dte : number;
  iv : number
}.

Section Blocks.

Variable U : nat -> R.
Variable c : Setup.

(** [currentPrice] as the number it is. *)
Definition spot : number := Fin (currentPrice c).

(** [strikes.find(s => P s) || strikes[i]] *)
Definition pick (P : number -> bool) (i : nat) : option R :=
  orElse (find (fun s => P (Fin s)) (strikes c)) (nth_error (strikes c) i).

Definition quote (k : option R) (σ : number) (isCall : bool) : M PricingQuote :=
  calculateOptionPrice U spot (toNumber k) (dte c) σ #0.05 isCall.

(** *** Bull Put Spread *)

Definition bullPutShortStrike : option R := pick (fun s => s <? spot * #0.93) 2.
Definition bullPutLongStrike : option R :=
  pick (fun s => s <? toNumber bullPutShortStrike - #10) 1.

Definition bullPutSpread : M (list Strategy) :=
  shortPutPrice <- quote bullPutShortStrike (iv c) false ;;
  longPutPrice <- quote bullPutLongStrike (iv c) false ;;
  let bullPutCredit := price shortPutPrice - price longPutPrice in
  let bullPutMaxLoss :=
    (toNumber bullPutShortStrike - toNumber bullPutLongStrike) - bullPutCredit in
  if bullPutCredit <=? #0.05 then ret []
  else
    r1 <- Math_random U ;;
    r2 <- Math_random U ;;
    ret [ mkStrategy "1" "Bull Put Spread" "bullish"
            (#72.5 + r1 * #5)
            (Math_round (bullPutCredit * #100))
            (- Math_round (bullPutMaxLoss * #100))
            (Math_round (Math_abs (bullPutMaxLoss * #100)))
            (#0.68 + r2 * #0.1)
            [ Text "Sell "; Strike bullPutShortStrike; Text "P, Buy ";
              Strike bullPutLongStrike; Text "P. Profit if "; Text (ticker c);
              Text " stays above $"; Strike bullPutShortStrike; Text " by ";
              Date (primaryExpiry c) ]
            [ leg "put" "sell" bullPutShortStrike (primaryExpiry c) shortPutPrice;
              leg "put" "buy" bullPutLongStrike (primaryExpiry c) longPutPrice ]
            (greeks_sub (greeks shortPutPrice) (greeks longPutPrice))
            [ toNumber bullPutShortStrike - bullPutCredit ] ].

(** *** Iron Condor *)

Definition icCallShortStrike : option R := pick (fun s => s >? spot * #1.07) 6.
Definition icCallLongStrike : option R :=
  pick (fun s => s >? toNumber icCallShortStrike + #10) 7.
Definition icPutShortStrike : option R := pick (fun s => s <? spot * #0.93) 2.
Definition icPutLongStrike : option R :=
  pick (fun s => s <? toNumber icPutShortStrike - #10) 1.

Definition ironCondor : M (list Strategy) :=
  icCallShort <- quote icCallShortStrike (iv c) true ;;
  icCallLong <- quote icCallLongStrike (iv c) true ;;
  icPutShort <- quote icPutShortStrike (iv c) false ;;
  icPutLong <- quote icPutLongStrike (iv c) false ;;
  let icCredit := (price icCallShort - price icCallLong)
                  + (price icPutShort - price icPutLong) in
  let icMaxLoss :=
    Math_max (toNumber icCallLongStrike - toNumber icCallShortStrike)
             (toNumber icPutShortStrike - toNumber icPutLongStrike) - icCredit in
  if icCredit >? #0.10 then
    r1 <- Math_random U ;;
    r2 <- Math_random U ;;
    ret [ mkStrategy "2" "Iron Condor" "neutral"
            (#65.2 + r1 * #5)
            (Math_round (icCredit * #100))
            (- Math_round (icMaxLoss * #100))
            (Math_round (Math_abs (icMaxLoss * #100)))
            (#0.58 + r2 * #0.1)
            [ Text "Trade "; Text (ticker c); Text " sideways between $";
              Strike icPutShortStrike; Text " and $"; Strike icCallShortStrike;
              Text " by "; Date (primaryExpiry c) ]
            [ leg "call" "sell" icCallShortStrike (primaryExpiry c) icCallShort;
              leg "call" "buy" icCallLongStrike (primaryExpiry c) icCallLong;
              leg "put" "sell" icPutShortStrike (primaryExpiry c) icPutShort;
              leg "put" "buy" icPutLongStrike (primaryExpiry c) icPutLong ]
            (greeks_add (greeks_sub (greeks icCallShort) (greeks icCallLong))
                        (greeks_sub (greeks icPutShort) (greeks icPutLong)))
            [ toNumber icPutShortStrike - icCredit;
              toNumber icCallShortStrike + icCredit ] ]
  else ret [].

(** *** Cash Secured Put *)

Definition cspStrike : option R := pick (fun s => s <? spot * #0.95) 3.

Definition cashSecuredPut : M (list Strategy) :=
  cspOption <- quote cspStrike (iv c) false ;;
  r1 <- Math_random U ;;
  r2 <- Math_random U ;;
  ret [ mkStrategy "3" "Cash Secured Put" "bullish"
          (#69.8 + r1 * #5)
          (Math_round (price cspOption * #100))
          (- Math_round ((toNumber cspStrike - price cspOption) * #100))
          (Math_round (toNumber cspStrike * #100))
          (#0.65 + r2 * #0.1)
          [ Text "Sell "; Strike cspStrike; Text "P. Collect premium or buy ";
            Text (ticker c); Text " at $"; Strike cspStrike; Text " discount by ";
            Date (primaryExpiry c) ]
          [ leg "put" "sell" cspStrike (primaryExpiry c) cspOption ]
          (greeks cspOption)
          [ toNumber cspStrike - price cspOption ] ].

(** *** Long Straddle *)

Definition straddleStrike : option R :=
  pick (fun s => Math_abs (s - spot) <? #5) 4.

Definition longStraddle : M (list Strategy) :=
  let straddleIV := iv c + #0.05 in
  callOption <- quote straddleStrike straddleIV true ;;
  putOption <- quote straddleStrike straddleIV false ;;
  let straddleCost := price callOption + price putOption in
  r1 <- Math_random U ;;
  r2 <- Math_random U ;;
  ret [ mkStrategy "4" "Long Straddle" "volatility"
          (#58.5 + r1 * #5)
          #99999
          (- Math_round (straddleCost * #100))
          (Math_round (straddleCost * #100))
          (#0.45 + r2 * #0.1)
          [ Text "Buy "; Strike straddleStrike; Text "C and "; Strike straddleStrike;
            Text "P. Profit if "; Text (ticker c); Text " moves beyond $";
            ToFixed2 (toNumber straddleStrike + straddleCost); Text " or $";
            ToFixed2 (toNumber straddleStrike - straddleCost) ]
          [ leg "call" "buy" straddleStrike (primaryExpiry c) callOption;
            leg "put" "buy" straddleStrike (primaryExpiry c) putOption ]
          (greeks_add (greeks callOption) (greeks putOption))
          [ toNumber straddleStrike - straddleCost;
            toNumber straddleStrike + straddleCost ] ].

(** *** Covered Call *)

Definition ccStrike : option R := pick (fun s => s >? spot * #1.05) 6.

Definition coveredCall : M (list Strategy) :=
  ccOption <- quote ccStrike (iv c) true ;;
  r1 <- Math_random U ;;
  r2 <- Math_random U ;;
  ret [ mkStrategy "5" "Covered Call" "neutral"
          (#66.7 + r1 * #5)
          (Math_round ((toNumber ccStrike - spot + price ccOption) * #100))
          (- Math_round ((spot - price ccOption) * #100))
          (Math_round (spot * #100))
          (#0.72 + r2 * #0.1)
          [ Text "Own 100 shares of "; Text (ticker c); Text ", sell ";
            Strike ccStrike; Text "C. Cap gains at $"; Strike ccStrike;
            Text ", collect premium" ]
          [ leg "call" "sell" ccStrike (primaryExpiry c) ccOption ]
          (mkGreeks (- delta (greeks ccOption) + #1)
                    (- gamma (greeks ccOption))
                    (- theta (greeks ccOption))
                    (- vega (greeks ccOption)))
          [ spot - price ccOption ] ].

(** *** Bear Call Spread *)

Definition bearCallShortStrike : option R := pick (fun s => s >? spot * #1.02) 5.
Definition bearCallLongStrike : option R :=
  pick (fun s => s >? toNumber bearCallShortStrike + #10) 6.

Definition bearCallSpread : M (list Strategy) :=
  bearCallShort <- quote bearCallShortStrike (iv c) true ;;
  bearCallLong <- quote bearCallLongStrike (iv c) true ;;
  let bearCallCredit := price bearCallShort - price bearCallLong in
  let bearCallMaxLoss :=
    (toNumber bearCallLongStrike - toNumber bearCallShortStrike) - bearCallCredit in
  if bearCallCredit >? #0.05 then
    r1 <- Math_random U ;;
    r2 <- Math_random U ;;
    ret [ mkStrategy "6" "Bear Call Spread" "bearish"
            (#63.5 + r1 * #5)
            (Math_round (bearCallCredit * #100))
            (- Math_round (bearCallMaxLoss * #100))
            (Math_round (Math_abs (bearCallMaxLoss * #100)))
            (#0.62 + r2 * #0.1)
            [ Text "Sell "; Strike bearCallShortStrike; Text "C, Buy ";
              Strike bearCallLongStrike; Text "C. Profit if "; Text (ticker c);
              Text " stays below $"; Strike bearCallShortStrike; Text " by ";
              Date (primaryExpiry c) ]
            [ leg "call" "sell" bearCallShortStrike (primaryExpiry c) bearCallShort;
              leg "call" "buy" bearCallLongStrike (primaryExpiry c) bearCallLong ]
            (greeks_sub (greeks bearCallShort) (greeks bearCallLong))
            [ toNumber bearCallShortStrike + bearCallCredit ] ]
  else ret [].

(** *** Bull Call Spread *)

Definition bullCallLongStrike : option R := pick (fun s => s >? spot * #1.02) 5.
Definition bullCallShortStrike : option R :=
  pick (fun s => s >? toNumber bullCallLongStrike + #10) 6.

Definition bullCallSpread : M (list Strategy) :=
  bullCallLong <- quote bullCallLongStrike (iv c) true ;;
  bullCallShort <- quote bullCallShortStrike (iv c) true ;;
  let bullCallDebit := price bullCallLong - price bullCallShort in
  let bullCallMaxProfit :=
    (toNumber bullCallShortStrike - toNumber bullCallLongStrike) - bullCallDebit in
  if (bullCallDebit >? #0) && (bullCallMaxProfit >? #0.10) then
    r1 <- Math_random U ;;
    r2 <- Math_random U ;;
    ret [ mkStrategy "7" "Bull Call Spread" "bullish"
            (#68.2 + r1 * #5)
            (Math_round (bullCallMaxProfit * #100))
            (- Math_round (bullCallDebit * #100))
            (Math_round (bullCallDebit * #100))
            (#0.58 + r2 * #0.1)
            [ Text "Buy "; Strike bullCallLongStrike; Text "C, Sell ";
              Strike bullCallShortStrike; Text "C. Profit if "; Text (ticker c);
              Text " rises above $"; ToFixed2 (toNumber bullCallLongStrike + bullCallDebit);
              Text " by "; Date (primaryExpiry c) ]
            [ leg "call" "buy" bullCallLongStrike (primaryExpiry c) bullCallLong;
              leg "call" "sell" bullCallShortStrike (primaryExpiry c) bullCallShort ]
            (greeks_sub (greeks bullCallLong) (greeks bullCallShort))
            [ toNumber bullCallLongStrike + bullCallDebit ] ]
  else ret [].

(** The seven blocks in source order; each [push]es at most once. *)
Definition blocks : M (list Strategy) :=
  s1 <- bullPutSpread ;;
  s2 <- ironCondor ;;
  s3 <- cashSecuredPut ;;
  s4 <- longStraddle ;;
  s5 <- coveredCall ;;
  s6 <- bearCallSpread ;;
  s7 <- bullCallSpread ;;
  ret (s1 ++ s2 ++ s3 ++ s4 ++ s5 ++ s6 ++ s7)%list.

End Blocks.

(** [Math.floor((new Date(primaryExpiry).getTime() - new Date().getTime())
    / (1000 * 60 * 60 * 24))]; [new Date(undefined)] is an invalid date,
    whose time value is [NaN]. *)
Definition daysUntil (now : Z) (primaryExpiry : option Z) : number :=
  match primaryExpiry with
  | Some s => Fin (IZR ((parseIsoDate s - now) / msPerDay))
  | None => NaN
  end.

(** [generateStrategies]; [today] and [now] are the two readings of the
    clock (in [getExpirationDates] and on line 59), [None] stands for a
    calendar loop that does not finish. *)
Definition generateStrategies (U : nat -> R) (tz today now : Z)
    (currentPrice : R) (ticker : string) (minDte maxDte : Z)
    : option (M (list Strategy)) :=
  let strikes := generateStrikes currentPrice in
  match getExpirationDates tz today minDte maxDte with
  | None => None
  | Some expirations =>
      let primaryExpiry := nth_error expirations 0 in
      let dte := daysUntil now primaryExpiry in
      Some (r0 <- Math_random U ;;
            let iv := #0.35 + r0 * #0.15 in
            blocks U (mkSetup currentPrice ticker strikes primaryExpiry dte iv))
  end.

End Synth.

Export Synth.

(* ================================================================= *)
(** ** 4.5 Risk profile filter and ranker *)

Module Ranker.

Local Open Scope string_scope.
Local Open Scope js_scope.

(** Lines 579-599 of [handler]. *)
Definition rank (riskProfile : string) (maxStrategies : Z)
    (allStrategies : list Strategy) : list Strategy :=
  let filteredStrategies :=
    if String.eqb riskProfile "conservative" then
      filter (fun s => (confidence s >=? #65) && negb (String.eqb (type s) "volatility"))
             allStrategies
    else if String.eqb riskProfile "moderate" then
      filter (fun s => confidence s >=? #60) allStrategies
    else if String.eqb riskProfile "moderate_aggressive" then
      filter (fun s => confidence s >=? #55) allStrategies
    else allStrategies in
  JSArray.slice0
    (JSArray.sort (fun a b => confidence b - confidence a) filteredStrategies)
    maxStrategies.

(** [handler] after the request has been read and the spot price
    fetched: the strategies of the response. *)
Definition handler (U : nat -> R) (tz today now : Z) (currentPrice : R)
    (ticker riskProfile : string) (minDte maxDte maxStrategies : Z)
    : option (M (list Strategy)) :=
  option_map (fun synth => allStrategies <- synth ;;
                           ret (rank riskProfile maxStrategies allStrategies))
             (generateStrategies U tz today now currentPrice ticker minDte maxDte).

End Ranker.

Export Ranker.

(* ================================================================= *)
(** ** 6. External interfaces: live price and request handling

    Conventions of this part.
    - [process.env.POLYGON_API_KEY] is an explicit argument, a string or
      [undefined].
    - The price provider is a function from the URL that is fetched to
      what [fetchLiveStockPrice] can tell of the answer; a close price
      is a real number.
    - The fields of the request body have their declared types (strings
      and whole numbers), an absent field is [undefined]; a body that
      is [undefined] or [null], which cannot be destructured, is [None].
      The declared type does not bind what a client sends: [postHandler]
      takes the ticker as any JSON value, the other fields as declared.
    - [toUpperCase] is a parameter of the handler.
    - [mockPrices[ticker]] is a lookup among the ten keys of the
      literal; the names inherited from [Object.prototype] are outside
      the model (they all contain lower-case letters, and the handler
      looks up tickers in upper case).
    - What is written to the console is not modelled. *)

Module Api.

Local Open Scope string_scope.

(** What the price provider does with one request, as far as
    [fetchLiveStockPrice] can tell. *)
Inductive ProviderReply : Type :=
| Unreachable             (* [fetch] or [response.json()] rejects *)
| HttpError (status : Z)  (* [response.ok] is false *)
| NoResults               (* [data.results] or [data.results[0]] is falsy *)
| Close (c : R).          (* [data.results[0].c], a number *)

(** The object literal [mockPrices], as its own keys and values. *)
Definition mockPrices : list (string * R) :=
  [ ("AAPL", 237.88); ("SPY", 590.25); ("TSLA", 248.50); ("MSFT", 425.32);
    ("NVDA", 138.45); ("META", 563.12); ("GOOGL", 175.28); ("AMZN", 197.85);
    ("QQQ", 515.75); ("AMD", 120.33) ].

(** [table[key]] on own keys; [None] is [undefined]. *)
Fixpoint lookup (key : string) (table : list (string * R)) : option R :=
  match table with
  | [] => None
  | (k, v) :: table' => if String.eqb k key then Some v else lookup key table'
  end.

(** [Math.random()] as the real it returns. *)
Definition random (U : nat -> R) : M R := fun n => (U n, S n).

(** [100 + Math.random() * 200] *)
Definition randomPrice (U : nat -> R) : M R :=
  u <- random U ;; ret (100 + u * 200).

(** [mockPrices[ticker] || 100 + Math.random() * 200] *)
Definition mockPrice (U : nat -> R) (ticker : string) : M R :=
  match lookup ticker mockPrices with
  | Some p => if Reqb p 0 then randomPrice U else ret p
  | None => randomPrice U
  end.

Definition priceUrl (ticker apiKey : string) : string :=
  "https://api.polygon.io/v2/aggs/ticker/" ++ ticker
  ++ "/prev?adjusted=true&apikey=" ++ apiKey.

(** [fetchLiveStockPrice]; [apiKey] is [process.env.POLYGON_API_KEY]
    ([undefined] and the empty string are falsy) and [provider] answers
    the request for a URL.  Every failure inside [try] ends in the same
    [catch]. *)
Definition fetchLiveStockPrice (U : nat -> R) (apiKey : option string)
    (provider : string -> ProviderReply) (ticker : string) : M R :=
  match apiKey with
  | None => mockPrice U ticker
  | Some key =>
      if String.eqb key "" then mockPrice U ticker
      else
        match provider (priceUrl ticker key) with
        | Close c => ret c
        | Unreachable | HttpError _ | NoResults => randomPrice U
        end
  end.

(** The body of the request, [undefined] fields as [None]. *)
Record ScanRequest : Type := mkRequest {
  req_ticker : option string;
  req_riskProfile : string;
  req_minDte : option Z;
  req_maxDte : option Z;
  req_maxStrategies : option Z
}.

Record ScanResponse : Type := mkResponse {
  res_success : bool;
  res_strategies : list Strategy;
  res_currentPrice : R;
  res_ticker : string;
  res_error : option string
}.

(** What [handler] does to [res]: the status, the JSON body, and the
    delay in milliseconds it asked [setTimeout] for before answering. *)
Record Reply : Type := mkReply {
  status : Z;
  body : ScanResponse;
  waited : R
}.

Definition failure (code : Z) (message : string) : Reply :=
  mkReply code (mkResponse false [] 0 "" (Some message)) 0.

(** A destructuring default: [field = d]. *)
Definition withDefault (field : option Z) (d : Z) : Z :=
  match field with Some v => v | None => d end.

Section Handler.

Variable U : nat -> R.
(** The host: time zone, the two readings of the clock, the environment
    and the price provider. *)
Variables (tz today now : Z).
Variable apiKey : option string.
Variable provider : string -> ProviderReply.
(** [String.prototype.toUpperCase]. *)
Variable toUpperCase : string -> string.

(** [handler], the default export: [method] is [req.method], [request]
    is [req.body] ([None] when it is [undefined] or [null], so that the
    destructuring throws inside [try]).  The result is [None] when the
    calendar loop does not finish. *)
Definition scanHandler (method : string) (request : option ScanRequest)
    : M (option Reply) :=
  if negb (String.eqb method "POST") then ret (Some (failure 405 "Method not allowed"))
  else
    match request with
    | None => ret (Some (failure 500 "Internal server error"))
    | Some request =>
        let minDte := withDefault (req_minDte request) 30 in
        let maxDte := withDefault (req_maxDte request) 45 in
        let maxStrategies := withDefault (req_maxStrategies request) 5 in
        match req_ticker request with
        | None => ret (Some (failure 400 "Ticker is required"))
        | Some ticker =>
            if String.eqb ticker "" then ret (Some (failure 400 "Ticker is required"))
            else
              let upperTicker := toUpperCase ticker in
              currentPrice <- fetchLiveStockPrice U apiKey provider upperTicker ;;
              match handler U tz today now currentPrice upperTicker
                            (req_riskProfile request) minDte maxDte maxStrategies with
              | None => ret None
              | Some ranked =>
                  strategies <- ranked ;;
                  u <- random U ;;
                  ret (Some (mkReply 200
                               (mkResponse true strategies currentPrice upperTicker None)
                               (800 + u * 400)))
              end
        end
    end.

(** What a client can send under [ticker]. *)
Inductive TickerField : Type :=
| NoTicker                     (* absent, [null], [false] or [0] *)
| TickerText (ticker : string) (* a string; the empty one is falsy *)
| NotAString.                  (* a non-zero number, [true], an array, an object *)

(** The body as it was sent, the ticker untyped. *)
Record PostedBody : Type := mkPosted {
  sent_ticker : TickerField;
  sent_riskProfile : string;
  sent_minDte : option Z;
  sent_maxDte : option Z;
  sent_maxStrategies : option Z
}.

Definition typed (sent : PostedBody) (ticker : option string) : ScanRequest :=
  mkRequest ticker (sent_riskProfile sent) (sent_minDte sent) (sent_maxDte sent)
            (sent_maxStrategies sent).

(** [handler] on a body whose ticker is any JSON value.  A value that is
    truthy and not a string passes [if (!ticker)] and has no method
    [toUpperCase]: line 570 throws a [TypeError] inside [try], before
    the price is fetched, and [catch] answers 500. *)
Definition postHandler (method : string) (body : option PostedBody)
    : M (option Reply) :=
  match body with
  | None => scanHandler method None
  | Some sent =>
      match sent_ticker sent with
      | NoTicker => scanHandler method (Some (typed sent None))
      | TickerText ticker => scanHandler method (Some (typed sent (Some ticker)))
      | NotAString =>
          if negb (String.eqb method "POST")
          then ret (Some (failure 405 "Method not allowed"))
          else ret (Some (failure 500 "Internal server error"))
      end
  end.

End Handler.

(** [toUpperCase] on strings of ASCII characters. *)
Definition upperAscii (c : Ascii.ascii) : Ascii.ascii :=
  let n := Ascii.nat_of_ascii c in
  if (97 <=? n)%nat && (n <=? 122)%nat then Ascii.ascii_of_nat (n - 32) else c.

Fixpoint toUpperAscii (s : string) : string :=
  match s with
  | EmptyString => EmptyString
  | String c s' => String (upperAscii c) (toUpperAscii s')
  end.

End Api.

(* ================================================================= *)
(** ** The closed form of section 4.1 over the reals

    What the specification writes for the pricing model, on real
    arguments; the theorems below relate [blackScholes] and
    [calculateOptionPrice] to it. *)

Module ClosedForm.

(** The Abramowitz-Stegun polynomial in [t = 1 / (1 + p |x|)]. *)
Definition as_poly (t : R) : R :=
  (((((1.061405429 * t + -1.453152027) * t) + 1.421413741) * t
      + -0.284496736) * t + 0.254829592) * t.

Definition erf_approx (x : R) : R :=
  let t := 1 / (1 + 0.3275911 * Rabs x) in
  (if Rleb 0 x then 1 else -1) * (1 - as_poly t * exp (- Rabs x * Rabs x)).

(** Standard normal CDF [N] and PDF [n]. *)
Definition N (x : R) : R := 0.5 * (1 + erf_approx (x / sqrt 2)).
Definition n (x : R) : R := exp (- (x * x) / 2) / sqrt (2 * PI).

Section Contract.

Variables (S K T r σ : R).

Definition d1 : R := (ln (S / K) + (r + 0.5 * σ * σ) * T) / (σ * sqrt T).
Definition d2 : R := d1 - σ * sqrt T.

Definition call_value : R := S * N d1 - K * exp (- r * T) * N d2.
Definition put_value : R := K * exp (- r * T) * N (- d2) - S * N (- d1).

Definition value (isCall : bool) : R := if isCall then call_value else put_value.

Definition delta_value (isCall : bool) : R := if isCall then N d1 else N d1 - 1.
Definition gamma_value : R := n d1 / (S * σ * sqrt T).
Definition vega_value : R := S * n d1 * sqrt T / 100.

(** Annualized theta. *)
Definition theta_annual (isCall : bool) : R :=
  - (S * n d1 * σ) / (2 * sqrt T)
  - r * K * exp (- r * T) * (if isCall then N d2 else N (- d2)).

End Contract.

(** Rounding to [k] decimals, [pow10 = 10^k]. *)
Definition round_to (pow10 : R) (x : R) : R := Rround (x * pow10) / pow10.

(** Per-day theta as section 3 has it: round the annual figure to two
    decimals, then divide by 365. *)
Definition theta_per_day (S K T r σ : R) (isCall : bool) : R :=
  round_to 100 (theta_annual S K T r σ isCall) / 365.

(** Intrinsic value. *)
Definition intrinsic (S K : R) (isCall : bool) : R :=
  if isCall then Rmax (S - K) 0 else Rmax (K - S) 0.

End ClosedForm.

(* ================================================================= *)
(** ** Predicates of the statements *)

(** *** Pricing *)

(** The quote respects the minimum tick. *)
Definition price_floored (q : PricingQuote) : Prop :=
  exists p, price q = Fin p /\ 0.05 <= p.

(** Put-call parity of the two prices before the market adjustment. *)
Definition parity_holds (S K d r σ : R) : Prop :=
  exists c p,
    m_price (blackScholes (Fin S) (Fin K) (Fin (d / 365)) (Fin r) (Fin σ) true) = Fin c /\
    m_price (blackScholes (Fin S) (Fin K) (Fin (d / 365)) (Fin r) (Fin σ) false) = Fin p /\
    c - p = S - K * exp (- r * (d / 365)).

(** By how much [N x + N (- x)] misses 1: the approximation of [erf]
    is odd everywhere but at 0, where it returns [1e-9]. *)
Definition parity_defect (x : R) : R := if Reqb x 0 then 0.000000001 else 0.

(** *** Sorting *)

(** [x] may stay in front of [y]. *)
Definition keeps {A} (compareFn : A -> A -> number) (x y : A) : Prop :=
  (compareFn x y >? Fin 0)%js = false.

Definition descending {A} (key : A -> R) (a b : A) : Prop := key b <= key a.

Definition has_key {A} (key : A -> R) (k : R) (a : A) : bool := Reqb (key a) k.

(** *** Strike ladder *)

(** The multiple of the interval nearest to the spot price. *)
Definition base_index (spot : R) : Z := Zfloor (spot / strike_interval spot + 1 / 2).

(** The loop indices whose strike passes the positivity test. *)
Definition kept_indices (k : Z) : list Z :=
  filter (fun i => (0 <? k + i)%Z) loop_indices.

Definition successive (a b : Z) : Prop := b = (a + 1)%Z.

(** *** Expiration calendar *)

(** A date string the calendar may push: the ISO day of a date that is
    a Friday in local time and whose DTE lies in the window. *)
Definition qualifies (tz today minDte maxDte : Z) (s : Z) : Prop :=
  exists expDate,
    s = isoDate expDate /\ getDay tz expDate = 5%Z /\
    (minDte <= (expDate - today) / msPerDay <= maxDte)%Z.

(** The weekday of the UTC day a date string names. *)
Definition isoWeekDay (s : Z) : Z := ((s + 4) mod 7)%Z.

(** 2026-11-02T10:00:00Z, a Monday. *)
Definition monday_morning : Z := (20759 * msPerDay + 10 * 3600000)%Z.

(** 2026-11-03T01:00:00Z, which is 20:00 on Monday 2 November in UTC-5. *)
Definition evening_in_new_york : Z := (20759 * msPerDay + 25 * 3600000)%Z.

(** *** Synthesizer *)

Definition good_strike (v : option R) : Prop := exists s, v = Some s /\ 0 < s.

(** The setup [generateStrategies] builds for a positive spot price. *)
Definition ladder_setup (c : Setup) : Prop :=
  0 < currentPrice c /\ strikes c = generateStrikes (currentPrice c).

Definition legs_ok (c : Setup) (s : Strategy) : Prop :=
  Forall (fun l => good_strike (strike l) /\ expiry l = primaryExpiry c) (legs s).

Definition leg_well_defined (l : StrategyLeg) : Prop :=
  good_strike (strike l) /\ exists e, expiry l = Some e.

(** The synthesizer returns, and every leg it produced has a positive
    strike and an expiry date. *)
Definition synthesizer_safe (U : nat -> R) (tz today now : Z) (spot : R)
    (ticker : string) (minDte maxDte : Z) (n : nat) : Prop :=
  exists synth,
    generateStrategies U tz today now spot ticker minDte maxDte = Some synth /\
    Forall (fun s => Forall leg_well_defined (legs s)) (fst (synth n)).

(** The base confidence of each template (the constants of lines 84,
    139, 169, 202, 229, 262 and 313). *)
Definition base_confidence (name : string) : option R :=
  if String.eqb name "Bull Put Spread" then Some 72.5
  else if String.eqb name "Iron Condor" then Some 65.2
  else if String.eqb name "Cash Secured Put" then Some 69.8
  else if String.eqb name "Long Straddle" then Some 58.5
  else if String.eqb name "Covered Call" then Some 66.7
  else if String.eqb name "Bear Call Spread" then Some 63.5
  else if String.eqb name "Bull Call Spread" then Some 68.2
  else None.

(** [s] carries its template's base confidence plus five times the
    draw at position [k] of the stream. *)
Definition jittered_at (U : nat -> R) (s : Strategy) (k : nat) : Prop :=
  exists b, base_confidence (name s) = Some b /\ confidence s = Fin (b + U k * 5).

Definition jittered_confidence (U : nat -> R) (s : Strategy) : Prop :=
  exists k, jittered_at U s k.

(** The computation only moves forward in the stream, and the
    strategies it returns take their confidence from distinct positions
    it has consumed. *)
Definition own_draws (U : nat -> R) (m : M (list Strategy)) : Prop :=
  forall i,
    (i <= snd (m i))%nat /\
    exists ks,
      Forall2 (jittered_at U) (fst (m i)) ks /\
      Forall (fun k => (i <= k < snd (m i))%nat) ks /\
      NoDup ks.

(** The net credit of a two-leg credit spread: the premium of the leg
    sold minus the premium of the leg bought. *)
Definition net_credit (s : Strategy) : number :=
  match legs s with
  | [short; long] => nsub (premium short) (premium long)
  | _ => NaN
  end.

(** *** Ranker *)

Definition confidence_value (s : Strategy) : R :=
  match confidence s with Fin x => x | NaN => 0 end.

Definition finite_confidence (s : Strategy) : Prop := isFin (confidence s).

(** The conservative profile, in the words of section 4.5. *)
Definition conservative_ok (s : Strategy) : Prop :=
  65 <= confidence_value s /\ type s <> "volatility"%string.

Definition conservative_test (s : Strategy) : bool :=
  Rleb 65 (confidence_value s) && negb (String.eqb (type s) "volatility").

(** [out] is [kept] sorted by confidence, highest first, ties in their
    original order. *)
Definition stably_ranked (kept out : list Strategy) : Prop :=
  Permutation kept out /\
  StronglySorted (descending confidence_value) out /\
  forall k, filter (has_key confidence_value k) out
            = filter (has_key confidence_value k) kept.

(** What section 4.5 says of the conservative profile, for the catalog
    synthesized from position [n] of the stream. *)
Definition conservative_selection (U : nat -> R) (tz today now : Z) (spot : R)
    (ticker : string) (minDte maxDte maxStrategies : Z) (n : nat) : Prop :=
  exists synth h,
    generateStrategies U tz today now spot ticker minDte maxDte = Some synth /\
    handler U tz today now spot ticker "conservative" minDte maxDte maxStrategies = Some h /\
    (exists sorted,
       stably_ranked (filter conservative_test (fst (synth n))) sorted /\
       fst (h n) = firstn (Z.to_nat maxStrategies) sorted) /\
    Forall conservative_ok (fst (h n)) /\
    (Z.of_nat (List.length (fst (h n))) <= maxStrategies)%Z.

(** *** Further statements *)

(** A date string the calendar pushes, with its distance from today. *)
Definition week_away (tz today minDte maxDte : Z) (s : Z) : Prop :=
  exists expDate,
    s = isoDate expDate /\ getDay tz expDate = 5%Z /\
    (7 <= (expDate - today) / msPerDay)%Z /\
    (minDte <= (expDate - today) / msPerDay <= maxDte)%Z.

(** The days from [d] to the next Friday of the host, 0 on a Friday. *)
Definition daysToFriday (tz d : Z) : Z := ((5 - getDay tz d) mod 7)%Z.

(** A window that some weekly candidate falls into whatever the weekday:
    at least a week wide, opening within the twelve weeks the loop covers
    and closing no earlier than the latest first candidate. *)
Definition regular_window (minDte maxDte : Z) : Prop :=
  (minDte <= 84 /\ 13 <= maxDte /\ minDte + 6 <= maxDte)%Z.

(** A leg with a positive strike, an expiry date and a premium that is a
    number not below the tick. *)
Definition leg_quoted (l : StrategyLeg) : Prop :=
  good_strike (strike l) /\ (exists e, expiry l = Some e) /\
  exists p, premium l = Fin p /\ 0.05 <= p.

(** A leg without expiry date and without premium. *)
Definition leg_void (l : StrategyLeg) : Prop :=
  expiry l = None /\ premium l = NaN.

(** What a strategy shows of its template: id, name, category, number of
    legs and number of break-even points. *)
Definition shape (s : Strategy) : string * string * string * nat * nat :=
  (id s, name s, type s, List.length (legs s), List.length (breakEvenPoints s)).

(** The seven templates of [generateStrategies], in source order. *)
Definition templates : list (string * string * string * nat * nat) :=
  [ ("1", "Bull Put Spread", "bullish", 2, 1);
    ("2", "Iron Condor", "neutral", 4, 2);
    ("3", "Cash Secured Put", "bullish", 1, 1);
    ("4", "Long Straddle", "volatility", 2, 2);
    ("5", "Covered Call", "neutral", 1, 1);
    ("6", "Bear Call Spread", "bearish", 2, 1);
    ("7", "Bull Call Spread", "bullish", 2, 1) ]%string%nat.

(** The templates of the strategies that are pushed under a guard. *)
Definition guarded (b1 b2 b6 b7 : bool) : list (string * string * string * nat * nat) :=
  filter (fun t => match fst (fst (fst (fst t))) with
                   | "1" => b1 | "2" => b2 | "6" => b6 | "7" => b7 | _ => true
                   end%string) templates.

(** What a leg trades: kind, action and strike. *)
Definition trade (l : StrategyLeg) : string * string * option R :=
  (leg_type l, action l, strike l).

(** Every figure of a strategy is a number. *)
Definition greeks_finite (g : Greeks) : Prop :=
  isFin (delta g) /\ isFin (gamma g) /\ isFin (theta g) /\ isFin (vega g).

Definition leg_numbers (l : StrategyLeg) : Prop :=
  isFin (quantity l) /\ isFin (premium l) /\ isFin (leg_delta l) /\
  isFin (leg_gamma l) /\ isFin (leg_theta l) /\ isFin (leg_vega l).

Definition all_numbers (s : Strategy) : Prop :=
  isFin (confidence s) /\ isFin (maxProfit s) /\ isFin (maxLoss s) /\
  isFin (capitalRequired s) /\ isFin (probabilityOfProfit s) /\
  Forall isFin (breakEvenPoints s) /\ greeks_finite (strategy_greeks s) /\
  Forall leg_numbers (legs s).

(** Draws on which the Bull Put Spread is pushed: a high volatility,
    the put sold quoted near the top of the adjustment band, the put
    bought at its bottom. *)
Definition spread_draws : nat -> R := fun n => if Nat.eqb n 2 then 0 else 0.99.

(* ================================================================= *)
(** * Proofs *)

(** ** Comparisons on the reals *)

Lemma Rltb_true x y : x < y -> Rltb x y = true.
Proof. intros H; unfold Rltb; destruct (Rlt_dec x y); [reflexivity | contradiction]. Qed.

Lemma Rltb_false x y : y <= x -> Rltb x y = false.
Proof. intros H; unfold Rltb; destruct (Rlt_dec x y); [lra | reflexivity]. Qed.

Lemma Rleb_true x y : x <= y -> Rleb x y = true.
Proof. intros H; unfold Rleb; destruct (Rle_dec x y); [reflexivity | contradiction]. Qed.

Lemma Rleb_false x y : y < x -> Rleb x y = false.
Proof. intros H; unfold Rleb; destruct (Rle_dec x y); [lra | reflexivity]. Qed.

Lemma Reqb_false x y : x <> y -> Reqb x y = false.
Proof. intros H; unfold Reqb; destruct (Req_dec_T x y); [contradiction | reflexivity]. Qed.

Lemma Rltb_spec x y : reflect (x < y) (Rltb x y).
Proof. unfold Rltb; destruct (Rlt_dec x y); constructor; assumption. Qed.

Lemma Rleb_spec x y : reflect (x <= y) (Rleb x y).
Proof. unfold Rleb; destruct (Rle_dec x y); constructor; assumption. Qed.

Lemma Reqb_spec x y : reflect (x = y) (Reqb x y).
Proof. unfold Reqb; destruct (Req_dec_T x y); constructor; assumption. Qed.

(** ** Arithmetic on finite numbers and on [NaN] *)

Lemma ndiv_Fin x y : y <> 0 -> ndiv (Fin x) (Fin y) = Fin (x / y).
Proof. intros H; unfold ndiv; now rewrite Reqb_false. Qed.

Lemma Math_sqrt_Fin x : 0 <= x -> Math_sqrt (Fin x) = Fin (sqrt x).
Proof. intros H; unfold Math_sqrt; now rewrite Rleb_true. Qed.

Lemma Math_log_Fin x : 0 < x -> Math_log (Fin x) = Fin (ln x).
Proof. intros H; unfold Math_log; now rewrite Rltb_true. Qed.

Lemma nmul_NaN_r a : nmul a NaN = NaN.
Proof. destruct a; reflexivity. Qed.

Lemma nadd_NaN_r a : nadd a NaN = NaN.
Proof. destruct a; reflexivity. Qed.

Lemma nsub_NaN_r a : nsub a NaN = NaN.
Proof. destruct a; reflexivity. Qed.

Lemma ndiv_NaN_r a : ndiv a NaN = NaN.
Proof. destruct a; reflexivity. Qed.

Lemma sqrt2_neq0 : sqrt 2 <> 0.
Proof. apply Rgt_not_eq, sqrt_lt_R0; lra. Qed.

Lemma sqrt_2PI_neq0 : sqrt (2 * PI) <> 0.
Proof. apply Rgt_not_eq, sqrt_lt_R0. generalize PI_RGT_0; lra. Qed.

Lemma Rround_pos x : 1 / 2 <= x -> 0 < Rround x.
Proof.
  intros H. unfold Rround. apply (IZR_lt 0).
  assert (1 <= Zfloor (x + 1 / 2))%Z by (apply Zfloor_lub; lra). lia.
Qed.

(** Evaluation of the lifted operations on arguments that are known. *)
Ltac js_eval :=
  cbn [nadd nsub nmul nneg nlt nle ngt nge lift1 lift2 cmp2
       Math_round Math_abs Math_exp Math_max toNumber].

(** Propagation of [NaN] from the right operand. *)
Ltac nan_prop :=
  repeat (progress (rewrite ?nmul_NaN_r, ?nadd_NaN_r, ?nsub_NaN_r, ?ndiv_NaN_r;
                    cbn [nadd nsub nmul ndiv nneg lift1 lift2 nle nlt cmp2
                         Math_exp Math_sqrt Math_round Math_max Math_abs])).

(** ** The pricing model computes the closed form *)

Section PricingFacts.

Import ClosedForm.

Lemma erf_Fin x : erf (Fin x) = Fin (erf_approx x).
Proof.
  unfold erf, erf_approx, as_poly. js_eval.
  assert (Hp : 1 + 0.3275911 * Rabs x <> 0)
    by (generalize (Rabs_pos x); lra).
  rewrite (ndiv_Fin _ _ Hp). js_eval.
  destruct (Rleb 0 x); js_eval; reflexivity.
Qed.

Lemma cdf_Fin x : cdf (Fin x) = Fin (N x).
Proof.
  unfold cdf, N.
  rewrite Math_sqrt_Fin by lra.
  rewrite ndiv_Fin by apply sqrt2_neq0.
  rewrite erf_Fin. reflexivity.
Qed.

Lemma pdf_code x : exp (Ropp 0.5 * x * x) / sqrt (2 * PI) = n x.
Proof. unfold n. f_equal. f_equal. lra. Qed.

(** On positive spot, strike, time and volatility the code computes the
    closed form of section 4.1. *)
Lemma blackScholes_Fin S K T r σ isCall :
  0 < S -> 0 < K -> 0 < T -> 0 < σ ->
  blackScholes (Fin S) (Fin K) (Fin T) (Fin r) (Fin σ) isCall =
  mkModel (Fin (value S K T r σ isCall))
          (Fin (delta_value S K T r σ isCall))
          (Fin (gamma_value S K T r σ))
          (Fin (theta_annual S K T r σ isCall))
          (Fin (vega_value S K T r σ)).
Proof.
  intros HS HK HT Hσ.
  assert (HsT : 0 < sqrt T) by (apply sqrt_lt_R0; lra).
  assert (HSK : 0 < S / K) by (apply Rdiv_lt_0_compat; lra).
  assert (Hden : σ * sqrt T <> 0) by (apply Rgt_not_eq; nra).
  assert (Hden2 : S * σ * sqrt T <> 0).
  { apply Rgt_not_eq. apply Rmult_lt_0_compat; [nra | lra]. }
  unfold blackScholes, Math_PI. js_eval.
  rewrite (ndiv_Fin S K) by lra.
  rewrite (Math_log_Fin _ HSK).
  rewrite (Math_sqrt_Fin T) by lra.
  rewrite (Math_sqrt_Fin (2 * PI)) by (generalize PI_RGT_0; lra).
  js_eval.
  rewrite (ndiv_Fin _ _ Hden). js_eval.
  rewrite !cdf_Fin.
  rewrite (ndiv_Fin _ _ sqrt_2PI_neq0).
  change ((ln (S / K) + (r + 0.5 * σ * σ) * T) / (σ * sqrt T)) with (d1 S K T r σ).
  change (d1 S K T r σ - σ * sqrt T) with (d2 S K T r σ).
  rewrite pdf_code.
  destruct isCall; js_eval;
    rewrite (ndiv_Fin _ _ Hden2), (ndiv_Fin _ (2 * sqrt T)) by lra;
    rewrite (ndiv_Fin _ 100) by lra; js_eval; reflexivity.
Qed.

Lemma blackScholes_NaN_time S K r σ isCall :
  blackScholes S K NaN r σ isCall = mkModel NaN NaN NaN NaN NaN.
Proof.
  unfold blackScholes. nan_prop.
  change (cdf NaN) with NaN. nan_prop.
  destruct isCall; nan_prop; reflexivity.
Qed.

Lemma years_Fin d : ndiv (Fin d) (Fin 365) = Fin (d / 365).
Proof. apply ndiv_Fin; lra. Qed.

(** The expired branch: no draw, no closed form. *)
Lemma calculateOptionPrice_expired U S K d σ r isCall i :
  d <= 0 ->
  calculateOptionPrice U S K (Fin d) σ r isCall i =
  (mkQuote (if isCall then Math_max (nsub S K) (Fin 0) else Math_max (nsub K S) (Fin 0))
           (mkGreeks (if isCall then (if ngt S K then Fin 1 else Fin 0)
                      else (if nlt S K then Fin (-1) else Fin 0))
                     (Fin 0) (Fin 0) (Fin 0)), i).
Proof.
  intros Hd. unfold calculateOptionPrice.
  rewrite years_Fin. js_eval.
  rewrite Rleb_true by lra. reflexivity.
Qed.

(** The closed-form branch on positive arguments: one draw. *)
Lemma calculateOptionPrice_live U S K d σ r isCall i :
  0 < S -> 0 < K -> 0 < d -> 0 < σ ->
  calculateOptionPrice U (Fin S) (Fin K) (Fin d) (Fin σ) (Fin r) isCall i =
  (mkQuote (Fin (Rmax (value S K (d / 365) r σ isCall * (1 + (U i - 0.5) * 0.1)) 0.05))
           (mkGreeks (Fin (round_to 100 (delta_value S K (d / 365) r σ isCall)))
                     (Fin (round_to 1000 (gamma_value S K (d / 365) r σ)))
                     (Fin (theta_per_day S K (d / 365) r σ isCall))
                     (Fin (round_to 100 (vega_value S K (d / 365) r σ)))),
   Nat.succ i).
Proof.
  intros HS HK Hd Hσ. unfold calculateOptionPrice.
  rewrite years_Fin. js_eval.
  rewrite Rleb_false by lra.
  rewrite blackScholes_Fin by lra.
  unfold bind, Math_random, ret. cbn [m_price m_delta m_gamma m_theta m_vega]. js_eval.
  rewrite !(ndiv_Fin _ 100), (ndiv_Fin _ 1000), (ndiv_Fin _ 365) by lra.
  reflexivity.
Qed.

(** A time to expiry that is [NaN] poisons the whole quote. *)
Lemma calculateOptionPrice_NaN_time U S K σ r isCall i :
  calculateOptionPrice U S K NaN σ r isCall i =
  (mkQuote NaN (mkGreeks NaN NaN NaN NaN), Nat.succ i).
Proof.
  unfold calculateOptionPrice. nan_prop.
  rewrite blackScholes_NaN_time.
  unfold bind, Math_random, ret.
  cbn [m_price m_delta m_gamma m_theta m_vega]. nan_prop. reflexivity.
Qed.

(** *** Symmetry of the normal CDF *)

Lemma erf_approx_odd x : x <> 0 -> erf_approx (- x) = - erf_approx x.
Proof.
  intros Hx. unfold erf_approx. rewrite Rabs_Ropp.
  destruct (Rlt_le_dec 0 x).
  - rewrite (Rleb_true 0 x), (Rleb_false 0 (- x)) by lra. lra.
  - rewrite (Rleb_false 0 x), (Rleb_true 0 (- x)) by lra. lra.
Qed.

Lemma erf_approx_0 : erf_approx 0 = 0.000000001.
Proof.
  unfold erf_approx, as_poly. rewrite Rabs_R0, Rleb_true by lra.
  replace (- 0 * 0) with 0 by lra. rewrite exp_0. lra.
Qed.

Lemma N_symmetric x : x <> 0 -> N x + N (- x) = 1.
Proof.
  intros Hx. unfold N.
  replace (- x / sqrt 2) with (- (x / sqrt 2)) by (field; apply sqrt2_neq0).
  rewrite erf_approx_odd; [lra |].
  intros H. apply Hx.
  apply (Rmult_eq_reg_r (/ sqrt 2)); [| apply Rinv_neq_0_compat, sqrt2_neq0].
  unfold Rdiv in H. lra.
Qed.

Lemma N_at_0 : N 0 = 0.5000000005.
Proof.
  unfold N. replace (0 / sqrt 2) with 0 by (unfold Rdiv; lra).
  rewrite erf_approx_0. lra.
Qed.

Lemma N_pair x : N x + N (- x) = 1 + parity_defect x.
Proof.
  unfold parity_defect. destruct (Reqb_spec x 0) as [-> | Hx].
  - replace (- 0) with 0 by lra. rewrite N_at_0. lra.
  - rewrite N_symmetric by assumption. lra.
Qed.

Lemma parity_identity S K T r σ :
  call_value S K T r σ - put_value S K T r σ =
  S * (N (d1 S K T r σ) + N (- d1 S K T r σ))
  - K * exp (- r * T) * (N (d2 S K T r σ) + N (- d2 S K T r σ)).
Proof. unfold call_value, put_value. ring. Qed.

(** An at-the-money contract one year out. *)
Lemma d1_at_the_money r σ :
  σ <> 0 -> d1 100 100 (365 / 365) r σ = (r + 0.5 * σ * σ) / σ.
Proof.
  intros H. unfold d1.
  replace (100 / 100) with 1 by lra. replace (365 / 365) with 1 by lra.
  rewrite ln_1, sqrt_1. field. assumption.
Qed.

Lemma d2_at_the_money r σ :
  σ <> 0 -> d2 100 100 (365 / 365) r σ = (r + 0.5 * σ * σ) / σ - σ.
Proof.
  intros H. unfold d2. rewrite d1_at_the_money by assumption.
  replace (365 / 365) with 1 by lra. rewrite sqrt_1. ring.
Qed.

(** Rounding before the division is not rounding after it. *)
Remark round_then_divide_differs :
  round_to 100 (-10) / 365 <> round_to 100 (-10 / 365).
Proof.
  unfold round_to, Rround.
  rewrite (Zfloor_eq (-1000)) by (simpl; lra).
  rewrite (Zfloor_eq (-3)) by (simpl; lra).
  simpl. lra.
Qed.

End PricingFacts.

(* ================================================================= *)
(** ** Sorting and slicing *)

Section SortFacts.

Context {A : Type} (compareFn : A -> A -> number).

Lemma insert_keeps x l :
  HdRel (keeps compareFn) x l -> JSArray.insert compareFn x l = x :: l.
Proof.
  destruct l as [| y l]; [reflexivity |].
  intros H. apply HdRel_inv in H. cbn [JSArray.insert].
  unfold keeps in H. now rewrite H.
Qed.

(** A list that is already in order comes back as it is. *)
Lemma sort_sorted_id l :
  Sorted (keeps compareFn) l -> JSArray.sort compareFn l = l.
Proof.
  induction 1 as [| x l Hl IH Hx]; [reflexivity |].
  cbn [JSArray.sort]. rewrite IH. now apply insert_keeps.
Qed.

Lemma insert_perm x l : Permutation (x :: l) (JSArray.insert compareFn x l).
Proof.
  induction l as [| y l IH]; cbn [JSArray.insert]; [reflexivity |].
  destruct (ngt (compareFn x y) (Fin 0)); [| reflexivity].
  rewrite perm_swap. now apply perm_skip.
Qed.

Lemma sort_perm l : Permutation l (JSArray.sort compareFn l).
Proof.
  induction l as [| x l IH]; cbn [JSArray.sort]; [reflexivity |].
  rewrite <- insert_perm. now apply perm_skip.
Qed.

Lemma sort_Forall (P : A -> Prop) l :
  Forall P l -> Forall P (JSArray.sort compareFn l).
Proof.
  intros H. eapply Permutation_Forall; [apply sort_perm | exact H].
Qed.

(** *** Comparison by a real key, highest first *)

Variable key : A -> R.
Variable D : A -> Prop.

Hypothesis compare_key :
  forall a b, D a -> D b -> compareFn a b = Fin (key b - key a).

Lemma insert_HdRel y x l :
  descending key y x -> HdRel (descending key) y l ->
  HdRel (descending key) y (JSArray.insert compareFn x l).
Proof.
  intros Hyx Hyl. destruct l as [| z l]; cbn [JSArray.insert]; [now constructor |].
  destruct (ngt _ _); constructor; [now apply HdRel_inv in Hyl | exact Hyx].
Qed.

Lemma insert_sorted x l :
  D x -> Forall D l -> Sorted (descending key) l ->
  Sorted (descending key) (JSArray.insert compareFn x l).
Proof.
  intros Hx HD Hs. induction Hs as [| y l Hl IH Hy]; cbn [JSArray.insert].
  - repeat constructor.
  - apply Forall_cons_iff in HD as [Dy HD].
    rewrite (compare_key x y Hx Dy). cbn [ngt nlt cmp2].
    destruct (Rltb_spec 0 (key y - key x)) as [Hlt | Hge].
    + constructor; [now apply IH |].
      apply insert_HdRel; [unfold descending; lra | exact Hy].
    + constructor; [now constructor |]. constructor. unfold descending. lra.
Qed.

Lemma sort_descending l :
  Forall D l -> StronglySorted (descending key) (JSArray.sort compareFn l).
Proof.
  intros H. apply Sorted_StronglySorted.
  - intros a b c. unfold descending. lra.
  - induction H as [| x l Hx Hl IH]; cbn [JSArray.sort]; [constructor |].
    apply insert_sorted; [exact Hx | now apply sort_Forall | exact IH].
Qed.

(** Stability: the elements of one key keep their order. *)
Lemma insert_stable k x l :
  D x -> Forall D l ->
  filter (has_key key k) (JSArray.insert compareFn x l)
  = filter (has_key key k) (x :: l).
Proof.
  intros Hx HD. induction HD as [| y l Dy HD IH]; cbn [JSArray.insert]; [reflexivity |].
  rewrite (compare_key x y Hx Dy). cbn [ngt nlt cmp2].
  destruct (Rltb_spec 0 (key y - key x)) as [Hlt | Hge]; [| reflexivity].
  cbn [filter]. rewrite IH. cbn [filter]. unfold has_key.
  destruct (Reqb_spec (key x) k), (Reqb_spec (key y) k); try reflexivity. lra.
Qed.

Lemma sort_stable k l :
  Forall D l ->
  filter (has_key key k) (JSArray.sort compareFn l) = filter (has_key key k) l.
Proof.
  induction 1 as [| x l Hx Hl IH]; cbn [JSArray.sort]; [reflexivity |].
  rewrite insert_stable by (try apply sort_Forall; assumption).
  cbn [filter]. now rewrite IH.
Qed.

End SortFacts.

Lemma slice0_nonneg {A} (l : list A) e :
  (0 <= e)%Z -> JSArray.slice0 l e = firstn (Z.to_nat e) l.
Proof.
  intros He. unfold JSArray.slice0.
  destruct (Z.ltb_spec e 0); [lia |].
  destruct (Z_le_gt_dec e (Z.of_nat (List.length l))).
  - now rewrite Z.min_l.
  - rewrite Z.min_r, Nat2Z.id by lia.
    rewrite !firstn_all2; [reflexivity | lia | lia].
Qed.

(** A negative [end] drops that many elements from the end instead. *)
Lemma slice0_negative {A} (l : list A) e :
  (e < 0)%Z -> JSArray.slice0 l e = firstn (List.length l - Z.to_nat (- e)) l.
Proof.
  intros He. unfold JSArray.slice0.
  destruct (Z.ltb_spec e 0); [| lia]. f_equal. lia.
Qed.

(** *** Lists *)

Lemma flat_map_if {X Y} (p : X -> bool) (f : X -> Y) l :
  flat_map (fun i => if p i then [f i] else []) l = map f (filter p l).
Proof.
  induction l as [| x l IH]; cbn; [reflexivity |].
  destruct (p x); cbn; now rewrite IH.
Qed.

Lemma Sorted_map {X Y} (R1 : X -> X -> Prop) (R2 : Y -> Y -> Prop) (f : X -> Y) l :
  (forall a b, R1 a b -> R2 (f a) (f b)) -> Sorted R1 l -> Sorted R2 (map f l).
Proof.
  intros Hf. induction 1 as [| x l Hl IH Hx]; cbn; constructor; [exact IH |].
  destruct Hx; cbn; constructor. now apply Hf.
Qed.

Lemma Forall_firstn {X} (P : X -> Prop) k l : Forall P l -> Forall P (firstn k l).
Proof.
  intros H. revert k.
  induction H as [| x l Hx Hl IH]; intros [| k]; cbn; constructor; auto.
Qed.

Lemma Forall_filter {X} (P : X -> Prop) p l : Forall P l -> Forall P (filter p l).
Proof.
  intros H. apply Forall_forall. intros x Hx. apply filter_In in Hx as [Hx _].
  rewrite Forall_forall in H. now apply H.
Qed.

Lemma firstn_In {X} (x : X) k l : In x (firstn k l) -> In x l.
Proof.
  revert k. induction l as [| y l IH]; intros [| k]; cbn; try tauto.
  intros [-> | H]; [now left | right; eauto].
Qed.

Lemma filter_all {X} (p : X -> bool) l :
  Forall (fun x => p x = true) l -> filter p l = l.
Proof.
  induction 1 as [| x l Hx Hl IH]; cbn; [reflexivity |]. now rewrite Hx, IH.
Qed.

(* ================================================================= *)
(** ** The strike ladder *)

Lemma strike_interval_cases spot :
  (spot < 50 /\ strike_interval spot = 2.5) \/
  (50 <= spot < 200 /\ strike_interval spot = 5) \/
  (200 <= spot < 500 /\ strike_interval spot = 10) \/
  (500 <= spot /\ strike_interval spot = 25).
Proof.
  unfold strike_interval.
  destruct (Rltb_spec spot 50); [left; split; [lra | reflexivity] |].
  destruct (Rltb_spec spot 100); [right; left; split; [lra | reflexivity] |].
  destruct (Rltb_spec spot 200); [right; left; split; [lra | reflexivity] |].
  destruct (Rltb_spec spot 500); [right; right; left; split; [lra | reflexivity] |].
  right; right; right; split; [lra | reflexivity].
Qed.

Lemma strike_interval_pos spot : 0 < strike_interval spot.
Proof.
  destruct (strike_interval_cases spot) as [[_ ->] | [[_ ->] | [[_ ->] | [_ ->]]]]; lra.
Qed.

(** The spot price lies within half an interval of the base strike. *)
Lemma base_index_bounds spot :
  (IZR (base_index spot) - 1 / 2) * strike_interval spot <= spot
  < (IZR (base_index spot) + 1 / 2) * strike_interval spot.
Proof.
  pose proof (strike_interval_pos spot) as Hiv.
  unfold base_index.
  pose proof (Zfloor_bound (spot / strike_interval spot + 1 / 2)) as [Hlo Hhi].
  assert (E : spot = spot / strike_interval spot * strike_interval spot)
    by (field; lra).
  set (iv := strike_interval spot) in *. set (q := spot / iv) in *.
  set (k := IZR (Zfloor (q + 1 / 2))) in *.
  rewrite E. split.
  - apply Rmult_le_compat_r; lra.
  - apply Rmult_lt_compat_r; lra.
Qed.

Lemma base_index_nonneg spot : 0 < spot -> (0 <= base_index spot)%Z.
Proof.
  intros H. apply Zfloor_lub.
  pose proof (strike_interval_pos spot).
  assert (0 < spot / strike_interval spot) by (apply Rdiv_lt_0_compat; lra).
  lra.
Qed.

(** The positivity test keeps a run of successive indices. *)
Lemma filter_above_successive c l :
  Sorted successive l -> Sorted successive (filter (fun i => (c <? i)%Z) l).
Proof.
  induction 1 as [| x l Hl IH Hx]; cbn; [constructor |].
  destruct (Z.ltb_spec c x) as [Hc | Hc]; [| exact IH].
  constructor; [exact IH |].
  destruct Hx as [| y l Hy]; cbn; [constructor |].
  unfold successive in Hy.
  destruct (Z.ltb_spec c y); [constructor; exact Hy | lia].
Qed.

Lemma kept_indices_successive k : Sorted successive (kept_indices k).
Proof.
  unfold kept_indices.
  rewrite (filter_ext _ (fun i => (- k <? i)%Z)).
  - apply filter_above_successive. unfold loop_indices. repeat constructor.
  - intros i. destruct (Z.ltb_spec 0 (k + i)), (Z.ltb_spec (- k) i); lia || reflexivity.
Qed.

Lemma kept_indices_In k i :
  In i loop_indices -> (0 < k + i)%Z -> In i (kept_indices k).
Proof. intros Hi Hk. apply filter_In. split; [exact Hi | now apply Z.ltb_lt]. Qed.

Lemma kept_indices_incl k (l : list Z) :
  incl l loop_indices -> Forall (fun i => (0 < k + i)%Z) l -> incl l (kept_indices k).
Proof.
  intros Hl Hk i Hi. rewrite Forall_forall in Hk.
  apply kept_indices_In; [apply Hl | apply Hk]; exact Hi.
Qed.

Ltac nodup_Z := repeat (constructor; [cbn; intuition lia |]); constructor.
Ltac incl_loop := intros ? ?; cbn in *; intuition.

Lemma kept_indices_length k :
  (0 <= k)%Z ->
  (6 <= List.length (kept_indices k))%nat /\
  ((1 <= k)%Z -> (7 <= List.length (kept_indices k))%nat) /\
  ((2 <= k)%Z -> (8 <= List.length (kept_indices k))%nat).
Proof.
  intros Hk. repeat split.
  - apply (NoDup_incl_length (l := [1; 2; 3; 4; 5; 6]%Z)); [nodup_Z |].
    apply kept_indices_incl; [incl_loop | repeat constructor; lia].
  - intros H1.
    apply (NoDup_incl_length (l := [0; 1; 2; 3; 4; 5; 6]%Z)); [nodup_Z |].
    apply kept_indices_incl; [incl_loop | repeat constructor; lia].
  - intros H2.
    apply (NoDup_incl_length (l := [-1; 0; 1; 2; 3; 4; 5; 6]%Z)); [nodup_Z |].
    apply kept_indices_incl; [incl_loop | repeat constructor; lia].
Qed.

(** The ladder in closed form: the multiples [(k + i) * interval] with
    [k + i] positive, in loop order; the final [sort] changes nothing. *)
Lemma generateStrikes_closed spot :
  generateStrikes spot =
  map (fun i => IZR (base_index spot + i) * strike_interval spot)
      (kept_indices (base_index spot)).
Proof.
  unfold generateStrikes, Rround. fold (base_index spot).
  set (iv := strike_interval spot). set (k := base_index spot).
  pose proof (strike_interval_pos spot) as Hiv. fold iv in Hiv.
  rewrite (flat_map_if (fun i => Rltb 0 (IZR k * iv + IZR i * iv))
                       (fun i => IZR k * iv + IZR i * iv)).
  rewrite (filter_ext _ (fun i => (0 <? k + i)%Z)).
  2:{ intros i. rewrite <- Rmult_plus_distr_r, <- plus_IZR.
      destruct (Z.ltb_spec 0 (k + i)) as [H | H].
      - apply Rltb_true. apply Rmult_lt_0_compat; [apply IZR_lt; lia | lra].
      - apply Rltb_false. apply IZR_le in H.
        replace 0 with (0 * iv) by ring. apply Rmult_le_compat_r; lra. }
  fold (kept_indices k).
  rewrite (map_ext _ (fun i => IZR (k + i) * iv))
    by (intros i; rewrite plus_IZR; ring).
  apply sort_sorted_id.
  apply Sorted_map with (R1 := successive); [| apply kept_indices_successive].
  intros a b ->. unfold keeps. cbn.
  apply Rltb_false. rewrite Z.add_assoc, !plus_IZR. nra.
Qed.

Section LadderFacts.

Variable spot : R.
Hypothesis spot_pos : 0 < spot.

Lemma ladder_positive : Forall (fun s => 0 < s) (generateStrikes spot).
Proof.
  rewrite generateStrikes_closed. pose proof (strike_interval_pos spot).
  apply Forall_map, Forall_forall. intros i Hi.
  apply filter_In in Hi as [_ Hi]. apply Z.ltb_lt in Hi.
  apply Rmult_lt_0_compat; [apply IZR_lt; lia | lra].
Qed.

Lemma ladder_spacing :
  Sorted (fun a b => b - a = strike_interval spot) (generateStrikes spot).
Proof.
  rewrite generateStrikes_closed.
  apply Sorted_map with (R1 := successive); [| apply kept_indices_successive].
  intros a b ->. rewrite Z.add_assoc, !plus_IZR. ring.
Qed.

Lemma ladder_ascending : StronglySorted Rlt (generateStrikes spot).
Proof.
  rewrite generateStrikes_closed. pose proof (strike_interval_pos spot).
  apply Sorted_StronglySorted; [intros a b c; apply Rlt_trans |].
  apply Sorted_map with (R1 := successive); [| apply kept_indices_successive].
  intros a b ->. rewrite Z.add_assoc, !plus_IZR. nra.
Qed.

Lemma ladder_length :
  (6 <= List.length (generateStrikes spot) <= 13)%nat /\
  ((1 <= base_index spot)%Z -> (7 <= List.length (generateStrikes spot))%nat) /\
  ((2 <= base_index spot)%Z -> (8 <= List.length (generateStrikes spot))%nat).
Proof.
  rewrite generateStrikes_closed, length_map.
  pose proof (kept_indices_length _ (base_index_nonneg _ spot_pos)) as [H6 [H7 H8]].
  repeat split; try assumption.
  unfold kept_indices. etransitivity; [apply filter_length_le | cbn; lia].
Qed.

Lemma ladder_rung i :
  In i loop_indices -> (0 < base_index spot + i)%Z ->
  In (IZR (base_index spot + i) * strike_interval spot) (generateStrikes spot).
Proof.
  intros Hi Hk. rewrite generateStrikes_closed.
  apply (in_map (fun i => IZR (base_index spot + i) * strike_interval spot)).
  now apply kept_indices_In.
Qed.

(** A ladder shorter than eight rungs belongs to a spot price below 3.75. *)
Lemma short_ladder_band :
  (base_index spot <= 1)%Z ->
  strike_interval spot = 2.5 /\ spot < (IZR (base_index spot) + 1 / 2) * 2.5.
Proof.
  intros Hk. pose proof (base_index_bounds spot) as [_ Hhi].
  assert (Hk' : IZR (base_index spot) <= 1) by (apply IZR_le in Hk; exact Hk).
  destruct (strike_interval_cases spot) as [[H E] | [[H E] | [[H E] | [H E]]]];
    rewrite E in Hhi; [split; [exact E | lra] | nra | nra | nra].
Qed.

End LadderFacts.

(** Two ladders: a full one, and the shortest there is. *)
Example ladder_at_100 :
  generateStrikes 100 = [70; 75; 80; 85; 90; 95; 100; 105; 110; 115; 120; 125; 130].
Proof.
  rewrite generateStrikes_closed.
  assert (Ei : strike_interval 100 = 5).
  { unfold strike_interval.
    rewrite (Rltb_false 100 50), (Rltb_false 100 100), (Rltb_true 100 200) by lra.
    reflexivity. }
  assert (Ek : base_index 100 = 20%Z).
  { unfold base_index. rewrite Ei. apply Zfloor_eq. simpl. lra. }
  rewrite Ei, Ek. vm_compute kept_indices. cbn [map].
  repeat (apply f_equal2; [simpl; lra |]). reflexivity.
Qed.

Example ladder_at_1 : generateStrikes 1 = [2.5; 5; 7.5; 10; 12.5; 15].
Proof.
  rewrite generateStrikes_closed.
  assert (Ei : strike_interval 1 = 2.5).
  { unfold strike_interval. rewrite (Rltb_true 1 50) by lra. reflexivity. }
  assert (Ek : base_index 1 = 0%Z).
  { unfold base_index. rewrite Ei. apply Zfloor_eq. simpl. lra. }
  rewrite Ei, Ek. vm_compute kept_indices. cbn [map].
  repeat (apply f_equal2; [simpl; lra |]). reflexivity.
Qed.

(* ================================================================= *)
(** ** The expiration calendar *)

Section CalendarFacts.

Local Open Scope Z_scope.

Lemma era_bounds doe :
  0 <= doe < 146097 ->
  let yoe := (doe - doe / 1460 + doe / 36524 - doe / 146096) / 365 in
  let doy := doe - (365 * yoe + yoe / 4 - yoe / 100) in
  0 <= yoe < 400 /\ 0 <= doy < 366.
Proof. intros H yoe doy. subst yoe doy. Z.div_mod_to_equations. lia. Qed.

(** [civil_from_days] yields a month in 1..12 and is undone by
    [days_from_civil]. *)
Lemma civil_roundtrip z :
  let '(y, m, d) := civil_from_days z in
  1 <= m <= 12 /\ days_from_civil y m d = z.
Proof.
  unfold civil_from_days, days_from_civil.
  set (z' := z + 719468). set (era := z' / 146097).
  set (doe := z' - era * 146097).
  assert (Hdoe : 0 <= doe < 146097) by (subst doe era; Z.div_mod_to_equations; lia).
  pose proof (era_bounds doe Hdoe) as [Hyoe Hdoy]. cbv zeta in Hyoe, Hdoy.
  set (yoe := (doe - doe / 1460 + doe / 36524 - doe / 146096) / 365) in *.
  set (doy := doe - (365 * yoe + yoe / 4 - yoe / 100)) in *.
  set (mp := (5 * doy + 2) / 153).
  assert (Hmp : 0 <= mp <= 11) by (subst mp; Z.div_mod_to_equations; lia).
  destruct (Z.ltb_spec mp 10) as [H10 | H10].
  - destruct (Z.leb_spec (mp + 3) 2); [lia |].
    destruct (Z.ltb_spec 2 (mp + 3)); [| lia].
    cbv beta iota. split; [lia |].
    replace (mp + 3 - 3) with mp by lia.
    replace ((yoe + era * 400) / 400) with era by (Z.div_mod_to_equations; lia).
    subst doy doe z'. Z.div_mod_to_equations. lia.
  - destruct (Z.leb_spec (mp - 9) 2); [| lia].
    destruct (Z.ltb_spec 2 (mp - 9)); [lia |].
    cbv beta iota. split; [lia |].
    replace (mp - 9 + 9) with mp by lia.
    replace (yoe + era * 400 + 1 - 1) with (yoe + era * 400) by lia.
    replace ((yoe + era * 400) / 400) with era by (Z.div_mod_to_equations; lia).
    subst doy doe z'. Z.div_mod_to_equations. lia.
Qed.

Lemma days_from_civil_shift y m d d' :
  days_from_civil y m d' = days_from_civil y m d + (d' - d).
Proof. unfold days_from_civil. lia. Qed.

Variable tz : Z.

(** [d.setDate(d.getDate() + n)] moves [d] by [n] days. *)
Lemma setDate_getDate d n : setDate tz d (getDate tz d + n) = d + n * msPerDay.
Proof.
  unfold setDate, getDate, getFullYear, getMonth, MakeDay, MakeDate, UTC.
  set (t := LocalTime tz d).
  pose proof (civil_roundtrip (Day t)) as H.
  destruct (civil_from_days (Day t)) as [[y m] dd]. destruct H as [Hm H].
  cbn [fst snd].
  replace ((m - 1) / 12) with 0 by (Z.div_mod_to_equations; lia).
  replace ((m - 1) mod 12 + 1) with m by (Z.div_mod_to_equations; lia).
  rewrite Z.add_0_r, (days_from_civil_shift y m dd 1), H.
  unfold TimeWithinDay, Day, msPerDay, t, LocalTime in *.
  Z.div_mod_to_equations. lia.
Qed.

Lemma getDay_range d : 0 <= getDay tz d < 7.
Proof. unfold getDay, WeekDay. apply Z.mod_pos_bound. lia. Qed.

Lemma getDay_next d : getDay tz (d + 1 * msPerDay) = (getDay tz d + 1) mod 7.
Proof.
  unfold getDay, WeekDay, Day, LocalTime, msPerDay.
  Z.div_mod_to_equations. lia.
Qed.

(** Whatever the loop returns is a local Friday, not before its start. *)
Lemma findNextFriday_sound fuel d d' :
  findNextFriday tz fuel d = Some d' -> getDay tz d' = 5 /\ d <= d'.
Proof.
  revert d. induction fuel as [| fuel IH]; intros d; cbn; [discriminate |].
  destruct (Z.eqb_spec (getDay tz d) 5) as [E | E].
  - intros [= <-]. split; [exact E | lia].
  - rewrite setDate_getDate. intros H. apply IH in H as [H1 H2].
    split; [exact H1 | unfold msPerDay in H2; lia].
Qed.

(** The loop ends within as many rounds as Friday is days away. *)
Lemma findNextFriday_total fuel d :
  (5 - getDay tz d) mod 7 < Z.of_nat fuel ->
  exists d', findNextFriday tz fuel d = Some d'.
Proof.
  revert d. induction fuel as [| fuel IH]; intros d Hf; cbn.
  - pose proof (Z.mod_pos_bound (5 - getDay tz d) 7). lia.
  - destruct (Z.eqb_spec (getDay tz d) 5) as [E | E]; [eauto |].
    rewrite setDate_getDate. apply IH. rewrite getDay_next.
    pose proof (getDay_range d) as Hr. revert Hf E Hr.
    generalize (getDay tz d). intros g Hf E Hr.
    rewrite Nat2Z.inj_succ in Hf. Z.div_mod_to_equations. lia.
Qed.

(** Seven rounds are enough. *)
Lemma findNextFriday_7 d : exists d', findNextFriday tz 7 d = Some d'.
Proof.
  apply findNextFriday_total.
  pose proof (Z.mod_pos_bound (5 - getDay tz d) 7). lia.
Qed.

Lemma pushIfInWindow_qualifies today minDte maxDte expDate :
  getDay tz expDate = 5 ->
  Forall (qualifies tz today minDte maxDte)
         (pushIfInWindow today minDte maxDte expDate).
Proof.
  intros HF. unfold pushIfInWindow.
  destruct (Z.leb_spec minDte ((expDate - today) / msPerDay));
    destruct (Z.leb_spec ((expDate - today) / msPerDay) maxDte);
    cbn; constructor; [| constructor].
  exists expDate. repeat split; assumption.
Qed.

Lemma weeklyExpiration_ok today minDte maxDte weeks :
  exists l, weeklyExpiration tz today minDte maxDte weeks = Some l /\
            Forall (qualifies tz today minDte maxDte) l.
Proof.
  unfold weeklyExpiration.
  destruct (findNextFriday_7 (setDate tz today (getDate tz today + weeks * 7)))
    as [d' Hd'].
  rewrite Hd'. cbn. eexists; split; [reflexivity |].
  apply pushIfInWindow_qualifies. now apply findNextFriday_sound in Hd'.
Qed.

Lemma monthlyExpiration_ok today minDte maxDte months :
  exists l, monthlyExpiration tz today minDte maxDte months = Some l /\
            Forall (qualifies tz today minDte maxDte) l.
Proof.
  unfold monthlyExpiration.
  match goal with |- context [findNextFriday tz 7 ?d] =>
    destruct (findNextFriday_7 d) as [d' Hd'] end.
  rewrite Hd'. cbn. eexists; split; [reflexivity |].
  apply pushIfInWindow_qualifies. now apply findNextFriday_sound in Hd'.
Qed.

Lemma forEach_ok (P : Z -> Prop) body range :
  (forall i, exists l, body i = Some l /\ Forall P l) ->
  exists l, forEach body range = Some l /\ Forall P l.
Proof.
  intros Hb. induction range as [| i range [l [E Hl]]]; cbn.
  - eexists; split; [reflexivity | constructor].
  - destruct (Hb i) as [a [Ea Ha]]. rewrite Ea, E.
    eexists; split; [reflexivity |]. apply Forall_app; split; assumption.
Qed.

(** In every time zone the calendar finishes, with at most three dates,
    each the ISO day of a local Friday whose DTE is in the window. *)
Lemma getExpirationDates_ok today minDte maxDte :
  exists l, getExpirationDates tz today minDte maxDte = Some l /\
            (List.length l <= 3)%nat /\
            Forall (qualifies tz today minDte maxDte) l.
Proof.
  unfold getExpirationDates.
  destruct (forEach_ok (qualifies tz today minDte maxDte)
              (weeklyExpiration tz today minDte maxDte) [1;2;3;4;5;6;7;8;9;10;11;12]
              (weeklyExpiration_ok today minDte maxDte)) as [w [Ew Hw]].
  destruct (forEach_ok (qualifies tz today minDte maxDte)
              (monthlyExpiration tz today minDte maxDte) [1;2;3]
              (monthlyExpiration_ok today minDte maxDte)) as [m [Em Hm]].
  rewrite Ew, Em. eexists; split; [reflexivity |]. split.
  - apply firstn_le_length.
  - apply Forall_firstn, Forall_app; split; assumption.
Qed.

End CalendarFacts.

(** On a host that runs in UTC every returned string names a Friday. *)
Lemma getExpirationDates_utc today minDte maxDte :
  exists l, getExpirationDates 0 today minDte maxDte = Some l /\
            (List.length l <= 3)%nat /\
            Forall (fun s => isoWeekDay s = 5%Z /\ qualifies 0 today minDte maxDte s) l.
Proof.
  destruct (getExpirationDates_ok 0 today minDte maxDte) as [l [E [Hlen Hq]]].
  exists l. repeat split; try assumption.
  eapply Forall_impl; [| exact Hq].
  intros s Hs. split; [| exact Hs].
  destruct Hs as [e [-> [HF _]]].
  unfold getDay, WeekDay, LocalTime in HF. rewrite Z.add_0_r in HF. exact HF.
Qed.

(** *** The calendar at work *)

Example civil_epoch : civil_from_days 0 = (1970, 1, 1)%Z.
Proof. reflexivity. Qed.

Example civil_leap_day : civil_from_days 11016 = (2000, 2, 29)%Z.
Proof. reflexivity. Qed.

Example monday_morning_date :
  civil_from_days (Day monday_morning) = (2026, 11, 2)%Z /\ WeekDay monday_morning = 1%Z.
Proof. split; reflexivity. Qed.

(** On a UTC host the default window yields three Fridays in December. *)
Example expirations_utc_default :
  getExpirationDates 0 monday_morning 30 45 = Some [20791; 20798; 20805]%Z /\
  map civil_from_days [20791; 20798; 20805]%Z
    = [(2026, 12, 4); (2026, 12, 11); (2026, 12, 18)]%Z /\
  map isoWeekDay [20791; 20798; 20805]%Z = [5; 5; 5]%Z.
Proof. vm_compute. repeat split. Qed.

(** No candidate is less than a week away. *)
Lemma no_expiry_this_week : getExpirationDates 0 monday_morning 1 5 = Some [].
Proof. vm_compute. reflexivity. Qed.

(* ================================================================= *)
(** ** Strike selection: [strikes.find(...) || strikes[i]] *)

Section PickFacts.

Variable c : Setup.
Hypothesis positive : Forall (fun s => 0 < s) (strikes c).

Lemma orElse_positive s b : 0 < s -> JSArray.orElse (Some s) b = Some s.
Proof. intros H. unfold JSArray.orElse. rewrite Reqb_false by lra. reflexivity. Qed.

(** The fallback index is inside the ladder. *)
Lemma pick_in_range P i :
  (i < List.length (strikes c))%nat -> good_strike (pick c P i).
Proof.
  intros Hi. unfold pick. rewrite Forall_forall in positive.
  destruct (find _ (strikes c)) as [s |] eqn:E.
  - apply find_some in E as [Hs _]. exists s.
    split; [apply orElse_positive |]; apply positive, Hs.
  - cbn. destruct (nth_error (strikes c) i) as [s |] eqn:En.
    + exists s. split; [reflexivity |]. apply positive. eapply nth_error_In, En.
    + apply nth_error_None in En. lia.
Qed.

(** Some rung passes the test, so the fallback is not consulted. *)
Lemma pick_found P i w :
  In w (strikes c) -> P (Fin w) = true -> good_strike (pick c P i).
Proof.
  intros Hw HP. unfold pick. rewrite Forall_forall in positive.
  destruct (find _ (strikes c)) as [s |] eqn:E.
  - apply find_some in E as [Hs _]. exists s.
    split; [apply orElse_positive |]; apply positive, Hs.
  - eapply find_none in E; [| exact Hw]. cbn in E. congruence.
Qed.

Hypothesis ascending : StronglySorted Rlt (strikes c).

Lemma find_first P (l : list R) w x :
  StronglySorted Rlt l -> In w l -> P w = true -> find P l = Some x -> x <= w.
Proof.
  induction 1 as [| y l Hl IH Hy]; intros Hw HP; [contradiction |].
  cbn. destruct (P y) eqn:Ey.
  - intros [= <-]. destruct Hw as [-> | Hw]; [lra |].
    rewrite Forall_forall in Hy. left. apply Hy, Hw.
  - destruct Hw as [-> | Hw]; [congruence |]. now apply IH.
Qed.

(** The rung that is picked is no higher than any rung that passes. *)
Lemma pick_first P i w :
  In w (strikes c) -> P (Fin w) = true ->
  exists x, pick c P i = Some x /\ 0 < x <= w.
Proof.
  intros Hw HP. unfold pick. rewrite Forall_forall in positive.
  destruct (find _ (strikes c)) as [s |] eqn:E.
  - pose proof (find_first _ _ w s ascending Hw HP E) as Hle.
    apply find_some in E as [Hs _]. exists s. pose proof (positive _ Hs).
    split; [now apply orElse_positive | lra].
  - eapply find_none in E; [| exact Hw]. cbn in E. congruence.
Qed.

End PickFacts.

(** ** The thirteen strikes of the seven templates *)

Section StrikeFacts.

Variable c : Setup.
Hypothesis Hc : ladder_setup c.

Lemma setup_positive : Forall (fun s => 0 < s) (strikes c).
Proof. destruct Hc as [Hp ->]. now apply ladder_positive. Qed.

Lemma setup_ascending : StronglySorted Rlt (strikes c).
Proof. destruct Hc as [Hp ->]. now apply ladder_ascending. Qed.

Lemma setup_length :
  (6 <= List.length (strikes c))%nat /\
  ((2 <= base_index (currentPrice c))%Z -> (8 <= List.length (strikes c))%nat).
Proof.
  destruct Hc as [Hp ->].
  pose proof (ladder_length _ Hp) as [[H6 _] [_ H8]]. now split.
Qed.

(** Indices 0 to 5 are in every ladder. *)
Lemma pick_low P i : (i <= 5)%nat -> good_strike (pick c P i).
Proof.
  intros Hi. apply pick_in_range; [apply setup_positive |].
  pose proof setup_length as [H _]. lia.
Qed.

(** In a short ladder: the rung just above the base strike, and the top
    rung, 12.5 higher. *)
Lemma setup_rungs :
  (base_index (currentPrice c) <= 1)%Z ->
  In (IZR (base_index (currentPrice c) + 1) * 2.5) (strikes c) /\
  In (IZR (base_index (currentPrice c) + 6) * 2.5) (strikes c) /\
  IZR (base_index (currentPrice c) + 6) * 2.5
    = IZR (base_index (currentPrice c) + 1) * 2.5 + 12.5 /\
  currentPrice c * 1.07 < IZR (base_index (currentPrice c) + 1) * 2.5.
Proof.
  intros Hk. destruct Hc as [Hp E].
  pose proof (base_index_nonneg _ Hp) as Hk0.
  pose proof (short_ladder_band _ Hk) as [Eiv Hlt].
  rewrite E, <- Eiv. repeat split.
  - apply ladder_rung; [cbn; intuition | lia].
  - apply ladder_rung; [cbn; intuition | lia].
  - rewrite Eiv, !plus_IZR. lra.
  - rewrite Eiv, plus_IZR.
    assert (0 <= IZR (base_index (currentPrice c)) <= 1)
      by (split; [apply (IZR_le 0) | apply (IZR_le _ 1)]; assumption).
    nra.
Qed.

(** A call strike looked up above [spot * factor], [factor <= 1.07]. *)
Lemma pick_above_spot factor i :
  0 < factor <= 1.07 -> (i <= 6)%nat ->
  good_strike (pick c (fun s => ngt s (nmul (spot c) (Fin factor))) i) /\
  ((base_index (currentPrice c) <= 1)%Z ->
   exists x, pick c (fun s => ngt s (nmul (spot c) (Fin factor))) i = Some x /\
             0 < x <= IZR (base_index (currentPrice c) + 1) * 2.5).
Proof.
  intros Hf Hi.
  assert (Hw : (base_index (currentPrice c) <= 1)%Z ->
               exists x, pick c (fun s => ngt s (nmul (spot c) (Fin factor))) i = Some x /\
                         0 < x <= IZR (base_index (currentPrice c) + 1) * 2.5).
  { intros Hk. destruct (setup_rungs Hk) as [Hw [_ [_ Hlt]]].
    apply pick_first; [apply setup_positive | apply setup_ascending | exact Hw |].
    unfold spot. cbn. apply Rltb_true. destruct Hc as [Hp _]. nra. }
  split; [| exact Hw].
  destruct (Z_le_gt_dec (base_index (currentPrice c)) 1) as [Hk | Hk].
  - destruct (Hw Hk) as [x [E Hx]]. exists x. split; [exact E | lra].
  - apply pick_in_range; [apply setup_positive |].
    pose proof setup_length as [_ H8]. specialize (H8 ltac:(lia)). lia.
Qed.

(** The long call of a spread, looked up more than 10 above the short. *)
Lemma pick_above_short short i :
  (i <= 7)%nat ->
  ((base_index (currentPrice c) <= 1)%Z ->
   exists x, short = Some x /\ 0 < x <= IZR (base_index (currentPrice c) + 1) * 2.5) ->
  good_strike (pick c (fun s => ngt s (nadd (toNumber short) (Fin 10))) i).
Proof.
  intros Hi Hshort.
  destruct (Z_le_gt_dec (base_index (currentPrice c)) 1) as [Hk | Hk].
  - destruct (Hshort Hk) as [x [-> Hx]].
    destruct (setup_rungs Hk) as [_ [Htop [Etop _]]].
    eapply pick_found; [apply setup_positive | exact Htop |].
    cbn. apply Rltb_true. lra.
  - apply pick_in_range; [apply setup_positive |].
    pose proof setup_length as [_ H8]. specialize (H8 ltac:(lia)). lia.
Qed.

Lemma bullPutShortStrike_good : good_strike (bullPutShortStrike c).
Proof. apply pick_low. lia. Qed.

Lemma bullPutLongStrike_good : good_strike (bullPutLongStrike c).
Proof. apply pick_low. lia. Qed.

Lemma icPutShortStrike_good : good_strike (icPutShortStrike c).
Proof. apply pick_low. lia. Qed.

Lemma icPutLongStrike_good : good_strike (icPutLongStrike c).
Proof. apply pick_low. lia. Qed.

Lemma cspStrike_good : good_strike (cspStrike c).
Proof. apply pick_low. lia. Qed.

Lemma straddleStrike_good : good_strike (straddleStrike c).
Proof. apply pick_low. lia. Qed.

Lemma bearCallShortStrike_good : good_strike (bearCallShortStrike c).
Proof. apply pick_low. lia. Qed.

Lemma bullCallLongStrike_good : good_strike (bullCallLongStrike c).
Proof. apply pick_low. lia. Qed.

Lemma icCallShortStrike_good : good_strike (icCallShortStrike c).
Proof. apply (pick_above_spot 1.07 6); [lra | lia]. Qed.

Lemma ccStrike_good : good_strike (ccStrike c).
Proof. apply (pick_above_spot 1.05 6); [lra | lia]. Qed.

Lemma icCallLongStrike_good : good_strike (icCallLongStrike c).
Proof.
  apply pick_above_short; [lia |]. apply (pick_above_spot 1.07 6); [lra | lia].
Qed.

Lemma bearCallLongStrike_good : good_strike (bearCallLongStrike c).
Proof.
  apply pick_above_short; [lia |]. apply (pick_above_spot 1.02 5); [lra | lia].
Qed.

Lemma bullCallShortStrike_good : good_strike (bullCallShortStrike c).
Proof.
  apply pick_above_short; [lia |]. apply (pick_above_spot 1.02 5); [lra | lia].
Qed.

End StrikeFacts.

(* ================================================================= *)
(** ** The seven blocks of the synthesizer *)

(** Name the quotes of a block and its position in the stream. *)
Ltac run_block :=
  unfold bind, ret, Math_random; cbv beta;
  repeat (match goal with
          | |- context [quote ?U ?c ?k ?σ ?b ?n] =>
              destruct (quote U c k σ b n) as [? ?]
          end; cbv beta).

(** *** Which draws the confidences use *)

Section DrawFacts.

Variable U : nat -> R.
Variable c : Setup.

Lemma calculateOptionPrice_forward S K t σ r isCall i :
  (i <= snd (calculateOptionPrice U S K t σ r isCall i))%nat.
Proof.
  unfold calculateOptionPrice. destruct (nle _ _); cbn; lia.
Qed.

Lemma quote_forward k σ isCall i : (i <= snd (quote U c k σ isCall i))%nat.
Proof. apply calculateOptionPrice_forward. Qed.

Ltac forward_quotes :=
  repeat match goal with
         | |- context [quote U c ?k ?σ ?b ?i] =>
             let H := fresh "Hq" in
             pose proof (quote_forward k σ b i) as H;
             destruct (quote U c k σ b i) as [? ?]; cbn [snd] in H
         end.

Ltac no_draw := cbn [fst snd]; split; [lia | exists []; repeat constructor].

Ltac one_draw b k :=
  cbn [fst snd]; split; [lia |];
  exists [k]; split; [| split];
  [ repeat constructor; exists b; split; [reflexivity | cbn; reflexivity]
  | repeat constructor; lia
  | repeat constructor; cbn; tauto ].

Lemma bullPutSpread_draws : own_draws U (bullPutSpread U c).
Proof.
  intros i. unfold bullPutSpread, bind, ret, Math_random. forward_quotes.
  destruct (nle _ _); [no_draw |].
  match goal with |- context [(_, S (S ?k))] => one_draw 72.5 k end.
Qed.

Lemma ironCondor_draws : own_draws U (ironCondor U c).
Proof.
  intros i. unfold ironCondor, bind, ret, Math_random. forward_quotes.
  destruct (ngt _ _); [| no_draw].
  match goal with |- context [(_, S (S ?k))] => one_draw 65.2 k end.
Qed.

Lemma cashSecuredPut_draws : own_draws U (cashSecuredPut U c).
Proof.
  intros i. unfold cashSecuredPut, bind, ret, Math_random. forward_quotes.
  match goal with |- context [(_, S (S ?k))] => one_draw 69.8 k end.
Qed.

Lemma longStraddle_draws : own_draws U (longStraddle U c).
Proof.
  intros i. unfold longStraddle, bind, ret, Math_random. forward_quotes.
  match goal with |- context [(_, S (S ?k))] => one_draw 58.5 k end.
Qed.

Lemma coveredCall_draws : own_draws U (coveredCall U c).
Proof.
  intros i. unfold coveredCall, bind, ret, Math_random. forward_quotes.
  match goal with |- context [(_, S (S ?k))] => one_draw 66.7 k end.
Qed.

Lemma bearCallSpread_draws : own_draws U (bearCallSpread U c).
Proof.
  intros i. unfold bearCallSpread, bind, ret, Math_random. forward_quotes.
  destruct (ngt _ _); [| no_draw].
  match goal with |- context [(_, S (S ?k))] => one_draw 63.5 k end.
Qed.

Lemma bullCallSpread_draws : own_draws U (bullCallSpread U c).
Proof.
  intros i. unfold bullCallSpread, bind, ret, Math_random. forward_quotes.
  destruct (_ && _); [| no_draw].
  match goal with |- context [(_, S (S ?k))] => one_draw 68.2 k end.
Qed.

(** Running one computation after another keeps the draws apart. *)
Lemma own_draws_then m1 m2 :
  own_draws U m1 -> own_draws U m2 ->
  own_draws U (s1 <- m1 ;; s2 <- m2 ;; ret (s1 ++ s2)).
Proof.
  intros H1 H2 i. unfold bind, ret.
  destruct (H1 i) as [Hle1 [ks1 [Hj1 [Hr1 Hn1]]]].
  destruct (m1 i) as [s1 i1]. cbn [fst snd] in *.
  destruct (H2 i1) as [Hle2 [ks2 [Hj2 [Hr2 Hn2]]]].
  destruct (m2 i1) as [s2 i2]. cbn [fst snd] in *.
  split; [lia |]. exists (ks1 ++ ks2). split; [| split].
  - now apply Forall2_app.
  - apply Forall_app. split.
    + eapply Forall_impl; [| exact Hr1]. cbv beta. lia.
    + eapply Forall_impl; [| exact Hr2]. cbv beta. lia.
  - apply NoDup_app; try assumption.
    intros k Hk1 Hk2. rewrite Forall_forall in Hr1, Hr2.
    specialize (Hr1 k Hk1). specialize (Hr2 k Hk2). lia.
Qed.

Lemma own_draws_ext m m' :
  (forall i, m i = m' i) -> own_draws U m -> own_draws U m'.
Proof. intros E H i. rewrite <- E. apply H. Qed.

Lemma blocks_draws : own_draws U (blocks U c).
Proof.
  eapply own_draws_ext;
    [| apply (own_draws_then _ _ bullPutSpread_draws
         (own_draws_then _ _ ironCondor_draws
           (own_draws_then _ _ cashSecuredPut_draws
             (own_draws_then _ _ longStraddle_draws
               (own_draws_then _ _ coveredCall_draws
                 (own_draws_then _ _ bearCallSpread_draws bullCallSpread_draws))))))].
  intros i. unfold blocks, bind, ret.
  destruct (bullPutSpread U c i) as [s1 i1].
  destruct (ironCondor U c i1) as [s2 i2].
  destruct (cashSecuredPut U c i2) as [s3 i3].
  destruct (longStraddle U c i3) as [s4 i4].
  destruct (coveredCall U c i4) as [s5 i5].
  destruct (bearCallSpread U c i5) as [s6 i6].
  destruct (bullCallSpread U c i6) as [s7 i7].
  reflexivity.
Qed.

(** Every confidence in the catalog is a base plus five times a draw. *)
Lemma blocks_confidence i : Forall (jittered_confidence U) (fst (blocks U c i)).
Proof.
  destruct (blocks_draws i) as [_ [ks [H _]]].
  induction H as [| s k l ks Hs Hl IH]; constructor; [now exists k | exact IH].
Qed.

End DrawFacts.

(** *** The catalog, block by block *)

Section BlockFacts.

Variable U : nat -> R.
Variable c : Setup.

Local Open Scope string_scope.

(** What holds of the output of each block holds of the catalog. *)
Lemma blocks_Forall (P : Strategy -> Prop) :
  (forall i, Forall P (fst (bullPutSpread U c i))) ->
  (forall i, Forall P (fst (ironCondor U c i))) ->
  (forall i, Forall P (fst (cashSecuredPut U c i))) ->
  (forall i, Forall P (fst (longStraddle U c i))) ->
  (forall i, Forall P (fst (coveredCall U c i))) ->
  (forall i, Forall P (fst (bearCallSpread U c i))) ->
  (forall i, Forall P (fst (bullCallSpread U c i))) ->
  forall i, Forall P (fst (blocks U c i)).
Proof.
  intros H1 H2 H3 H4 H5 H6 H7 i. unfold blocks, bind, ret.
  specialize (H1 i). destruct (bullPutSpread U c i) as [s1 i1].
  specialize (H2 i1). destruct (ironCondor U c i1) as [s2 i2].
  specialize (H3 i2). destruct (cashSecuredPut U c i2) as [s3 i3].
  specialize (H4 i3). destruct (longStraddle U c i3) as [s4 i4].
  specialize (H5 i4). destruct (coveredCall U c i4) as [s5 i5].
  specialize (H6 i5). destruct (bearCallSpread U c i5) as [s6 i6].
  specialize (H7 i6). destruct (bullCallSpread U c i6) as [s7 i7].
  cbn [fst] in *. repeat (apply Forall_app; split); assumption.
Qed.

(** The catalog starts with the output of the first block. *)
Lemma blocks_bullPut i s :
  In s (fst (bullPutSpread U c i)) -> In s (fst (blocks U c i)).
Proof.
  unfold blocks, bind, ret. destruct (bullPutSpread U c i) as [s1 i1].
  destruct (ironCondor U c i1) as [s2 i2].
  destruct (cashSecuredPut U c i2) as [s3 i3].
  destruct (longStraddle U c i3) as [s4 i4].
  destruct (coveredCall U c i4) as [s5 i5].
  destruct (bearCallSpread U c i5) as [s6 i6].
  destruct (bullCallSpread U c i6) as [s7 i7].
  cbn [fst]. intros H. apply in_or_app. now left.
Qed.

(** The Cash Secured Put is always in the catalog. *)
Lemma blocks_cashSecuredPut i :
  exists s l, In s (fst (blocks U c i)) /\ name s = "Cash Secured Put" /\
              legs s = [l] /\ expiry l = primaryExpiry c.
Proof.
  unfold blocks, bind, ret. destruct (bullPutSpread U c i) as [s1 i1].
  destruct (ironCondor U c i1) as [s2 i2].
  unfold cashSecuredPut. run_block.
  destruct (longStraddle U c _) as [s4 i4].
  destruct (coveredCall U c i4) as [s5 i5].
  destruct (bearCallSpread U c i5) as [s6 i6].
  destruct (bullCallSpread U c i6) as [s7 i7].
  cbn [fst]. eexists _, _. split.
  { apply in_or_app. right. apply in_or_app. right. left. reflexivity. }
  repeat split.
Qed.

(** *** Inclusion tests of the two credit spreads *)

(** With a DTE that is [NaN] the Bull Put Spread is pushed, on a credit
    that is [NaN]. *)
Lemma bullPutSpread_NaN_dte i :
  dte c = NaN ->
  exists s, fst (bullPutSpread U c i) = [s] /\ name s = "Bull Put Spread" /\
            map premium (legs s) = [NaN; NaN] /\ net_credit s = NaN /\
            maxProfit s = NaN.
Proof.
  intros Hd. unfold bullPutSpread, quote, bind, ret, Math_random. rewrite Hd.
  rewrite !calculateOptionPrice_NaN_time. cbn.
  eexists. repeat split.
Qed.

(** The Bull Put Spread is pushed unless its credit compares [<= 0.05]. *)
Lemma bullPutSpread_inclusion i :
  let (short, i1) := quote U c (bullPutShortStrike c) (iv c) false i in
  let (long, i2) := quote U c (bullPutLongStrike c) (iv c) false i1 in
  if nle (nsub (price short) (price long)) (Fin 0.05)
  then fst (bullPutSpread U c i) = []
  else exists s, fst (bullPutSpread U c i) = [s] /\ name s = "Bull Put Spread" /\
                 net_credit s = nsub (price short) (price long).
Proof.
  unfold bullPutSpread. run_block.
  destruct (nle _ _); cbn [fst]; [reflexivity |].
  eexists. repeat split.
Qed.

(** The Bear Call Spread is pushed exactly on a credit above 0.05. *)
Lemma bearCallSpread_inclusion i :
  let (short, i1) := quote U c (bearCallShortStrike c) (iv c) true i in
  let (long, i2) := quote U c (bearCallLongStrike c) (iv c) true i1 in
  if ngt (nsub (price short) (price long)) (Fin 0.05)
  then exists s, fst (bearCallSpread U c i) = [s] /\ name s = "Bear Call Spread" /\
                 net_credit s = nsub (price short) (price long)
  else fst (bearCallSpread U c i) = [].
Proof.
  unfold bearCallSpread. run_block.
  destruct (ngt _ _); cbn [fst]; [| reflexivity].
  eexists. repeat split.
Qed.

Lemma credit_profit (credit : number) :
  ngt credit (Fin 0.05) = true ->
  exists x m, credit = Fin x /\ 0.05 < x /\
              Math_round (nmul credit (Fin 100)) = Fin m /\ 0 < m.
Proof.
  destruct credit as [x |]; cbn; [| discriminate].
  destruct (Rltb_spec 0.05 x); [| discriminate]. intros _.
  exists x, (Rround (x * 100)). repeat split; [assumption |].
  apply Rround_pos. lra.
Qed.

(** Every Bear Call Spread that is produced has a credit above 0.05 and
    a positive [maxProfit]. *)
Lemma bearCallSpread_profitable i :
  Forall (fun s => exists x m, net_credit s = Fin x /\ 0.05 < x /\
                               maxProfit s = Fin m /\ 0 < m)
         (fst (bearCallSpread U c i)).
Proof.
  unfold bearCallSpread. run_block.
  destruct (ngt _ _) eqn:E; cbn [fst]; repeat constructor.
  destruct (credit_profit _ E) as [x [m [Hx [Hlt [Hm Hpos]]]]].
  exists x, m. cbn [net_credit legs leg premium maxProfit]. auto.
Qed.

(** Every Bull Put Spread that is produced on a credit that is a number
    has a credit above 0.05 and a positive [maxProfit]. *)
Lemma bullPutSpread_profitable i :
  Forall (fun s => net_credit s <> NaN ->
                   exists x m, net_credit s = Fin x /\ 0.05 < x /\
                               maxProfit s = Fin m /\ 0 < m)
         (fst (bullPutSpread U c i)).
Proof.
  unfold bullPutSpread. run_block.
  destruct (nle _ _) eqn:E; cbn [fst]; repeat constructor.
  cbn [net_credit legs leg premium maxProfit]. intros Hnan.
  match goal with
  | |- context [nsub (price ?a) (price ?b)] =>
      destruct (nsub (price a) (price b)) as [x |] eqn:Ec; [| congruence]
  end.
  cbn in E. destruct (Rleb_spec x 0.05); [discriminate |].
  exists x, (Rround (x * 100)). repeat split; [lra |].
  apply Rround_pos. lra.
Qed.

(** *** The legs *)

Hypothesis Hc : ladder_setup c.

Ltac strike_done :=
  lazymatch goal with
  | |- good_strike (bullPutShortStrike _) => apply bullPutShortStrike_good
  | |- good_strike (bullPutLongStrike _) => apply bullPutLongStrike_good
  | |- good_strike (icCallShortStrike _) => apply icCallShortStrike_good
  | |- good_strike (icCallLongStrike _) => apply icCallLongStrike_good
  | |- good_strike (icPutShortStrike _) => apply icPutShortStrike_good
  | |- good_strike (icPutLongStrike _) => apply icPutLongStrike_good
  | |- good_strike (cspStrike _) => apply cspStrike_good
  | |- good_strike (straddleStrike _) => apply straddleStrike_good
  | |- good_strike (ccStrike _) => apply ccStrike_good
  | |- good_strike (bearCallShortStrike _) => apply bearCallShortStrike_good
  | |- good_strike (bearCallLongStrike _) => apply bearCallLongStrike_good
  | |- good_strike (bullCallLongStrike _) => apply bullCallLongStrike_good
  | |- good_strike (bullCallShortStrike _) => apply bullCallShortStrike_good
  | |- _ = _ => reflexivity
  end.

Ltac legs_done :=
  cbn [fst]; repeat constructor; cbn [strike expiry leg]; strike_done; exact Hc.

Lemma bullPutSpread_legs i : Forall (legs_ok c) (fst (bullPutSpread U c i)).
Proof. unfold bullPutSpread. run_block. destruct (nle _ _); legs_done. Qed.

Lemma ironCondor_legs i : Forall (legs_ok c) (fst (ironCondor U c i)).
Proof. unfold ironCondor. run_block. destruct (ngt _ _); legs_done. Qed.

Lemma cashSecuredPut_legs i : Forall (legs_ok c) (fst (cashSecuredPut U c i)).
Proof. unfold cashSecuredPut. run_block. legs_done. Qed.

Lemma longStraddle_legs i : Forall (legs_ok c) (fst (longStraddle U c i)).
Proof. unfold longStraddle. run_block. legs_done. Qed.

Lemma coveredCall_legs i : Forall (legs_ok c) (fst (coveredCall U c i)).
Proof. unfold coveredCall. run_block. legs_done. Qed.

Lemma bearCallSpread_legs i : Forall (legs_ok c) (fst (bearCallSpread U c i)).
Proof. unfold bearCallSpread. run_block. destruct (ngt _ _); legs_done. Qed.

Lemma bullCallSpread_legs i : Forall (legs_ok c) (fst (bullCallSpread U c i)).
Proof. unfold bullCallSpread. run_block. destruct (_ && _); legs_done. Qed.

Lemma blocks_legs i : Forall (legs_ok c) (fst (blocks U c i)).
Proof.
  apply blocks_Forall.
  - apply bullPutSpread_legs.
  - apply ironCondor_legs.
  - apply cashSecuredPut_legs.
  - apply longStraddle_legs.
  - apply coveredCall_legs.
  - apply bearCallSpread_legs.
  - apply bullCallSpread_legs.
Qed.

End BlockFacts.

(** *** The Bull Put Spread on a credit that is a number *)

Section FiniteCredit.

Variable U : nat -> R.
Variable c : Setup.

(** A quote on a defined strike, at a DTE and a volatility that are
    numbers, has a price that is a number. *)
Lemma quote_finite k σ isCall i d v :
  0 < currentPrice c -> dte c = Fin d -> σ = Fin v -> 0 < v -> good_strike k ->
  isFin (price (fst (quote U c k σ isCall i))).
Proof.
  intros Hs Hd -> Hv [s [-> Hk]]. unfold quote, spot. rewrite Hd. cbn [toNumber].
  destruct (Rle_lt_dec d 0) as [Hle | Hlt].
  - rewrite calculateOptionPrice_expired by assumption. cbn [fst price].
    destruct isCall; eexists; reflexivity.
  - rewrite calculateOptionPrice_live by assumption. cbn [fst price].
    eexists; reflexivity.
Qed.

(** For a credit that is a number the two ways of writing the
    inclusion test agree. *)
Lemma guard_agree x : nle (Fin x) (Fin 0.05) = negb (ngt (Fin x) (Fin 0.05)).
Proof.
  cbn. destruct (Rleb_spec x 0.05), (Rltb_spec 0.05 x); try reflexivity; lra.
Qed.

(** With a first calendar date (a DTE that is a number) the Bull Put
    Spread is produced exactly on a credit above 0.05. *)
Lemma bullPutSpread_finite_dte i d v :
  ladder_setup c -> dte c = Fin d -> iv c = Fin v -> 0 < v ->
  exists x,
    nsub (price (fst (quote U c (bullPutShortStrike c) (iv c) false i)))
         (price (fst (quote U c (bullPutLongStrike c) (iv c) false
                        (snd (quote U c (bullPutShortStrike c) (iv c) false i)))))
    = Fin x /\
    (fst (bullPutSpread U c i) <> [] <-> 0.05 < x).
Proof.
  intros Hc Hd Hv Hpos.
  pose proof (quote_finite (bullPutShortStrike c) (iv c) false i d v
                (proj1 Hc) Hd Hv Hpos (bullPutShortStrike_good c Hc)) as [a Ha].
  pose proof (quote_finite (bullPutLongStrike c) (iv c) false
                (snd (quote U c (bullPutShortStrike c) (iv c) false i)) d v
                (proj1 Hc) Hd Hv Hpos (bullPutLongStrike_good c Hc)) as [b Hb].
  pose proof (bullPutSpread_inclusion U c i) as Hinc.
  destruct (quote U c (bullPutShortStrike c) (iv c) false i) as [short i1].
  cbn [fst snd] in *.
  destruct (quote U c (bullPutLongStrike c) (iv c) false i1) as [long i2].
  cbn [fst] in *. rewrite Ha, Hb in *. cbn [nsub lift2] in *.
  exists (a - b). split; [reflexivity |].
  rewrite guard_agree in Hinc. cbn in Hinc.
  destruct (Rltb_spec 0.05 (a - b)) as [Hlt | Hge]; cbn in Hinc.
  - destruct Hinc as [s [Hs _]]. rewrite Hs. split; [intros _; exact Hlt | discriminate].
  - rewrite Hinc. split; [congruence | lra].
Qed.

End FiniteCredit.

(* ================================================================= *)
(** ** The synthesizer and the ranker as a whole *)

(** [generateStrategies] always returns: the catalog is the seven blocks
    run on the ladder, the first calendar date and one volatility draw. *)
Lemma generateStrategies_run U tz today now spot ticker minDte maxDte :
  exists expirations,
    getExpirationDates tz today minDte maxDte = Some expirations /\
    generateStrategies U tz today now spot ticker minDte maxDte =
    Some (fun i => blocks U (mkSetup spot ticker (generateStrikes spot)
                               (nth_error expirations 0)
                               (daysUntil now (nth_error expirations 0))
                               (nadd (Fin 0.35) (nmul (Fin (U i)) (Fin 0.15))))
                          (Nat.succ i)).
Proof.
  destruct (getExpirationDates_ok tz today minDte maxDte) as [l [E _]].
  exists l. split; [exact E |].
  unfold generateStrategies. rewrite E. reflexivity.
Qed.

Lemma jittered_finite U s : jittered_confidence U s -> finite_confidence s.
Proof. intros [k [b [_ H]]]. eexists. exact H. Qed.

Lemma base_confidence_range nm b :
  base_confidence nm = Some b ->
  58.5 <= b <= 72.5 /\ (nm = "Long Straddle"%string -> b = 58.5).
Proof.
  unfold base_confidence.
  repeat match goal with
         | |- context [String.eqb nm ?s] => destruct (String.eqb_spec nm s) as [-> | ?]
         end;
    intros [= <-] || discriminate; (split; [lra | intros; congruence || reflexivity]).
Qed.

Lemma conservative_test_spec s : reflect (conservative_ok s) (conservative_test s).
Proof.
  unfold conservative_ok, conservative_test.
  destruct (Rleb_spec 65 (confidence_value s)),
           (String.eqb_spec (type s) "volatility");
    cbn; constructor; intuition.
Qed.

Lemma confidence_compare a b :
  finite_confidence a -> finite_confidence b ->
  nsub (confidence b) (confidence a) = Fin (confidence_value b - confidence_value a).
Proof.
  intros [x Hx] [y Hy]. unfold confidence_value. now rewrite Hx, Hy.
Qed.

Lemma sort_by_confidence l :
  Forall finite_confidence l ->
  stably_ranked l (JSArray.sort (fun a b => nsub (confidence b) (confidence a)) l).
Proof.
  intros H. repeat split.
  - apply sort_perm.
  - eapply sort_descending with (D := finite_confidence); [| exact H].
    intros a b Ha Hb. now apply confidence_compare.
  - intros k. eapply sort_stable with (D := finite_confidence); [| exact H].
    intros a b Ha Hb. now apply confidence_compare.
Qed.

(** On defined confidences the filter of the code is the test of the
    specification. *)
Lemma conservative_filter all :
  Forall finite_confidence all ->
  filter (fun s => nge (confidence s) (Fin 65)
                   && negb (String.eqb (type s) "volatility")) all
  = filter conservative_test all.
Proof.
  intros H. apply filter_ext_in. intros s Hs.
  rewrite Forall_forall in H. destruct (H s Hs) as [x Hx].
  unfold conservative_test, confidence_value. now rewrite Hx.
Qed.

(** The conservative ranking of any list of strategies with defined
    confidences, for a non-negative [maxStrategies]. *)
Lemma rank_conservative all maxStrategies :
  Forall finite_confidence all -> (0 <= maxStrategies)%Z ->
  exists sorted,
    stably_ranked (filter conservative_test all) sorted /\
    rank "conservative" maxStrategies all = firstn (Z.to_nat maxStrategies) sorted /\
    Forall conservative_ok (rank "conservative" maxStrategies all) /\
    (Z.of_nat (List.length (rank "conservative" maxStrategies all)) <= maxStrategies)%Z.
Proof.
  intros Hfin Hmax. unfold rank. cbn [String.eqb Ascii.eqb Bool.eqb].
  rewrite (conservative_filter all Hfin).
  set (kept := filter conservative_test all).
  set (sorted := JSArray.sort _ kept).
  assert (Hkept : Forall finite_confidence kept) by now apply Forall_filter.
  pose proof (sort_by_confidence kept Hkept) as Hrank. fold sorted in Hrank.
  exists sorted. rewrite slice0_nonneg by assumption. repeat split; try apply Hrank.
  - apply Forall_forall. intros s Hs.
    assert (In s sorted) by (eapply firstn_In; exact Hs).
    destruct Hrank as [Hp _]. apply Permutation_sym in Hp.
    pose proof (Permutation_in _ Hp H) as Hin. apply filter_In in Hin as [_ Hin].
    now destruct (conservative_test_spec s).
  - pose proof (firstn_le_length (Z.to_nat maxStrategies) sorted). lia.
Qed.

(* ================================================================= *)
(** * The claims *)

Import ClosedForm.

Local Open Scope string_scope.

(** ** Pricing model *)

(** C3, as stated, fails on the expired branch: an at-the-money call
    with zero days to expiry is quoted at its intrinsic value 0, below
    the tick of 0.05. *)
Lemma C3_counterexample :
  ~ price_floored
      (fst (calculateOptionPrice (fun _ => 0.5) (Fin 100) (Fin 100) (Fin 0)
              (Fin 0.25) (Fin 0.05) true 0%nat)).
Proof.
  rewrite calculateOptionPrice_expired by lra.
  intros [p [Hp Hle]]. cbn in Hp.
  replace (100 - 100) with 0 in Hp by lra.
  rewrite Rmax_left in Hp by lra.
  injection Hp as <-. lra.
Qed.

(** C3, amended: for a positive number of days to expiry and positive
    spot, strike and volatility, whatever the rate, the option kind and
    the random draw, the price of the returned quote is a number that is
    at least 0.05. *)
Theorem C3_price_floor_live U S K d σ r isCall i :
  0 < S -> 0 < K -> 0 < d -> 0 < σ ->
  price_floored
    (fst (calculateOptionPrice U (Fin S) (Fin K) (Fin d) (Fin σ) (Fin r) isCall i)).
Proof.
  intros HS HK Hd Hσ.
  rewrite calculateOptionPrice_live by assumption.
  eexists; split; [reflexivity | apply Rmax_r].
Qed.

Lemma C3_price_floor_live_witness :
  price_floored
    (fst (calculateOptionPrice (fun _ => 0.5) (Fin 100) (Fin 95) (Fin 30)
            (Fin 0.4) (Fin 0.05) false 0%nat)).
Proof. apply C3_price_floor_live; lra. Defined.

(** C4: with [daysToExpiry <= 0] the quote is the intrinsic value
    ([max(S-K,0)] for a call, [max(K-S,0)] for a put), delta is 1 or 0
    for a call and -1 or 0 for a put according to moneyness, gamma,
    theta and vega are 0; the volatility and the rate play no part
    (they may even be [NaN]) and no random number is drawn, so the
    closed form is not evaluated. *)
Theorem C4_expired_intrinsic U S K d σ r isCall i :
  d <= 0 ->
  calculateOptionPrice U (Fin S) (Fin K) (Fin d) σ r isCall i =
  (mkQuote (Fin (intrinsic S K isCall))
           (mkGreeks (Fin (if isCall then (if Rltb K S then 1 else 0)
                           else (if Rltb S K then -1 else 0)))
                     (Fin 0) (Fin 0) (Fin 0)),
   i).
Proof.
  intros Hd. rewrite calculateOptionPrice_expired by assumption.
  unfold intrinsic. js_eval.
  destruct isCall; [destruct (Rltb K S) | destruct (Rltb S K)]; reflexivity.
Qed.

Lemma C4_expired_intrinsic_witness :
  calculateOptionPrice (fun _ => 0.5) (Fin 100) (Fin 90) (Fin 0) NaN (Fin 0.05) true 7%nat =
  (mkQuote (Fin (intrinsic 100 90 true))
           (mkGreeks (Fin (if Rltb 90 100 then 1 else 0)) (Fin 0) (Fin 0) (Fin 0)),
   7%nat).
Proof.
  apply (C4_expired_intrinsic (fun _ => 0.5) 100 90 0 NaN (Fin 0.05) true 7%nat). lra.
Defined.

(** C5, as stated, fails where [d2 = 0]: at spot 100, strike 100, 365
    days, rate 0.125 and volatility 0.5 one has [r = sigma^2 / 2], so
    [d1 = 0.5] and [d2 = 0] (every intermediate value, 0.125, 0.25 and
    0.5, is a binary fraction); the approximation of [erf] returns
    [1e-9] at 0, and call minus put misses [S - K e^(-rT)] by
    [K e^(-rT) * 1e-9]. *)
Lemma C5_counterexample : ~ parity_holds 100 100 365 0.125 0.5.
Proof.
  unfold parity_holds. intros [c [p [Hc [Hp Heq]]]].
  rewrite blackScholes_Fin in Hc, Hp by lra. cbn [m_price value] in Hc, Hp.
  injection Hc as <-. injection Hp as <-.
  rewrite parity_identity in Heq.
  assert (E1 : d1 100 100 (365 / 365) 0.125 0.5 = 0.5)
    by (rewrite d1_at_the_money by lra; lra).
  assert (E2 : d2 100 100 (365 / 365) 0.125 0.5 = 0)
    by (rewrite d2_at_the_money by lra; lra).
  rewrite E1, E2 in Heq. rewrite N_symmetric in Heq by lra.
  replace (- 0) with 0 in Heq by lra. rewrite N_at_0 in Heq.
  match type of Heq with context [exp ?a] => generalize (exp_pos a) end. lra.
Qed.

(** C5, amended: for positive spot, strike, days and volatility and any
    rate, the call and put prices before the market adjustment satisfy
    [call - put = S (1 + e1) - K e^(-rT) (1 + e2)], where [e1] ([e2]) is
    [1e-9] when [d1] ([d2]) is exactly 0 and 0 otherwise; so put-call
    parity holds exactly whenever [d1 <> 0] and [d2 <> 0]. *)
Theorem C5_parity_up_to_defect S K d r σ :
  0 < S -> 0 < K -> 0 < d -> 0 < σ ->
  exists c p,
    m_price (blackScholes (Fin S) (Fin K) (Fin (d / 365)) (Fin r) (Fin σ) true) = Fin c /\
    m_price (blackScholes (Fin S) (Fin K) (Fin (d / 365)) (Fin r) (Fin σ) false) = Fin p /\
    c - p = S * (1 + parity_defect (d1 S K (d / 365) r σ))
            - K * exp (- r * (d / 365)) * (1 + parity_defect (d2 S K (d / 365) r σ)) /\
    (d1 S K (d / 365) r σ <> 0 -> d2 S K (d / 365) r σ <> 0 ->
     parity_holds S K d r σ).
Proof.
  intros HS HK Hd Hσ.
  exists (call_value S K (d / 365) r σ), (put_value S K (d / 365) r σ).
  rewrite !blackScholes_Fin by lra. cbn [m_price value].
  split; [reflexivity |]. split; [reflexivity |]. split.
  - rewrite parity_identity, !N_pair. reflexivity.
  - intros H1 H2. unfold parity_holds.
    exists (call_value S K (d / 365) r σ), (put_value S K (d / 365) r σ).
    rewrite !blackScholes_Fin by lra. cbn [m_price value].
    repeat split. rewrite parity_identity, !N_symmetric by assumption. ring.
Qed.

Lemma C5_parity_up_to_defect_witness :
  exists c p,
    m_price (blackScholes (Fin 100) (Fin 100) (Fin (365 / 365)) (Fin 0.05) (Fin 0.4) true)
      = Fin c /\
    m_price (blackScholes (Fin 100) (Fin 100) (Fin (365 / 365)) (Fin 0.05) (Fin 0.4) false)
      = Fin p /\
    c - p = 100 * (1 + parity_defect (d1 100 100 (365 / 365) 0.05 0.4))
            - 100 * exp (- (0.05) * (365 / 365))
              * (1 + parity_defect (d2 100 100 (365 / 365) 0.05 0.4)) /\
    (d1 100 100 (365 / 365) 0.05 0.4 <> 0 -> d2 100 100 (365 / 365) 0.05 0.4 <> 0 ->
     parity_holds 100 100 365 0.05 0.4).
Proof. apply (C5_parity_up_to_defect 100 100 365 0.05 0.4); lra. Defined.

(** C6: for a positive number of days to expiry the theta of the
    returned Greeks is the annualized theta of the model, rounded to two
    decimals ([Math.round(theta * 100) / 100]) and only then divided by
    365; on positive spot, strike and volatility, where the closed form
    is defined, that annualized theta is the Black-Scholes theta of
    section 4.1. *)
Theorem C6_theta_round_then_divide U (S K σ r : number) d isCall i :
  0 < d ->
  theta (greeks (fst (calculateOptionPrice U S K (Fin d) σ r isCall i)))
  = (Math_round (m_theta (blackScholes S K (Fin (d / 365)) r σ isCall) * #100)
     / #100 / #365)%js /\
  (forall s k v rr,
      S = Fin s -> K = Fin k -> σ = Fin v -> r = Fin rr ->
      0 < s -> 0 < k -> 0 < v ->
      theta (greeks (fst (calculateOptionPrice U S K (Fin d) σ r isCall i)))
      = Fin (Rround (theta_annual s k (d / 365) rr v isCall * 100) / 100 / 365)).
Proof.
  intros Hd. split.
  - unfold calculateOptionPrice. rewrite years_Fin. js_eval.
    rewrite Rleb_false by lra. reflexivity.
  - intros s k v rr -> -> -> -> Hs Hk Hv.
    rewrite calculateOptionPrice_live by assumption. reflexivity.
Qed.

Lemma C6_theta_round_then_divide_witness :
  theta (greeks (fst (calculateOptionPrice (fun _ => 0.5) (Fin 100) (Fin 95) (Fin 30)
                        (Fin 0.4) (Fin 0.05) true 0%nat)))
  = (Math_round (m_theta (blackScholes (Fin 100) (Fin 95) (Fin (30 / 365)) (Fin 0.05)
                            (Fin 0.4) true) * #100) / #100 / #365)%js /\
  (forall s k v rr,
      Fin 100 = Fin s -> Fin 95 = Fin k -> Fin 0.4 = Fin v -> Fin 0.05 = Fin rr ->
      0 < s -> 0 < k -> 0 < v ->
      theta (greeks (fst (calculateOptionPrice (fun _ => 0.5) (Fin 100) (Fin 95) (Fin 30)
                            (Fin 0.4) (Fin 0.05) true 0%nat)))
      = Fin (Rround (theta_annual s k (30 / 365) rr v true * 100) / 100 / 365)).
Proof.
  apply (C6_theta_round_then_divide (fun _ => 0.5) (Fin 100) (Fin 95) (Fin 0.4)
           (Fin 0.05) 30 true 0%nat).
  lra.
Defined.

(** ** Strike ladder and expiration calendar *)

(** C7: for every positive spot price the ladder has at most 13 rungs,
    all positive, strictly ascending, any two neighbours exactly one
    interval apart, the interval being 2.5 below 50, 5 below 200, 10
    below 500 and 25 from 500 on. *)
Theorem C7_strike_ladder spot :
  0 < spot ->
  (List.length (generateStrikes spot) <= 13)%nat /\
  Forall (fun s => 0 < s) (generateStrikes spot) /\
  StronglySorted Rlt (generateStrikes spot) /\
  Sorted (fun a b => b - a = strike_interval spot) (generateStrikes spot) /\
  ((spot < 50 /\ strike_interval spot = 2.5) \/
   (50 <= spot < 200 /\ strike_interval spot = 5) \/
   (200 <= spot < 500 /\ strike_interval spot = 10) \/
   (500 <= spot /\ strike_interval spot = 25)).
Proof.
  intros Hspot.
  pose proof (ladder_length spot Hspot) as [[_ Hlen] _].
  split; [exact Hlen |].
  split; [apply ladder_positive |].
  split; [apply ladder_ascending |].
  split; [apply ladder_spacing | apply strike_interval_cases].
Qed.

Lemma C7_strike_ladder_witness :
  (List.length (generateStrikes 1) <= 13)%nat /\
  Forall (fun s => 0 < s) (generateStrikes 1) /\
  StronglySorted Rlt (generateStrikes 1) /\
  Sorted (fun a b => b - a = strike_interval 1) (generateStrikes 1) /\
  ((1 < 50 /\ strike_interval 1 = 2.5) \/
   (50 <= 1 < 200 /\ strike_interval 1 = 5) \/
   (200 <= 1 < 500 /\ strike_interval 1 = 10) \/
   (500 <= 1 /\ strike_interval 1 = 25)).
Proof. apply (C7_strike_ladder 1). lra. Defined.

(** C8 fails on a host that is not in UTC: the loop tests the weekday in
    local time ([getDay]) and the date is printed in UTC
    ([toISOString]).  In UTC-5, at 20:00 on Monday 2 November 2026, the
    window 30..45 yields 2026-12-05 and 2026-12-12, which are Saturdays,
    and 2026-12-18.  (In every time zone the calendar returns at most
    three dates whose DTE is in the window, [getExpirationDates_ok]; in
    UTC they are all Fridays, [getExpirationDates_utc].) *)
Theorem C8_failing_input :
  getExpirationDates (-5 * 3600000) evening_in_new_york 30 45
    = Some [20792; 20799; 20805]%Z /\
  map isoWeekDay [20792; 20799; 20805]%Z = [6; 6; 5]%Z /\
  map civil_from_days [20792; 20799; 20805]%Z
    = [(2026, 12, 5); (2026, 12, 12); (2026, 12, 18)]%Z.
Proof. vm_compute. repeat split. Qed.

(** ** Strategy synthesizer *)

(** C1, as stated, fails when the calendar is empty: for the window 1..5
    no candidate qualifies, [expirations[0]] is [undefined], and the leg
    of the Cash Secured Put, which is always produced, has no expiry. *)
Lemma C1_counterexample :
  ~ synthesizer_safe (fun _ => 0.5) 0 monday_morning monday_morning 100 "AAPL" 1 5 0%nat.
Proof.
  intros [synth [E Hsafe]].
  destruct (generateStrategies_run (fun _ => 0.5) 0 monday_morning monday_morning
              100 "AAPL" 1 5) as [l [El E']].
  rewrite no_expiry_this_week in El. injection El as <-.
  rewrite E' in E. injection E as <-. cbv beta in Hsafe.
  match type of Hsafe with
  | Forall _ (fst (blocks ?U ?c ?i)) =>
      destruct (blocks_cashSecuredPut U c i) as [s [l [Hin [_ [Hlegs Hexp]]]]]
  end.
  rewrite Forall_forall in Hsafe. specialize (Hsafe s Hin).
  rewrite Hlegs in Hsafe. apply Forall_inv in Hsafe as [_ [e He]].
  rewrite Hexp in He. cbn [primaryExpiry nth_error] in He. discriminate He.
Qed.

(** C1, amended: for every positive spot price and every DTE window the
    synthesizer returns (the calendar loops end, nothing raises), every
    leg of every produced strategy has a defined positive strike - also
    on ladders of fewer than 8 rungs - and its expiry is the first date
    of the calendar, hence defined whenever the calendar is not empty. *)
Theorem C1_strikes_defined U tz today now spot ticker minDte maxDte i :
  0 < spot ->
  exists expirations synth,
    getExpirationDates tz today minDte maxDte = Some expirations /\
    generateStrategies U tz today now spot ticker minDte maxDte = Some synth /\
    Forall (fun s => Forall (fun l => good_strike (strike l) /\
                                      expiry l = nth_error expirations 0) (legs s))
           (fst (synth i)) /\
    (expirations <> [] ->
     Forall (fun s => Forall leg_well_defined (legs s)) (fst (synth i))).
Proof.
  intros Hspot.
  destruct (generateStrategies_run U tz today now spot ticker minDte maxDte)
    as [l [El E]].
  exists l. eexists. split; [exact El |]. split; [exact E |]. cbv beta.
  set (c := mkSetup _ _ _ _ _ _).
  assert (Hc : ladder_setup c) by (split; [exact Hspot | reflexivity]).
  pose proof (blocks_legs U c Hc (Nat.succ i)) as Hlegs.
  split; [exact Hlegs |].
  intros Hne. eapply Forall_impl; [| exact Hlegs].
  intros s Hs. eapply Forall_impl; [| exact Hs].
  intros lg [Hk He]. split; [exact Hk |].
  destruct l as [| e l]; [congruence |]. exists e. exact He.
Qed.

Lemma C1_strikes_defined_witness :
  exists expirations synth,
    getExpirationDates 0 monday_morning 30 45 = Some expirations /\
    generateStrategies (fun _ => 0.5) 0 monday_morning monday_morning 1 "AAPL" 30 45
      = Some synth /\
    Forall (fun s => Forall (fun l => good_strike (strike l) /\
                                      expiry l = nth_error expirations 0) (legs s))
           (fst (synth 0%nat)) /\
    (expirations <> [] ->
     Forall (fun s => Forall leg_well_defined (legs s)) (fst (synth 0%nat))).
Proof.
  apply (C1_strikes_defined (fun _ => 0.5) 0 monday_morning monday_morning 1 "AAPL"
           30 45 0%nat). lra.
Defined.

(** C9 fails for the Bull Put Spread when the calendar is empty (window
    1..5): the DTE is [NaN], so are both premiums and the credit, the
    test [credit <= 0.05] is false, and the spread is pushed with a
    [maxProfit] of [NaN].  The Bear Call Spread, tested with
    [credit > 0.05], is not ([bearCallSpread_inclusion],
    [bearCallSpread_profitable]); with a first calendar date the credit
    is a number and the Bull Put Spread is produced exactly when it
    exceeds 0.05 ([bullPutSpread_finite_dte], [bullPutSpread_profitable]). *)
Theorem C9_failing_input :
  exists synth s,
    generateStrategies (fun _ => 0.5) 0 monday_morning monday_morning 100 "AAPL" 1 5
      = Some synth /\
    In s (fst (synth 0%nat)) /\ name s = "Bull Put Spread" /\
    map premium (legs s) = [NaN; NaN] /\ net_credit s = NaN /\
    ngt (net_credit s) (Fin 0.05) = false /\ maxProfit s = NaN.
Proof.
  destruct (generateStrategies_run (fun _ => 0.5) 0 monday_morning monday_morning
              100 "AAPL" 1 5) as [l [El E]].
  rewrite no_expiry_this_week in El. injection El as <-.
  match type of E with _ = Some ?f => exists f end.
  cbv beta.
  match goal with
  | |- exists s, _ /\ In s (fst (blocks ?U ?c ?i)) /\ _ =>
      destruct (bullPutSpread_NaN_dte U c i eq_refl) as [s [Hs [Hn [Hp [Hcr Hm]]]]]
  end.
  exists s. split; [exact E |]. split; [apply blocks_bullPut; rewrite Hs; now left |].
  rewrite Hcr. repeat split; assumption.
Qed.

(** C10: when the draws are in [[0, 1)], every produced strategy has the
    base confidence of its template (72.5, 65.2, 69.8, 58.5, 66.7, 63.5
    or 68.2) plus five times a draw of its own (no two strategies share
    a position of the stream), hence a confidence in [[58.5, 77.5)];
    the Long Straddle stays below 63.5; and the [moderate_aggressive]
    threshold of 55 excludes nothing, so that profile ranks exactly as
    [aggressive] does. *)
Theorem C10_confidence_band U tz today now spot ticker minDte maxDte i :
  unit_draws U ->
  exists synth,
    generateStrategies U tz today now spot ticker minDte maxDte = Some synth /\
    (exists ks, NoDup ks /\ Forall2 (jittered_at U) (fst (synth i)) ks) /\
    Forall (fun s => exists b u,
                base_confidence (name s) = Some b /\ 0 <= u < 1 /\
                confidence s = Fin (b + u * 5) /\
                58.5 <= b + u * 5 < 77.5 /\
                (name s = "Long Straddle" -> b + u * 5 < 63.5))
           (fst (synth i)) /\
    (forall maxStrategies,
        rank "moderate_aggressive" maxStrategies (fst (synth i))
        = rank "aggressive" maxStrategies (fst (synth i))).
Proof.
  intros HU.
  destruct (generateStrategies_run U tz today now spot ticker minDte maxDte)
    as [l [_ E]].
  eexists; split; [exact E |]. cbv beta.
  set (c := mkSetup _ _ _ _ _ _).
  split.
  { destruct (blocks_draws U c (Nat.succ i)) as [_ [ks [Hj [_ Hn]]]].
    exists ks. split; assumption. }
  pose proof (blocks_confidence U c (Nat.succ i)) as Hj.
  assert (Hband :
    Forall (fun s => exists b u,
                base_confidence (name s) = Some b /\ 0 <= u < 1 /\
                confidence s = Fin (b + u * 5) /\
                58.5 <= b + u * 5 < 77.5 /\
                (name s = "Long Straddle" -> b + u * 5 < 63.5))
           (fst (blocks U c (Nat.succ i)))).
  { eapply Forall_impl; [| exact Hj].
    intros s [k [b [Hb Hconf]]]. exists b, (U k).
    pose proof (HU k). pose proof (base_confidence_range _ _ Hb) as [Hr HL].
    repeat split; try assumption; try lra.
    intros Hn. rewrite (HL Hn). lra. }
  split; [exact Hband |].
  intros maxStrategies. unfold rank. cbn [String.eqb Ascii.eqb Bool.eqb].
  rewrite filter_all; [reflexivity |].
  eapply Forall_impl; [| exact Hband].
  intros s [b [u [_ [_ [Hconf [Hr _]]]]]]. rewrite Hconf. cbn.
  apply Rleb_true. lra.
Qed.

Lemma C10_confidence_band_witness :
  exists synth,
    generateStrategies (fun _ => 0.5) 0 monday_morning monday_morning 100 "AAPL" 30 45
      = Some synth /\
    (exists ks, NoDup ks /\ Forall2 (jittered_at (fun _ => 0.5)) (fst (synth 0%nat)) ks) /\
    Forall (fun s => exists b u,
                base_confidence (name s) = Some b /\ 0 <= u < 1 /\
                confidence s = Fin (b + u * 5) /\
                58.5 <= b + u * 5 < 77.5 /\
                (name s = "Long Straddle" -> b + u * 5 < 63.5))
           (fst (synth 0%nat)) /\
    (forall maxStrategies,
        rank "moderate_aggressive" maxStrategies (fst (synth 0%nat))
        = rank "aggressive" maxStrategies (fst (synth 0%nat))).
Proof.
  apply (C10_confidence_band (fun _ => 0.5) 0 monday_morning monday_morning
           100 "AAPL" 30 45 0%nat).
  intros k. lra.
Defined.

(** ** Risk profile filter and ranker *)

(** C2, as stated, fails for a negative [maxStrategies]: [slice(0, -1)]
    drops the last strategy instead of truncating, and no list is at
    most -1 long. *)
Lemma C2_counterexample :
  ~ conservative_selection (fun _ => 0.5) 0 monday_morning monday_morning
      100 "AAPL" 30 45 (-1) 0%nat.
Proof.
  intros [synth [h [_ [_ [_ [_ Hlen]]]]]]. lia.
Qed.

(** C2, amended: for [maxStrategies >= 0] the conservative profile
    returns the synthesized strategies with confidence at least 65 and
    a category other than volatility, sorted by confidence, highest
    first, ties in their original order, cut to the first
    [maxStrategies] entries; so it returns no volatility strategy and at
    most [maxStrategies] of them. *)
Theorem C2_conservative_selection U tz today now spot ticker minDte maxDte maxStrategies i :
  (0 <= maxStrategies)%Z ->
  conservative_selection U tz today now spot ticker minDte maxDte maxStrategies i.
Proof.
  intros Hmax.
  destruct (generateStrategies_run U tz today now spot ticker minDte maxDte)
    as [l [_ E]].
  unfold conservative_selection, handler. rewrite E. cbn [option_map].
  eexists _, _. split; [reflexivity |]. split; [reflexivity |].
  cbv beta. unfold bind, ret.
  set (c := mkSetup _ _ _ _ _ _).
  pose proof (blocks_confidence U c (Nat.succ i)) as Hj.
  destruct (blocks U c (Nat.succ i)) as [all i'']. cbn [fst] in *.
  assert (Hfin : Forall finite_confidence all)
    by (eapply Forall_impl; [apply jittered_finite | exact Hj]).
  destruct (rank_conservative all maxStrategies Hfin Hmax) as [sorted [H1 [H2 [H3 H4]]]].
  split; [exists sorted; split; assumption |]. split; assumption.
Qed.

Lemma C2_conservative_selection_witness :
  conservative_selection (fun _ => 0.5) 0 monday_morning monday_morning
    100 "AAPL" 30 45 5 0%nat.
Proof. apply C2_conservative_selection. lia. Defined.

(* ================================================================= *)
(** * Further properties

    What the code shows beyond the statements above: the reach of the
    calendar, the catalog in regular operation and on a short window,
    the put side of the spreads, the ranking under every profile, the
    range of the Greeks, and the handling of a request.

    The host of section 4.3 keeps local time at a constant offset [tz]
    from UTC, and its clock is an integer of milliseconds without
    bounds.  What is said below of the distance between today and a
    date of the calendar therefore holds on hosts that run in UTC or in
    a zone without daylight saving, at clock readings whose candidates
    stay inside the range of [Date]; where the clocks change, a
    candidate can fall an hour short of a whole number of days. *)

(* ================================================================= *)
(** ** How far the calendar reaches *)

Section CalendarReach.

Local Open Scope Z_scope.

Variable tz : Z.

Lemma getDay_shift d n : getDay tz (d + n * msPerDay) = (getDay tz d + n) mod 7.
Proof.
  unfold getDay, WeekDay, Day, LocalTime, msPerDay.
  Z.div_mod_to_equations. lia.
Qed.

Lemma findNextFriday_closed fuel d :
  daysToFriday tz d < Z.of_nat fuel ->
  findNextFriday tz fuel d = Some (d + daysToFriday tz d * msPerDay).
Proof.
  unfold daysToFriday.
  revert d. induction fuel as [| fuel IH]; intros d Hf; cbn [findNextFriday].
  - pose proof (Z.mod_pos_bound (5 - getDay tz d) 7).
    change (Z.of_nat 0) with 0 in Hf. lia.
  - pose proof (getDay_range tz d) as Hr.
    destruct (Z.eqb_spec (getDay tz d) 5) as [E | E].
    + rewrite E. change ((5 - 5) mod 7) with 0. now rewrite Z.add_0_r.
    + rewrite setDate_getDate, IH.
      * apply (f_equal Some). rewrite getDay_next. revert Hf E Hr.
        generalize (getDay tz d). intros g Hf E Hr.
        unfold msPerDay. Z.div_mod_to_equations. lia.
      * rewrite getDay_next. revert Hf E Hr.
        generalize (getDay tz d). intros g Hf E Hr.
        rewrite Nat2Z.inj_succ in Hf. Z.div_mod_to_equations. lia.
Qed.

Lemma daysToFriday_range d : 0 <= daysToFriday tz d <= 6.
Proof. unfold daysToFriday. pose proof (Z.mod_pos_bound (5 - getDay tz d) 7). lia. Qed.

Lemma findNextFriday_7_closed d :
  findNextFriday tz 7 d = Some (d + daysToFriday tz d * msPerDay).
Proof. apply findNextFriday_closed. pose proof (daysToFriday_range d). simpl. lia. Qed.

Lemma daysToFriday_weeks d w :
  daysToFriday tz (d + (w * 7) * msPerDay) = daysToFriday tz d.
Proof.
  unfold daysToFriday. rewrite getDay_shift.
  generalize (getDay tz d). intros g. Z.div_mod_to_equations. lia.
Qed.

(** The weekly candidate of week [w] is [7 w + j] days after [today], at
    the same time of day, [j] the days from today to the next local
    Friday. *)
Lemma weeklyExpiration_closed today minDte maxDte w :
  weeklyExpiration tz today minDte maxDte w =
  Some (if (minDte <=? 7 * w + daysToFriday tz today)
           && (7 * w + daysToFriday tz today <=? maxDte)
        then [isoDate (today + (7 * w + daysToFriday tz today) * msPerDay)] else []).
Proof.
  unfold weeklyExpiration. rewrite setDate_getDate, findNextFriday_7_closed.
  rewrite daysToFriday_weeks. cbn [option_map]. f_equal.
  unfold pushIfInWindow.
  replace (today + w * 7 * msPerDay + daysToFriday tz today * msPerDay - today)
    with ((7 * w + daysToFriday tz today) * msPerDay) by lia.
  rewrite Z.div_mul by (unfold msPerDay; lia).
  replace (today + w * 7 * msPerDay + daysToFriday tz today * msPerDay)
    with (today + (7 * w + daysToFriday tz today) * msPerDay) by lia.
  reflexivity.
Qed.

End CalendarReach.

Section CivilMonths.

Local Open Scope Z_scope.

Lemma year_of_era yoe doy :
  0 <= yoe < 400 -> 0 <= doy < 365 ->
  let doe := yoe * 365 + yoe / 4 - yoe / 100 + doy in
  0 <= doe < 146097 /\
  (doe - doe / 1460 + doe / 36524 - doe / 146096) / 365 = yoe.
Proof. intros Hy Hd doe. subst doe. Z.div_mod_to_equations. lia. Qed.

(** The first of a month is read back as such. *)
Lemma civil_of_first y m :
  1 <= m <= 12 -> civil_from_days (days_from_civil y m 1) = (y, m, 1).
Proof.
  intros Hm. unfold days_from_civil.
  set (y' := if m <=? 2 then y - 1 else y).
  set (mp := if 2 <? m then m - 3 else m + 9).
  set (era := y' / 400). set (yoe := y' - era * 400).
  set (doy := (153 * mp + 2) / 5 + 1 - 1).
  assert (Hyoe : 0 <= yoe < 400) by (subst yoe era; Z.div_mod_to_equations; lia).
  assert (Hmp : 0 <= mp <= 11) by (subst mp; destruct (Z.ltb_spec 2 m); lia).
  assert (Hdoy : 0 <= doy < 365) by (subst doy; Z.div_mod_to_equations; lia).
  pose proof (year_of_era yoe doy Hyoe Hdoy) as [Hdoe Hy]. cbv zeta in Hdoe, Hy.
  unfold civil_from_days.
  set (doe := yoe * 365 + yoe / 4 - yoe / 100 + doy) in *.
  replace (era * 146097 + doe - 719468 + 719468) with (doe + era * 146097) by lia.
  rewrite Z.div_add by lia. rewrite (Z.div_small doe) by lia. rewrite Z.add_0_l.
  replace (doe + era * 146097 - era * 146097) with doe by lia.
  rewrite Hy.
  replace (doe - (365 * yoe + yoe / 4 - yoe / 100)) with doy by (subst doe; lia).
  assert (Emp : (5 * doy + 2) / 153 = mp) by (subst doy; Z.div_mod_to_equations; lia).
  rewrite Emp.
  replace (doy - (153 * mp + 2) / 5 + 1) with 1 by (subst doy; lia).
  subst mp y' yoe era. clear -Hm.
  destruct (Z.ltb_spec 2 m), (Z.leb_spec m 2); try lia.
  - destruct (Z.ltb_spec (m - 3) 10).
    + destruct (Z.leb_spec (m - 3 + 3) 2); [lia |].
      f_equal. f_equal; lia.
    + destruct (Z.leb_spec (m - 3 - 9) 2); lia.
  - destruct (Z.ltb_spec (m + 9) 10); [lia |].
    destruct (Z.leb_spec (m + 9 - 9) 2); [| lia]. f_equal. f_equal; lia.
Qed.

Lemma MakeDay_first y mo :
  civil_from_days (MakeDay y mo 1) = (y + mo / 12, mo mod 12 + 1, 1).
Proof.
  unfold MakeDay. rewrite Z.add_simpl_r. apply civil_of_first.
  pose proof (Z.mod_pos_bound mo 12). lia.
Qed.

(** A month has at least 28 days. *)
Lemma MakeDay_next_month y mo : MakeDay y mo 1 + 28 <= MakeDay y (mo + 1) 1.
Proof.
  unfold MakeDay, days_from_civil. rewrite !Z.add_simpl_r.
  pose proof (Z.mod_pos_bound mo 12 ltac:(lia)) as Hm.
  assert (C : mo mod 12 < 11 /\ (mo + 1) mod 12 = mo mod 12 + 1 /\ (mo + 1) / 12 = mo / 12 \/
              mo mod 12 = 11 /\ (mo + 1) mod 12 = 0 /\ (mo + 1) / 12 = mo / 12 + 1)
    by (Z.div_mod_to_equations; lia).
  destruct C as [[H1 [H2 H3]] | [H1 [H2 H3]]]; rewrite H2, H3; clear H2 H3.
  - generalize dependent (mo mod 12). intros m Hm H1.
    generalize (y + mo / 12). intros yy.
    assert (C : m = 0 \/ m = 1 \/ m = 2 \/ m = 3 \/ m = 4 \/ m = 5 \/ m = 6 \/
                m = 7 \/ m = 8 \/ m = 9 \/ m = 10) by lia.
    repeat (destruct C as [C | C]); subst m;
      cbn [Z.add Z.leb Z.ltb Z.compare Pos.compare Pos.compare_cont Pos.add Pos.succ
           Z.sub Z.opp Z.pos_sub Pos.pred_double Z.succ_double Z.pred_double Z.double];
      Z.div_mod_to_equations; lia.
  - rewrite H1.
    cbn [Z.add Z.leb Z.ltb Z.compare Pos.compare Pos.compare_cont Pos.add Pos.succ
           Z.sub Z.opp Z.pos_sub Pos.pred_double Z.succ_double Z.pred_double Z.double].
    replace (y + (mo / 12 + 1) - 1) with (y + mo / 12) by lia.
    generalize (y + mo / 12). intros yy.
    Z.div_mod_to_equations; lia.
Qed.

Ltac literal a :=
  match a with Z0 => idtac | Zpos _ => idtac | Zneg _ => idtac end.

Ltac fold_literals :=
  repeat match goal with
    | |- context [?a + ?b] =>
        literal a; literal b; let v := eval vm_compute in (a + b) in change (a + b) with v
    | |- context [?a - ?b] =>
        literal a; literal b; let v := eval vm_compute in (a - b) in change (a - b) with v
    | |- context [?a * ?b] =>
        literal a; literal b; let v := eval vm_compute in (a * b) in change (a * b) with v
    | |- context [?a / ?b] =>
        literal a; literal b; let v := eval vm_compute in (a / b) in change (a / b) with v
    | |- context [?a mod ?b] =>
        literal a; literal b; let v := eval vm_compute in (a mod b) in change (a mod b) with v
    | |- context [?a <=? ?b] =>
        literal a; literal b; let v := eval vm_compute in (a <=? b) in change (a <=? b) with v
    | |- context [?a <? ?b] =>
        literal a; literal b; let v := eval vm_compute in (a <? b) in change (a <? b) with v
    | |- _ => progress cbv iota
    end.

(** A day lies before the first of the month after its own. *)
Lemma before_next_month z :
  let '(y, m, d) := civil_from_days z in z < MakeDay y m 1.
Proof.
  unfold civil_from_days.
  set (z' := z + 719468). set (era := z' / 146097).
  set (doe := z' - era * 146097).
  assert (Hdoe : 0 <= doe < 146097) by (subst doe era; Z.div_mod_to_equations; lia).
  pose proof (era_bounds doe Hdoe) as [Hyoe Hdoy]. cbv zeta in Hyoe, Hdoy.
  set (yoe := (doe - doe / 1460 + doe / 36524 - doe / 146096) / 365) in *.
  assert (Hy : doe < 365 * (yoe + 1) + (yoe + 1) / 4 - (yoe + 1) / 100 + (yoe + 1) / 400).
  { subst yoe. Z.div_mod_to_equations. lia. }
  set (doy := doe - (365 * yoe + yoe / 4 - yoe / 100)) in *.
  set (mp := (5 * doy + 2) / 153).
  assert (Hmp : 0 <= mp <= 11) by (subst mp; Z.div_mod_to_equations; lia).
  assert (Hz : z = era * 146097 + doe - 719468) by (subst doe z'; lia).
  assert (Hd : doe = 365 * yoe + yoe / 4 - yoe / 100 + doy) by (subst doy; lia).
  assert (Hm : (153 * mp + 2) / 5 <= doy < (153 * (mp + 1) + 2) / 5)
    by (subst mp; Z.div_mod_to_equations; lia).
  clearbody mp doy yoe doe era. clear z'.
  unfold MakeDay, days_from_civil. rewrite Z.add_simpl_r.
  assert (C : mp = 0 \/ mp = 1 \/ mp = 2 \/ mp = 3 \/ mp = 4 \/ mp = 5 \/ mp = 6 \/
              mp = 7 \/ mp = 8 \/ mp = 9 \/ mp = 10 \/ mp = 11) by lia.
  repeat (destruct C as [C | C]); subst mp; fold_literals;
    Z.div_mod_to_equations; lia.
Qed.

Lemma MakeDay_months y mo k : 0 <= k -> MakeDay y mo 1 <= MakeDay y (mo + k) 1.
Proof.
  intros Hk. pattern k. apply natlike_ind; [| | exact Hk].
  - rewrite Z.add_0_r. lia.
  - intros x Hx IH. replace (mo + Z.succ x) with (mo + x + 1) by lia.
    pose proof (MakeDay_next_month y (mo + x)). lia.
Qed.

(** [new Date(year, ...)] reads a year 0..99 as 19xx: never earlier. *)
Lemma MakeDay_century y mo : 0 <= y <= 99 -> MakeDay y mo 1 <= MakeDay (1900 + y) mo 1.
Proof.
  intros Hy. unfold MakeDay, days_from_civil. rewrite !Z.add_simpl_r.
  replace (1900 + y + mo / 12) with (y + mo / 12 + 1900) by lia.
  generalize (y + mo / 12). intros yy.
  generalize (153 * (if 2 <? mo mod 12 + 1 then mo mod 12 + 1 - 3 else mo mod 12 + 1 + 9) + 2).
  intros off.
  destruct (Z.leb_spec (mo mod 12 + 1) 2); Z.div_mod_to_equations; lia.
Qed.

Section MonthlyReach.
Variable tz : Z.

(** The monthly candidate is the first local Friday on or after the 15th of
    a later month, at local midnight: more than two weeks away. *)
Lemma monthlyExpiration_closed today minDte maxDte months :
  1 <= months ->
  exists expDate,
    monthlyExpiration tz today minDte maxDte months
      = Some (pushIfInWindow today minDte maxDte expDate) /\
    getDay tz expDate = 5 /\ today + 14 * msPerDay < expDate.
Proof.
  intros Hk. unfold monthlyExpiration.
  set (e0 := newDate tz (getFullYear tz today) (getMonth tz today + months) 1).
  assert (E0 : exists D, e0 = D * msPerDay - tz /\ Day (LocalTime tz today) < D /\
                         snd (civil_from_days D) = 1).
  { unfold e0, newDate, UTC, MakeDate, getFullYear, getMonth.
    pose proof (before_next_month (Day (LocalTime tz today))) as Hn.
    destruct (civil_from_days (Day (LocalTime tz today))) as [[y m] d]. cbn [fst snd].
    eexists; split; [rewrite Z.add_0_r; reflexivity |]. split.
    - replace (m - 1 + months) with (m + (months - 1)) by lia.
      pose proof (MakeDay_months y m (months - 1) ltac:(lia)) as H1.
      destruct (Z.leb_spec 0 y), (Z.leb_spec y 99); cbn [andb]; try lia.
      pose proof (MakeDay_century y (m + (months - 1)) ltac:(lia)). lia.
    - now rewrite MakeDay_first. }
  destruct E0 as [D [E0 [HD H1]]].
  assert (G : getDate tz e0 = 1).
  { unfold getDate, LocalTime, Day. rewrite E0.
    replace (D * msPerDay - tz + tz) with (D * msPerDay) by lia.
    rewrite Z.div_mul by (unfold msPerDay; lia). exact H1. }
  replace 15 with (getDate tz e0 + 14) by lia.
  rewrite setDate_getDate.
  destruct (findNextFriday_7 tz (e0 + 14 * msPerDay)) as [e He].
  rewrite He. exists e. split; [reflexivity |].
  apply findNextFriday_sound in He as [HF Hle]. split; [exact HF |].
  unfold Day, LocalTime, msPerDay in *. Z.div_mod_to_equations. lia.
Qed.

End MonthlyReach.

End CivilMonths.

Section CalendarWindows.

Local Open Scope Z_scope.

Lemma forEach_In (P : Z -> Prop) body range :
  (forall i, In i range -> exists l, body i = Some l /\ Forall P l) ->
  exists l, forEach body range = Some l /\ Forall P l.
Proof.
  induction range as [| i range IH]; intros Hb; cbn.
  - eexists; split; [reflexivity | constructor].
  - destruct (Hb i (or_introl eq_refl)) as [a [Ea Ha]].
    destruct IH as [l [E Hl]]; [intros j Hj; apply Hb; now right |].
    rewrite Ea, E. eexists; split; [reflexivity |]. apply Forall_app; split; assumption.
Qed.

Lemma forEach_flat_map body g range :
  (forall i, In i range -> body i = Some (g i)) ->
  forEach body range = Some (flat_map g range).
Proof.
  induction range as [| i range IH]; intros Hb; cbn; [reflexivity |].
  rewrite (Hb i (or_introl eq_refl)), IH; [reflexivity |].
  intros j Hj. apply Hb. now right.
Qed.

Section CalendarWindow.
Variable tz : Z.

Lemma pushIfInWindow_week_away today minDte maxDte expDate :
  getDay tz expDate = 5 -> 7 <= (expDate - today) / msPerDay ->
  Forall (week_away tz today minDte maxDte) (pushIfInWindow today minDte maxDte expDate).
Proof.
  intros HF H7. unfold pushIfInWindow.
  destruct (Z.leb_spec minDte ((expDate - today) / msPerDay));
    destruct (Z.leb_spec ((expDate - today) / msPerDay) maxDte);
    cbn; constructor; [| constructor].
  exists expDate. repeat split; assumption.
Qed.

Lemma weeklyExpiration_week_away today minDte maxDte weeks :
  1 <= weeks ->
  exists l, weeklyExpiration tz today minDte maxDte weeks = Some l /\
            Forall (week_away tz today minDte maxDte) l.
Proof.
  intros Hw. rewrite weeklyExpiration_closed. eexists; split; [reflexivity |].
  pose proof (daysToFriday_range tz today) as Hj.
  set (dte := 7 * weeks + daysToFriday tz today) in *.
  destruct (Z.leb_spec minDte dte), (Z.leb_spec dte maxDte); cbn [andb]; constructor;
    [| constructor].
  assert (E : (today + dte * msPerDay - today) / msPerDay = dte).
  { replace (today + dte * msPerDay - today) with (dte * msPerDay) by lia.
    apply Z.div_mul. unfold msPerDay. lia. }
  exists (today + dte * msPerDay). rewrite E. repeat split; try lia.
  subst dte. rewrite getDay_shift. unfold daysToFriday.
  pose proof (getDay_range tz today). revert H1. generalize (getDay tz today). intros g Hg.
  Z.div_mod_to_equations. lia.
Qed.

Lemma monthlyExpiration_week_away today minDte maxDte months :
  1 <= months ->
  exists l, monthlyExpiration tz today minDte maxDte months = Some l /\
            Forall (week_away tz today minDte maxDte) l.
Proof.
  intros Hm. destruct (monthlyExpiration_closed tz today minDte maxDte months Hm)
    as [e [E [HF Hlate]]].
  rewrite E. eexists; split; [reflexivity |].
  apply pushIfInWindow_week_away; [exact HF |].
  unfold msPerDay in *. Z.div_mod_to_equations. lia.
Qed.

Lemma in_range_lower (i : Z) range :
  In i range -> Forall (fun j => 1 <= j) range -> 1 <= i.
Proof. intros Hi HF. rewrite Forall_forall in HF. now apply HF. Qed.

Lemma getExpirationDates_week_away today minDte maxDte :
  exists l, getExpirationDates tz today minDte maxDte = Some l /\
            Forall (week_away tz today minDte maxDte) l.
Proof.
  unfold getExpirationDates.
  destruct (forEach_In (week_away tz today minDte maxDte)
              (weeklyExpiration tz today minDte maxDte) [1;2;3;4;5;6;7;8;9;10;11;12])
    as [w [Ew Hw]].
  { intros i Hi. apply weeklyExpiration_week_away.
    apply (in_range_lower i _ Hi). repeat constructor; lia. }
  destruct (forEach_In (week_away tz today minDte maxDte)
              (monthlyExpiration tz today minDte maxDte) [1;2;3])
    as [m [Em Hm]].
  { intros i Hi. apply monthlyExpiration_week_away.
    apply (in_range_lower i _ Hi). repeat constructor; lia. }
  rewrite Ew, Em. eexists; split; [reflexivity |].
  apply Forall_firstn, Forall_app; split; assumption.
Qed.

(** The first weekly candidate that reaches [minDte] also fits under
    [maxDte] when the window is at least a week wide. *)
Lemma weekly_first today minDte maxDte :
  minDte <= 84 -> 13 <= maxDte -> minDte + 6 <= maxDte ->
  exists dte rest,
    flat_map (fun w => if (minDte <=? 7 * w + daysToFriday tz today)
                          && (7 * w + daysToFriday tz today <=? maxDte)
                       then [isoDate (today + (7 * w + daysToFriday tz today) * msPerDay)]
                       else [])
             [1;2;3;4;5;6;7;8;9;10;11;12]
      = isoDate (today + dte * msPerDay) :: rest /\
    getDay tz (today + dte * msPerDay) = 5 /\
    minDte <= dte <= maxDte /\ 7 <= dte < Z.max minDte 7 + 7.
Proof.
  intros Hlo Hhi Hwide.
  pose proof (daysToFriday_range tz today) as Hj.
  assert (HF : forall w, getDay tz (today + (7 * w + daysToFriday tz today) * msPerDay) = 5).
  { intros w. rewrite getDay_shift. unfold daysToFriday.
    pose proof (getDay_range tz today) as Hg. revert Hg.
    generalize (getDay tz today). intros g Hg. Z.div_mod_to_equations. lia. }
  revert HF Hj. generalize (daysToFriday tz today). intros j HF Hj.
  cbn [flat_map].
  repeat match goal with
    | |- context [(minDte <=? ?a) && (?a <=? maxDte)] =>
        destruct (Z.leb_spec minDte a);
        [ destruct (Z.leb_spec a maxDte); [| lia]; cbn [andb app];
          eexists; eexists; split; [reflexivity |]; split; [apply HF | lia]
        | cbn [andb app] ]
    end.
  lia.
Qed.

End CalendarWindow.

Lemma calendar_week_away_all tz today minDte maxDte :
  exists l, getExpirationDates tz today minDte maxDte = Some l /\
            Forall (week_away tz today minDte maxDte) l /\
            (maxDte < 7 -> l = []).
Proof.
  destruct (getExpirationDates_week_away tz today minDte maxDte) as [l [E Hl]].
  exists l. repeat split; try assumption.
  intros Hmax. destruct l as [| s l]; [reflexivity |].
  apply Forall_inv in Hl. destruct Hl as [e [_ [_ [H7 [_ Hhi]]]]]. lia.
Qed.

Lemma calendar_regular tz today minDte maxDte :
  minDte <= 84 -> 13 <= maxDte -> minDte + 6 <= maxDte ->
  exists dte rest,
    getExpirationDates tz today minDte maxDte
      = Some (isoDate (today + dte * msPerDay) :: rest) /\
    getDay tz (today + dte * msPerDay) = 5 /\
    minDte <= dte <= maxDte /\ 7 <= dte < Z.max minDte 7 + 7.
Proof.
  intros Hlo Hhi Hwide.
  destruct (weekly_first tz today minDte maxDte Hlo Hhi Hwide) as [dte [rest [E H]]].
  unfold getExpirationDates.
  rewrite (forEach_flat_map _ _ _ (fun w _ => weeklyExpiration_closed tz today minDte maxDte w)).
  rewrite E.
  destruct (forEach_ok (qualifies tz today minDte maxDte)
              (monthlyExpiration tz today minDte maxDte) [1;2;3]
              (monthlyExpiration_ok tz today minDte maxDte)) as [m [Em _]].
  rewrite Em. exists dte. eexists. split; [reflexivity | exact H].
Qed.

End CalendarWindows.

(** On a host at a constant offset from UTC (no daylight saving) the
    calendar finishes, and each date it returns is the ISO day of a
    local Friday that is at least 7 days away and whose DTE lies in the
    window.  On such a host a window that closes before day 7 therefore
    yields no date at all. *)
Theorem calendar_at_least_a_week tz today minDte maxDte :
  exists l, getExpirationDates tz today minDte maxDte = Some l /\
            Forall (week_away tz today minDte maxDte) l /\
            ((maxDte < 7)%Z -> l = []).
Proof. apply calendar_week_away_all. Qed.

(** On a host at a constant offset from UTC (no daylight saving), for a
    window that is at least a week wide, opens within 84 days and closes
    no earlier than day 13 (the default 30..45 is one), the calendar is
    not empty whatever the weekday: its first date is the earliest
    weekly candidate in the window, a local Friday a whole number [dte]
    of days after today, less than a week past the later of [minDte] and
    day 7. *)
Theorem calendar_regular_window tz today minDte maxDte :
  regular_window minDte maxDte ->
  exists dte rest,
    getExpirationDates tz today minDte maxDte
      = Some (isoDate (today + dte * msPerDay) :: rest) /\
    getDay tz (today + dte * msPerDay) = 5%Z /\
    (minDte <= dte <= maxDte)%Z /\ (7 <= dte < Z.max minDte 7 + 7)%Z.
Proof. intros [Hlo [Hhi Hwide]]. now apply calendar_regular. Qed.

Lemma calendar_regular_window_witness :
  exists dte rest,
    getExpirationDates 32400000 monday_morning 30 45
      = Some (isoDate (monday_morning + dte * msPerDay) :: rest) /\
    getDay 32400000 (monday_morning + dte * msPerDay) = 5%Z /\
    (30 <= dte <= 45)%Z /\ (7 <= dte < Z.max 30 7 + 7)%Z.
Proof.
  apply (calendar_regular_window 32400000 monday_morning 30 45).
  unfold regular_window. lia.
Defined.

(** On a host that runs in UTC (where local and UTC days coincide) every
    date of the calendar names a Friday, at least 7 days away and with
    its DTE in the window, and there are at most three of them. *)
Theorem utc_host_fridays today minDte maxDte :
  exists l, getExpirationDates 0 today minDte maxDte = Some l /\
            (List.length l <= 3)%nat /\
            Forall (fun s => isoWeekDay s = 5%Z /\ week_away 0 today minDte maxDte s) l.
Proof.
  destruct (getExpirationDates_week_away 0 today minDte maxDte) as [l [E Hl]].
  destruct (getExpirationDates_ok 0 today minDte maxDte) as [l' [E' [Hlen _]]].
  assert (l' = l) by congruence. subst l'.
  exists l. split; [exact E |]. split; [exact Hlen |].
  eapply Forall_impl; [| exact Hl].
  intros s Hs. split; [| exact Hs].
  destruct Hs as [e [-> [HF _]]].
  unfold getDay, WeekDay, LocalTime in HF. rewrite Z.add_0_r in HF. exact HF.
Qed.

(* ================================================================= *)
(** ** The catalog on a regular window and on a short one *)

Ltac good_strikes Hc :=
  lazymatch goal with
  | |- good_strike (bullPutShortStrike _) => apply bullPutShortStrike_good
  | |- good_strike (bullPutLongStrike _) => apply bullPutLongStrike_good
  | |- good_strike (icCallShortStrike _) => apply icCallShortStrike_good
  | |- good_strike (icCallLongStrike _) => apply icCallLongStrike_good
  | |- good_strike (icPutShortStrike _) => apply icPutShortStrike_good
  | |- good_strike (icPutLongStrike _) => apply icPutLongStrike_good
  | |- good_strike (cspStrike _) => apply cspStrike_good
  | |- good_strike (straddleStrike _) => apply straddleStrike_good
  | |- good_strike (ccStrike _) => apply ccStrike_good
  | |- good_strike (bearCallShortStrike _) => apply bearCallShortStrike_good
  | |- good_strike (bearCallLongStrike _) => apply bearCallLongStrike_good
  | |- good_strike (bullCallLongStrike _) => apply bullCallLongStrike_good
  | |- good_strike (bullCallShortStrike _) => apply bullCallShortStrike_good
  end; exact Hc.

Section QuotedLegs.

Variable U : nat -> R.
Variable c : Setup.
Variables (d v : R) (e : Z).

Hypothesis Hc : ladder_setup c.
Hypothesis Hd : dte c = Fin d.
Hypothesis Hlive : 0 < d.
Hypothesis Hv : iv c = Fin v.
Hypothesis Hvol : 0 < v.
Hypothesis He : primaryExpiry c = Some e.

(** A quote on a live contract respects the tick. *)
Lemma quote_floored k σ w isCall i :
  σ = Fin w -> 0 < w -> good_strike k ->
  exists p, price (fst (quote U c k σ isCall i)) = Fin p /\ 0.05 <= p.
Proof.
  intros -> Hw [s [-> Hk]]. unfold quote, spot. rewrite Hd. cbn [toNumber].
  rewrite calculateOptionPrice_live by (assumption || apply Hc).
  cbn [fst price]. eexists; split; [reflexivity | apply Rmax_r].
Qed.

Lemma straddle_volatility : nadd (iv c) (Fin 0.05) = Fin (v + 0.05).
Proof. rewrite Hv. reflexivity. Qed.

Ltac quoted_block :=
  unfold bind, ret, Math_random; cbv beta;
  repeat (match goal with
          | |- context [quote U c ?k (iv c) ?b ?n] =>
              let H := fresh "Hq" in
              assert (H := quote_floored k (iv c) v b n Hv Hvol ltac:(good_strikes Hc));
              destruct (quote U c k (iv c) b n) as [? ?]; cbn [fst] in H
          | |- context [quote U c ?k (nadd (iv c) (Fin 0.05)) ?b ?n] =>
              let H := fresh "Hq" in
              assert (H := quote_floored k _ (v + 0.05) b n straddle_volatility
                             ltac:(lra) ltac:(good_strikes Hc));
              destruct (quote U c k (nadd (iv c) (Fin 0.05)) b n) as [? ?]; cbn [fst] in H
          end; cbv beta).

Ltac legs_quoted :=
  cbn [fst]; repeat constructor; cbn [strike expiry premium leg];
  try (good_strikes Hc); try (rewrite He; eexists; reflexivity); assumption.

Lemma bullPutSpread_quoted i :
  Forall (fun s => Forall leg_quoted (legs s)) (fst (bullPutSpread U c i)).
Proof. unfold bullPutSpread. quoted_block. destruct (nle _ _); legs_quoted. Qed.

Lemma ironCondor_quoted i :
  Forall (fun s => Forall leg_quoted (legs s)) (fst (ironCondor U c i)).
Proof. unfold ironCondor. quoted_block. destruct (ngt _ _); legs_quoted. Qed.

Lemma cashSecuredPut_quoted i :
  Forall (fun s => Forall leg_quoted (legs s)) (fst (cashSecuredPut U c i)).
Proof. unfold cashSecuredPut. quoted_block. legs_quoted. Qed.

Lemma longStraddle_quoted i :
  Forall (fun s => Forall leg_quoted (legs s)) (fst (longStraddle U c i)).
Proof. unfold longStraddle. quoted_block. legs_quoted. Qed.

Lemma coveredCall_quoted i :
  Forall (fun s => Forall leg_quoted (legs s)) (fst (coveredCall U c i)).
Proof. unfold coveredCall. quoted_block. legs_quoted. Qed.

Lemma bearCallSpread_quoted i :
  Forall (fun s => Forall leg_quoted (legs s)) (fst (bearCallSpread U c i)).
Proof. unfold bearCallSpread. quoted_block. destruct (ngt _ _); legs_quoted. Qed.

Lemma bullCallSpread_quoted i :
  Forall (fun s => Forall leg_quoted (legs s)) (fst (bullCallSpread U c i)).
Proof. unfold bullCallSpread. quoted_block. destruct (_ && _); legs_quoted. Qed.

Lemma blocks_quoted i :
  Forall (fun s => Forall leg_quoted (legs s)) (fst (blocks U c i)).
Proof.
  apply blocks_Forall.
  - apply bullPutSpread_quoted.
  - apply ironCondor_quoted.
  - apply cashSecuredPut_quoted.
  - apply longStraddle_quoted.
  - apply coveredCall_quoted.
  - apply bearCallSpread_quoted.
  - apply bullCallSpread_quoted.
Qed.

End QuotedLegs.

(** *** A setup without expiry *)

Section VoidLegs.

Variable U : nat -> R.
Variable c : Setup.
Hypothesis Hd : dte c = NaN.
Hypothesis He : primaryExpiry c = None.

Lemma blocks_void i :
  map name (fst (blocks U c i))
    = ["Bull Put Spread"; "Cash Secured Put"; "Long Straddle"; "Covered Call"] /\
  Forall (fun s => Forall leg_void (legs s) /\ maxLoss s = NaN) (fst (blocks U c i)).
Proof.
  unfold blocks, bullPutSpread, ironCondor, cashSecuredPut, longStraddle, coveredCall,
    bearCallSpread, bullCallSpread, quote, bind, ret, Math_random.
  rewrite Hd, He.
  repeat (rewrite calculateOptionPrice_NaN_time;
          cbn [price greeks nsub nadd nlt nle ngt nge lift1 lift2 cmp2 andb];
          cbv beta iota).
  cbn [fst app map name].
  split; [reflexivity |].
  repeat constructor; cbn [legs leg expiry premium maxLoss];
    repeat match goal with |- context [nsub ?a NaN] => rewrite (nsub_NaN_r a) end;
    reflexivity.
Qed.

End VoidLegs.

(** *** Days to expiry used for pricing *)

Lemma daysUntil_bounds today now expDate :
  (today <= now < today + msPerDay)%Z ->
  exists k, daysUntil now (Some (isoDate expDate)) = Fin (IZR k) /\
            ((expDate - today) / msPerDay - 2 <= k <= (expDate - today) / msPerDay)%Z.
Proof.
  intros Hnow. eexists; split; [reflexivity |].
  unfold parseIsoDate, isoDate, Day, msPerDay in *. Z.div_mod_to_equations. lia.
Qed.

Lemma daysUntil_positive today now dte :
  (7 <= dte)%Z -> (now <= today + 5 * msPerDay)%Z ->
  exists k, daysUntil now (Some (isoDate (today + dte * msPerDay))) = Fin (IZR k) /\
            (0 < k)%Z.
Proof.
  intros Hd Hnow. eexists; split; [reflexivity |].
  unfold parseIsoDate, isoDate, Day, msPerDay in *. Z.div_mod_to_equations. nia.
Qed.

Lemma volatility_draw U i :
  unit_draws U ->
  nadd (Fin 0.35) (nmul (Fin (U i)) (Fin 0.15)) = Fin (0.35 + U i * 0.15) /\
  0.35 <= 0.35 + U i * 0.15 < 0.5.
Proof. intros HU. split; [reflexivity |]. specialize (HU i). lra. Qed.

(** On a regular window and a positive spot price every leg is quoted. *)
Lemma generateStrategies_quoted U tz today now spot ticker minDte maxDte i :
  unit_draws U -> 0 < spot -> regular_window minDte maxDte ->
  (now <= today + 5 * msPerDay)%Z ->
  exists synth,
    generateStrategies U tz today now spot ticker minDte maxDte = Some synth /\
    Forall (fun s => Forall leg_quoted (legs s)) (fst (synth i)).
Proof.
  intros HU Hspot [Hlo [Hhi Hwide]] Hnow.
  destruct (calendar_regular tz today minDte maxDte Hlo Hhi Hwide)
    as [dte [rest [E [_ [_ H7]]]]].
  unfold generateStrategies. rewrite E. eexists; split; [reflexivity |].
  unfold bind, Math_random. cbn [nth_error].
  destruct (daysUntil_positive today now dte ltac:(lia) Hnow) as [k [Ek Hk]].
  destruct (volatility_draw U i HU) as [Ev Hv].
  eapply blocks_quoted with (d := IZR k) (v := 0.35 + U i * 0.15).
  - split; [exact Hspot | reflexivity].
  - exact Ek.
  - apply (IZR_lt 0). exact Hk.
  - exact Ev.
  - lra.
  - reflexivity.
Qed.

Section Numbers.

Variable U : nat -> R.
Variable c : Setup.
Variables (d v : R).

Hypothesis Hc : ladder_setup c.
Hypothesis Hd : dte c = Fin d.
Hypothesis Hlive : 0 < d.
Hypothesis Hv : iv c = Fin v.
Hypothesis Hvol : 0 < v.

(** A quote on a live contract consists of numbers and costs one draw. *)
Lemma quote_numbers k σ w isCall i :
  σ = Fin w -> 0 < w -> 0 < k ->
  exists p a b g t,
    quote U c (Some k) σ isCall i
    = (mkQuote (Fin p) (mkGreeks (Fin a) (Fin b) (Fin g) (Fin t)), S i).
Proof.
  intros -> Hw Hk. unfold quote, spot. rewrite Hd. cbn [toNumber].
  rewrite calculateOptionPrice_live by (assumption || apply Hc).
  eexists _, _, _, _, _. reflexivity.
Qed.

Ltac name_strike lem :=
  let s := fresh "k" in let E := fresh "Ek" in let H := fresh "Hk" in
  destruct (lem c Hc) as [s [E H]]; rewrite ?E.

Ltac name_strikes :=
  name_strike bullPutShortStrike_good; name_strike bullPutLongStrike_good;
  name_strike icCallShortStrike_good; name_strike icCallLongStrike_good;
  name_strike icPutShortStrike_good; name_strike icPutLongStrike_good;
  name_strike cspStrike_good; name_strike straddleStrike_good;
  name_strike ccStrike_good; name_strike bearCallShortStrike_good;
  name_strike bearCallLongStrike_good; name_strike bullCallLongStrike_good;
  name_strike bullCallShortStrike_good.

Ltac name_quotes :=
  repeat (match goal with
          | |- context [quote U c (Some ?k) (iv c) ?b ?n] =>
              let E := fresh "Eq" in
              destruct (quote_numbers k (iv c) v b n Hv Hvol ltac:(assumption))
                as [? [? [? [? [? E]]]]];
              rewrite E; clear E
          | |- context [quote U c (Some ?k) (nadd (iv c) (Fin 0.05)) ?b ?n] =>
              let E := fresh "Eq" in
              destruct (quote_numbers k _ (v + 0.05) b n
                          (straddle_volatility c v Hv) ltac:(lra) ltac:(assumption))
                as [? [? [? [? [? E]]]]];
              rewrite E; clear E
          end; cbv beta iota).

Ltac numbers_done :=
  cbn [fst]; repeat constructor;
  cbn [confidence maxProfit maxLoss capitalRequired probabilityOfProfit breakEvenPoints
       strategy_greeks legs leg quantity premium leg_delta leg_gamma leg_theta leg_vega
       price greeks delta gamma theta vega greeks_sub greeks_add toNumber spot];
  js_eval; eexists; reflexivity.

Lemma bullPutSpread_numbers i : Forall all_numbers (fst (bullPutSpread U c i)).
Proof.
  unfold bullPutSpread, bind, ret, Math_random. name_strikes. name_quotes.
  destruct (nle _ _); numbers_done.
Qed.

Lemma ironCondor_numbers i : Forall all_numbers (fst (ironCondor U c i)).
Proof.
  unfold ironCondor, bind, ret, Math_random. name_strikes. name_quotes.
  destruct (ngt _ _); numbers_done.
Qed.

Lemma cashSecuredPut_numbers i : Forall all_numbers (fst (cashSecuredPut U c i)).
Proof.
  unfold cashSecuredPut, bind, ret, Math_random. name_strikes. name_quotes.
  numbers_done.
Qed.

Lemma longStraddle_numbers i : Forall all_numbers (fst (longStraddle U c i)).
Proof.
  unfold longStraddle, bind, ret, Math_random. name_strikes. name_quotes.
  numbers_done.
Qed.

Lemma coveredCall_numbers i : Forall all_numbers (fst (coveredCall U c i)).
Proof.
  unfold coveredCall, bind, ret, Math_random. name_strikes. name_quotes.
  numbers_done.
Qed.

Lemma bearCallSpread_numbers i : Forall all_numbers (fst (bearCallSpread U c i)).
Proof.
  unfold bearCallSpread, bind, ret, Math_random. name_strikes. name_quotes.
  destruct (ngt _ _); numbers_done.
Qed.

Lemma bullCallSpread_numbers i : Forall all_numbers (fst (bullCallSpread U c i)).
Proof.
  unfold bullCallSpread, bind, ret, Math_random. name_strikes. name_quotes.
  destruct (_ && _); numbers_done.
Qed.

Lemma blocks_numbers i : Forall all_numbers (fst (blocks U c i)).
Proof.
  apply blocks_Forall.
  - apply bullPutSpread_numbers.
  - apply ironCondor_numbers.
  - apply cashSecuredPut_numbers.
  - apply longStraddle_numbers.
  - apply coveredCall_numbers.
  - apply bearCallSpread_numbers.
  - apply bullCallSpread_numbers.
Qed.

End Numbers.

(** On a regular window and a positive spot price no figure of the
    catalog is [NaN]. *)
Lemma generateStrategies_numbers U tz today now spot ticker minDte maxDte i :
  unit_draws U -> 0 < spot -> regular_window minDte maxDte ->
  (now <= today + 5 * msPerDay)%Z ->
  exists synth,
    generateStrategies U tz today now spot ticker minDte maxDte = Some synth /\
    Forall all_numbers (fst (synth i)).
Proof.
  intros HU Hspot [Hlo [Hhi Hwide]] Hnow.
  destruct (calendar_regular tz today minDte maxDte Hlo Hhi Hwide)
    as [dte [rest [E [_ [_ H7]]]]].
  unfold generateStrategies. rewrite E. eexists; split; [reflexivity |].
  unfold bind, Math_random. cbn [nth_error].
  destruct (daysUntil_positive today now dte ltac:(lia) Hnow) as [k [Ek Hk]].
  destruct (volatility_draw U i HU) as [Ev Hv].
  eapply blocks_numbers with (d := IZR k) (v := 0.35 + U i * 0.15).
  - split; [exact Hspot | reflexivity].
  - exact Ek.
  - apply (IZR_lt 0). exact Hk.
  - exact Ev.
  - lra.
Qed.

(** The DTE the synthesizer prices with is not the DTE the calendar
    tested: it is counted from the UTC midnight of the printed date.
    On a host at a constant offset from UTC (no daylight saving), when
    the two clock readings are less than a day apart, it is a whole
    number between [minDte - 2] and [maxDte], and at least 5. *)
Theorem pricing_dte_window tz today now minDte maxDte :
  (today <= now < today + msPerDay)%Z ->
  exists l, getExpirationDates tz today minDte maxDte = Some l /\
            forall s, nth_error l 0 = Some s ->
                      exists k, daysUntil now (Some s) = Fin (IZR k) /\
                                (5 <= k)%Z /\ (minDte - 2 <= k <= maxDte)%Z.
Proof.
  intros Hnow.
  destruct (calendar_week_away_all tz today minDte maxDte) as [l [E [Hl _]]].
  exists l. split; [exact E |]. intros s Hs.
  apply nth_error_In in Hs. rewrite Forall_forall in Hl.
  destruct (Hl s Hs) as [e [-> [_ [H7 Hwin]]]].
  destruct (daysUntil_bounds today now e Hnow) as [k [Ek Hk]].
  exists k. split; [exact Ek | lia].
Qed.

Lemma pricing_dte_window_witness :
  exists l, getExpirationDates 32400000 monday_morning 32 45 = Some l /\
            forall s, nth_error l 0 = Some s ->
                      exists k, daysUntil (monday_morning + 250) (Some s) = Fin (IZR k) /\
                                (5 <= k)%Z /\ (32 - 2 <= k <= 45)%Z.
Proof.
  apply (pricing_dte_window 32400000 monday_morning (monday_morning + 250) 32 45).
  unfold msPerDay. lia.
Defined.

(** On a host at a constant offset from UTC (no daylight saving) a
    request whose window closes before day 7 always gets the same four
    strategies, whatever the spot price, the weekday and the draws:
    Bull Put Spread, Cash Secured Put, Long Straddle and Covered Call,
    every leg without expiry date and with a premium that is not a
    number, every [maxLoss] not a number.  The three spreads guarded by
    [> threshold] are left out. *)
Theorem short_window_catalog U tz today now spot ticker minDte maxDte i :
  (maxDte < 7)%Z ->
  exists synth,
    generateStrategies U tz today now spot ticker minDte maxDte = Some synth /\
    map name (fst (synth i))
      = ["Bull Put Spread"; "Cash Secured Put"; "Long Straddle"; "Covered Call"] /\
    Forall (fun s => Forall leg_void (legs s) /\ maxLoss s = NaN) (fst (synth i)).
Proof.
  intros Hmax.
  destruct (calendar_week_away_all tz today minDte maxDte) as [l [E [_ Hl]]].
  rewrite (Hl Hmax) in E.
  unfold generateStrategies. rewrite E. eexists; split; [reflexivity |].
  unfold bind, Math_random. cbn [nth_error daysUntil].
  apply blocks_void; reflexivity.
Qed.

Lemma short_window_catalog_witness :
  exists synth,
    generateStrategies (fun _ => 0.5) 0 monday_morning monday_morning 100 "AAPL" 0 6
      = Some synth /\
    map name (fst (synth 0%nat))
      = ["Bull Put Spread"; "Cash Secured Put"; "Long Straddle"; "Covered Call"] /\
    Forall (fun s => Forall leg_void (legs s) /\ maxLoss s = NaN) (fst (synth 0%nat)).
Proof.
  apply (short_window_catalog (fun _ => 0.5) 0 monday_morning monday_morning 100 "AAPL" 0 6).
  lia.
Defined.

(** A request with a positive spot price and a regular window, served
    on a host at a constant offset from UTC (no daylight saving) with
    draws in [0, 1) and a clock that moves at most five days between the
    calendar and the synthesizer: every leg of every strategy has a
    positive strike, an expiry date and a premium that is a number of at
    least 0.05, and no figure of any strategy (confidence, profit, loss,
    capital, probability, break-even points, Greeks of the strategy and
    of its legs) is [NaN]. *)
Theorem regular_request_quoted U tz today now spot ticker minDte maxDte i :
  unit_draws U -> 0 < spot -> regular_window minDte maxDte ->
  (now <= today + 5 * msPerDay)%Z ->
  exists synth,
    generateStrategies U tz today now spot ticker minDte maxDte = Some synth /\
    Forall (fun s => Forall leg_quoted (legs s) /\ all_numbers s) (fst (synth i)).
Proof.
  intros HU Hpos Hwin Hnow.
  destruct (generateStrategies_quoted U tz today now spot ticker minDte maxDte i
              HU Hpos Hwin Hnow) as [synth [Es Hq]].
  destruct (generateStrategies_numbers U tz today now spot ticker minDte maxDte i
              HU Hpos Hwin Hnow) as [synth' [Es' Hn]].
  assert (synth' = synth) by congruence. subst synth'.
  exists synth. split; [exact Es |]. apply Forall_and; assumption.
Qed.

Lemma regular_request_quoted_witness :
  exists synth,
    generateStrategies (fun _ => 0.5) 32400000 monday_morning
                       (monday_morning + 3) 237.88 "AAPL" 30 45 = Some synth /\
    Forall (fun s => Forall leg_quoted (legs s) /\ all_numbers s) (fst (synth 0%nat)).
Proof.
  apply (regular_request_quoted (fun _ => 0.5) 32400000 monday_morning
           (monday_morning + 3) 237.88 "AAPL" 30 45 0%nat).
  - intros n. lra.
  - lra.
  - unfold regular_window. lia.
  - unfold msPerDay. lia.
Defined.

(* ================================================================= *)
(** ** The templates, their put side and their figures *)

(** *** The two lowest rungs *)

Lemma kept_indices_head k :
  (0 <= k)%Z ->
  exists rest, kept_indices k
               = (Z.max (-6) (1 - k) :: (Z.max (-6) (1 - k) + 1) :: rest)%Z.
Proof.
  intros Hk. destruct (Z_le_gt_dec 7 k) as [H7 | H7].
  - rewrite Z.max_l by lia. unfold kept_indices, loop_indices. cbn [filter].
    rewrite !(proj2 (Z.ltb_lt _ _)) by lia. eexists; reflexivity.
  - assert (C : (k = 0 \/ k = 1 \/ k = 2 \/ k = 3 \/ k = 4 \/ k = 5 \/ k = 6)%Z) by lia.
    repeat (destruct C as [-> | C]); try subst k; eexists; vm_compute; reflexivity.
Qed.

Lemma ladder_head spot :
  0 < spot ->
  exists rest,
    generateStrikes spot
    = IZR (Z.max (base_index spot - 6) 1) * strike_interval spot
      :: (IZR (Z.max (base_index spot - 6) 1) * strike_interval spot + strike_interval spot)
      :: rest.
Proof.
  intros Hspot. rewrite generateStrikes_closed.
  destruct (kept_indices_head _ (base_index_nonneg _ Hspot)) as [rest ->].
  cbn [map]. eexists. f_equal; [| f_equal].
  - f_equal. f_equal. lia.
  - replace (base_index spot + (Z.max (-6) (1 - base_index spot) + 1))%Z
      with (Z.max (base_index spot - 6) 1 + 1)%Z by lia.
    rewrite plus_IZR. ring.
Qed.

(** The lowest rung is more than 7% below a spot price between 2.7 and
    1960. *)
Lemma lowest_rung_far spot :
  2.7 <= spot <= 1960 ->
  0 < IZR (Z.max (base_index spot - 6) 1) * strike_interval spot < spot * 0.93.
Proof.
  intros Hspot. pose proof (strike_interval_pos spot) as Hiv.
  pose proof (base_index_bounds spot) as [Hlo _].
  destruct (Z.max_spec (base_index spot - 6) 1) as [[Hk ->] | [Hk ->]].
  - (* at most six rungs below the base: the lowest is one interval *)
    assert (Hk' : IZR (base_index spot) < 7) by (apply (IZR_lt _ 7); lia).
    destruct (strike_interval_cases spot) as [[H E] | [[H E] | [[H E] | [H E]]]];
      rewrite E in *; lra.
  - assert (Hk' : 7 <= IZR (base_index spot)) by (apply (IZR_le 7); lia).
    rewrite minus_IZR.
    destruct (strike_interval_cases spot) as [[H E] | [[H E] | [[H E] | [H E]]]];
      rewrite E in *; lra.
Qed.

Section PutSide.

Variable c : Setup.
Hypothesis Hc : ladder_setup c.
Hypothesis Hspot : 2.7 <= currentPrice c <= 1960.

(** A put strike looked up below [spot * factor], [factor >= 0.93]: the
    lowest rung. *)
Lemma pick_lowest factor i :
  0.93 <= factor ->
  pick c (fun s => nlt s (nmul (spot c) (Fin factor))) i
  = nth_error (strikes c) 0 /\
  exists lo rest, strikes c = lo :: (lo + strike_interval (currentPrice c)) :: rest /\ 0 < lo.
Proof.
  intros Hf. destruct Hc as [Hpos E].
  destruct (ladder_head _ Hpos) as [rest Hl].
  pose proof (lowest_rung_far _ Hspot) as [Hlo Hfar].
  rewrite <- E in Hl. split.
  - unfold pick. rewrite Hl. cbn [find nth_error spot nmul nlt lift2 cmp2].
    rewrite Rltb_true by nra. now apply orElse_positive.
  - eexists _, _. split; [exact Hl | exact Hlo].
Qed.

(** The long put, looked up more than 10 below the lowest rung, is not
    found: the fallback [strikes[1]] is the next rung up. *)
Lemma pick_below_lowest lo rest :
  strikes c = lo :: (lo + strike_interval (currentPrice c)) :: rest ->
  pick c (fun s => nlt s (nsub (toNumber (Some lo)) (Fin 10))) 1
  = Some (lo + strike_interval (currentPrice c)).
Proof.
  intros Hl. unfold pick.
  pose proof (setup_ascending c Hc) as Hasc. pose proof (setup_positive c Hc) as Hp.
  pose proof (strike_interval_pos (currentPrice c)) as Hiv.
  rewrite Hl in *. cbn [nth_error].
  destruct (find _ _) as [s |] eqn:Ef.
  - apply find_some in Ef as [Hin Hs]. cbn in Hs.
    destruct (Rltb_spec s (lo - 10)) as [Hlt | ]; [| discriminate].
    apply StronglySorted_inv in Hasc as [_ Hall]. rewrite Forall_forall in Hall.
    destruct Hin as [<- | Hin]; [lra | specialize (Hall s Hin); lra].
  - reflexivity.
Qed.

End PutSide.

(** *** What the guarded spreads report *)

Lemma Rround_floor x z : IZR z <= x -> IZR z <= Rround x.
Proof.
  intros H. unfold Rround. apply IZR_le. apply Zfloor_lub. lra.
Qed.

Lemma Rround_neg x : x < - (1 / 2) -> Rround x < 0.
Proof.
  intros H. unfold Rround. apply (IZR_lt _ 0).
  pose proof (Zfloor_bound (x + 1 / 2)) as [Hlo _].
  assert (IZR (Zfloor (x + 1 / 2)) < 0) by lra.
  apply lt_IZR. exact H0.
Qed.

Lemma Rround_nonneg x : 0 <= x -> 0 <= Rround x.
Proof. intros H. apply (Rround_floor x 0). exact H. Qed.

Section Reports.

Variable U : nat -> R.
Variable c : Setup.

Lemma ngt_Fin (a : number) y :
  ngt a (Fin y) = true -> exists x, a = Fin x /\ y < x.
Proof.
  destruct a as [x |]; cbn; [| discriminate].
  destruct (Rltb_spec y x); [| discriminate]. intros _. now exists x.
Qed.

Lemma ironCondor_profit i :
  Forall (fun s => exists m, maxProfit s = Fin m /\ 10 <= m) (fst (ironCondor U c i)).
Proof.
  unfold ironCondor. run_block.
  destruct (ngt _ _) eqn:E; cbn [fst]; repeat constructor. cbn [maxProfit].
  apply ngt_Fin in E as [x [-> Hx]]. cbn. eexists; split; [reflexivity |].
  apply (Rround_floor _ 10). lra.
Qed.

Lemma bearCallSpread_profit i :
  Forall (fun s => exists m, maxProfit s = Fin m /\ 5 <= m) (fst (bearCallSpread U c i)).
Proof.
  unfold bearCallSpread. run_block.
  destruct (ngt _ _) eqn:E; cbn [fst]; repeat constructor. cbn [maxProfit].
  apply ngt_Fin in E as [x [-> Hx]]. cbn. eexists; split; [reflexivity |].
  apply (Rround_floor _ 5). lra.
Qed.

Lemma bullCallSpread_profit i :
  Forall (fun s => (exists m, maxProfit s = Fin m /\ 10 <= m) /\
                   (exists l, maxLoss s = Fin l /\ l <= 0 /\ capitalRequired s = Fin (- l)))
         (fst (bullCallSpread U c i)).
Proof.
  unfold bullCallSpread. run_block.
  destruct (_ && _) eqn:E; cbn [fst]; repeat constructor;
    apply andb_prop in E as [E1 E2]; cbn [maxProfit maxLoss capitalRequired].
  - apply ngt_Fin in E2 as [x [-> Hx]]. cbn. eexists; split; [reflexivity |].
    apply (Rround_floor _ 10). lra.
  - apply ngt_Fin in E1 as [x [-> Hx]]. cbn. eexists; split; [reflexivity |].
    pose proof (Rround_nonneg (x * 100) ltac:(lra)). split; [lra | f_equal; lra].
Qed.

End Reports.

Section Catalog.

Variable U : nat -> R.
Variable c : Setup.

(** The catalog is the concatenation of the seven outputs. *)
Lemma blocks_split i :
  exists i1 i2 i3 i4 i5 i6,
    fst (blocks U c i)
    = (fst (bullPutSpread U c i) ++ fst (ironCondor U c i1) ++
       fst (cashSecuredPut U c i2) ++ fst (longStraddle U c i3) ++
       fst (coveredCall U c i4) ++ fst (bearCallSpread U c i5) ++
       fst (bullCallSpread U c i6))%list.
Proof.
  unfold blocks, bind, ret.
  destruct (bullPutSpread U c i) as [s1 i1]. exists i1.
  destruct (ironCondor U c i1) as [s2 i2]. exists i2.
  destruct (cashSecuredPut U c i2) as [s3 i3]. exists i3.
  destruct (longStraddle U c i3) as [s4 i4]. exists i4.
  destruct (coveredCall U c i4) as [s5 i5]. exists i5.
  destruct (bearCallSpread U c i5) as [s6 i6]. exists i6.
  destruct (bullCallSpread U c i6) as [s7 i7]. reflexivity.
Qed.

Lemma bullPutSpread_shape i :
  exists b : bool, map shape (fst (bullPutSpread U c i))
                   = if b then [("1", "Bull Put Spread", "bullish", 2%nat, 1%nat)] else [].
Proof.
  unfold bullPutSpread. run_block.
  destruct (nle _ _); [exists false | exists true]; reflexivity.
Qed.

Lemma ironCondor_shape i :
  exists b : bool, map shape (fst (ironCondor U c i))
                   = if b then [("2", "Iron Condor", "neutral", 4%nat, 2%nat)] else [].
Proof.
  unfold ironCondor. run_block.
  destruct (ngt _ _); [exists true | exists false]; reflexivity.
Qed.

Lemma cashSecuredPut_shape i :
  map shape (fst (cashSecuredPut U c i))
  = [("3", "Cash Secured Put", "bullish", 1%nat, 1%nat)].
Proof. unfold cashSecuredPut. run_block. reflexivity. Qed.

Lemma longStraddle_shape i :
  map shape (fst (longStraddle U c i))
  = [("4", "Long Straddle", "volatility", 2%nat, 2%nat)].
Proof. unfold longStraddle. run_block. reflexivity. Qed.

Lemma coveredCall_shape i :
  map shape (fst (coveredCall U c i))
  = [("5", "Covered Call", "neutral", 1%nat, 1%nat)].
Proof. unfold coveredCall. run_block. reflexivity. Qed.

Lemma bearCallSpread_shape i :
  exists b : bool, map shape (fst (bearCallSpread U c i))
                   = if b then [("6", "Bear Call Spread", "bearish", 2%nat, 1%nat)] else [].
Proof.
  unfold bearCallSpread. run_block.
  destruct (ngt _ _); [exists true | exists false]; reflexivity.
Qed.

Lemma bullCallSpread_shape i :
  exists b : bool, map shape (fst (bullCallSpread U c i))
                   = if b then [("7", "Bull Call Spread", "bullish", 2%nat, 1%nat)] else [].
Proof.
  unfold bullCallSpread. run_block.
  destruct (_ && _); [exists true | exists false]; reflexivity.
Qed.

Lemma blocks_shape i :
  exists b1 b2 b6 b7, map shape (fst (blocks U c i)) = guarded b1 b2 b6 b7.
Proof.
  destruct (blocks_split i) as [i1 [i2 [i3 [i4 [i5 [i6 ->]]]]]].
  rewrite !map_app.
  destruct (bullPutSpread_shape i) as [b1 ->].
  destruct (ironCondor_shape i1) as [b2 ->].
  rewrite cashSecuredPut_shape, longStraddle_shape, coveredCall_shape.
  destruct (bearCallSpread_shape i5) as [b6 ->].
  destruct (bullCallSpread_shape i6) as [b7 ->].
  exists b1, b2, b6, b7. destruct b1, b2, b6, b7; reflexivity.
Qed.

End Catalog.

Section UpsideDown.

Variable U : nat -> R.
Variable c : Setup.
Hypothesis Hc : ladder_setup c.
Hypothesis Hspot : 2.7 <= currentPrice c <= 1960.

Lemma put_strikes :
  exists lo,
    nth_error (strikes c) 0 = Some lo /\ 0 < lo /\
    bullPutShortStrike c = Some lo /\
    bullPutLongStrike c = Some (lo + strike_interval (currentPrice c)) /\
    icPutShortStrike c = Some lo /\
    icPutLongStrike c = Some (lo + strike_interval (currentPrice c)) /\
    cspStrike c = Some lo.
Proof.
  destruct (pick_lowest c Hc Hspot 0.93 2 ltac:(lra)) as [E [lo [rest [Hl Hlo]]]].
  destruct (pick_lowest c Hc Hspot 0.95 3 ltac:(lra)) as [E' _].
  assert (E0 : nth_error (strikes c) 0 = Some lo) by (rewrite Hl; reflexivity).
  assert (Es : bullPutShortStrike c = Some lo) by (unfold bullPutShortStrike; congruence).
  assert (Ei : icPutShortStrike c = Some lo) by (unfold icPutShortStrike; congruence).
  exists lo. repeat split; try assumption.
  - unfold bullPutLongStrike. rewrite Es. now apply (pick_below_lowest c Hc lo rest).
  - unfold icPutLongStrike. rewrite Ei. now apply (pick_below_lowest c Hc lo rest).
  - unfold cspStrike. congruence.
Qed.

Lemma nle_Fin_false (a : number) x y : a = Fin x -> nle a (Fin y) = false -> y < x.
Proof.
  intros ->. cbn. destruct (Rleb_spec x y); [discriminate | intros _; lra].
Qed.

(** A Bull Put Spread on a credit that is a number: the difference of
    the strikes is minus one interval, so [maxLoss] comes out positive. *)
Lemma bullPutSpread_max_loss i :
  Forall (fun s => forall x, net_credit s = Fin x ->
                             0.05 < x /\ exists m, maxLoss s = Fin m /\ 0 < m)
         (fst (bullPutSpread U c i)).
Proof.
  destruct put_strikes as [lo [_ [Hlo [Es [El _]]]]].
  pose proof (strike_interval_pos (currentPrice c)) as Hiv.
  unfold bullPutSpread. rewrite Es, El. run_block.
  destruct (nle _ _) eqn:E; cbn [fst]; constructor; [| constructor].
  cbn [net_credit legs leg premium maxLoss]. intros x Hx.
  pose proof (nle_Fin_false _ _ _ Hx E) as Hgt. rewrite Hx. cbn.
  split; [exact Hgt |]. eexists; split; [reflexivity |].
  assert (H : Rround ((lo - (lo + strike_interval (currentPrice c)) - x) * 100) < 0)
    by (apply Rround_neg; nra).
  lra.
Qed.

Lemma bullPutSpread_put_legs lo i :
  nth_error (strikes c) 0 = Some lo ->
  Forall (fun s => map trade (legs s)
                   = [("put", "sell", Some lo);
                      ("put", "buy", Some (lo + strike_interval (currentPrice c)))])
         (fst (bullPutSpread U c i)).
Proof.
  intros E0. destruct put_strikes as [lo' [E0' [_ [Es [El _]]]]].
  assert (lo' = lo) by congruence. subst lo'.
  unfold bullPutSpread. rewrite Es, El. run_block.
  destruct (nle _ _); cbn [fst]; repeat constructor.
Qed.

Lemma ironCondor_put_legs lo i :
  nth_error (strikes c) 0 = Some lo ->
  Forall (fun s => skipn 2 (map trade (legs s))
                   = [("put", "sell", Some lo);
                      ("put", "buy", Some (lo + strike_interval (currentPrice c)))])
         (fst (ironCondor U c i)).
Proof.
  intros E0. destruct put_strikes as [lo' [E0' [_ [_ [_ [Es [El _]]]]]]].
  assert (lo' = lo) by congruence. subst lo'.
  unfold ironCondor. rewrite Es, El. run_block.
  destruct (ngt _ _); cbn [fst]; repeat constructor.
Qed.

Lemma cashSecuredPut_put_legs lo i :
  nth_error (strikes c) 0 = Some lo ->
  Forall (fun s => map trade (legs s) = [("put", "sell", Some lo)])
         (fst (cashSecuredPut U c i)).
Proof.
  intros E0. destruct put_strikes as [lo' [E0' [_ [_ [_ [_ [_ Es]]]]]]].
  assert (lo' = lo) by congruence. subst lo'.
  unfold cashSecuredPut. rewrite Es. run_block. repeat constructor.
Qed.

End UpsideDown.

Section Names.

Variable U : nat -> R.
Variable c : Setup.

Lemma bullPutSpread_name i :
  Forall (fun s => name s = "Bull Put Spread") (fst (bullPutSpread U c i)).
Proof. unfold bullPutSpread. run_block. destruct (nle _ _); repeat constructor. Qed.

Lemma ironCondor_name i :
  Forall (fun s => name s = "Iron Condor") (fst (ironCondor U c i)).
Proof. unfold ironCondor. run_block. destruct (ngt _ _); repeat constructor. Qed.

Lemma cashSecuredPut_name i :
  Forall (fun s => name s = "Cash Secured Put") (fst (cashSecuredPut U c i)).
Proof. unfold cashSecuredPut. run_block. repeat constructor. Qed.

Lemma longStraddle_name i :
  Forall (fun s => name s = "Long Straddle") (fst (longStraddle U c i)).
Proof. unfold longStraddle. run_block. repeat constructor. Qed.

Lemma coveredCall_name i :
  Forall (fun s => name s = "Covered Call") (fst (coveredCall U c i)).
Proof. unfold coveredCall. run_block. repeat constructor. Qed.

Lemma bearCallSpread_name i :
  Forall (fun s => name s = "Bear Call Spread") (fst (bearCallSpread U c i)).
Proof. unfold bearCallSpread. run_block. destruct (ngt _ _); repeat constructor. Qed.

Lemma bullCallSpread_name i :
  Forall (fun s => name s = "Bull Call Spread") (fst (bullCallSpread U c i)).
Proof. unfold bullCallSpread. run_block. destruct (_ && _); repeat constructor. Qed.

(** What holds of the strategies of one block holds of the strategies of
    that block's name in the catalog. *)
Lemma Forall_named (P : Strategy -> Prop) nm nm' l :
  Forall (fun s => name s = nm') l ->
  (nm = nm' -> Forall P l) ->
  Forall (fun s => name s = nm -> P s) l.
Proof.
  intros Hn HP. apply Forall_forall. intros s Hs Es.
  rewrite Forall_forall in Hn. specialize (Hn s Hs).
  assert (E : nm = nm') by congruence.
  specialize (HP E). rewrite Forall_forall in HP. now apply HP.
Qed.

End Names.

(** Whatever the inputs, the catalog consists of templates of the source
    in their order: Cash Secured Put, Long Straddle and Covered Call are
    always there, each of the four spreads is there or not; ids, names,
    categories and the numbers of legs and of break-even points are
    those of the templates.  So a catalog has between three and seven
    strategies and no two of them share an id. *)
Theorem catalog_shape U tz today now spot ticker minDte maxDte i :
  exists synth,
    generateStrategies U tz today now spot ticker minDte maxDte = Some synth /\
    (exists b1 b2 b6 b7, map shape (fst (synth i)) = guarded b1 b2 b6 b7) /\
    (3 <= List.length (fst (synth i)) <= 7)%nat /\
    NoDup (map id (fst (synth i))).
Proof.
  destruct (generateStrategies_run U tz today now spot ticker minDte maxDte)
    as [l [_ E]].
  eexists; split; [exact E |]. cbv beta.
  match goal with |- context [blocks ?U ?c ?i] =>
    destruct (blocks_shape U c i) as [b1 [b2 [b6 [b7 Hs]]]];
    generalize dependent (fst (blocks U c i)) end.
  intros catalog Hs.
  assert (Hid : map id catalog = map (fun t => fst (fst (fst (fst t)))) (guarded b1 b2 b6 b7)).
  { rewrite <- Hs, map_map. reflexivity. }
  split; [now exists b1, b2, b6, b7 |]. split.
  - rewrite <- (length_map shape), Hs. destruct b1, b2, b6, b7; cbn; lia.
  - rewrite Hid. destruct b1, b2, b6, b7; cbn;
      repeat (constructor; [cbn; intuition discriminate |]); constructor.
Qed.

Ltac by_name name_lemma legs_lemma :=
  eapply Forall_named;
  [ apply name_lemma
  | let En := fresh "En" in intros En; (discriminate En || apply legs_lemma) ].

(** For a spot price between 2.7 and 1960 the lowest rung of the ladder
    lies more than 7% below the spot, and [find] returns it: the put
    sold by the Bull Put Spread, by the Iron Condor and by the Cash
    Secured Put is the lowest rung, and the put bought by the two spreads
    is the rung above it, one interval higher than the put sold. *)
Theorem put_side_strikes U tz today now spot ticker minDte maxDte i :
  2.7 <= spot <= 1960 ->
  exists synth lo,
    generateStrategies U tz today now spot ticker minDte maxDte = Some synth /\
    nth_error (generateStrikes spot) 0 = Some lo /\ 0 < lo < spot * 0.93 /\
    Forall (fun s =>
              (name s = "Bull Put Spread" ->
               map trade (legs s)
               = [("put", "sell", Some lo);
                  ("put", "buy", Some (lo + strike_interval spot))]) /\
              (name s = "Iron Condor" ->
               skipn 2 (map trade (legs s))
               = [("put", "sell", Some lo);
                  ("put", "buy", Some (lo + strike_interval spot))]) /\
              (name s = "Cash Secured Put" ->
               map trade (legs s) = [("put", "sell", Some lo)]))
           (fst (synth i)).
Proof.
  intros Hspot.
  destruct (generateStrategies_run U tz today now spot ticker minDte maxDte)
    as [l [_ E]].
  assert (Hpos : 0 < spot) by lra.
  destruct (ladder_head spot Hpos) as [rest Hl].
  pose proof (lowest_rung_far spot Hspot) as Hfar.
  eexists. exists (IZR (Z.max (base_index spot - 6) 1) * strike_interval spot).
  split; [exact E |]. split; [rewrite Hl; reflexivity |]. split; [exact Hfar |].
  cbv beta.
  match goal with |- context [blocks ?U ?c ?i] =>
    assert (Hc : ladder_setup c) by (split; [exact Hpos | reflexivity]);
    assert (Hs : 2.7 <= currentPrice c <= 1960) by exact Hspot;
    assert (E0 : nth_error (strikes c) 0
                 = Some (IZR (Z.max (base_index spot - 6) 1) * strike_interval spot))
      by (cbn [strikes]; rewrite Hl; reflexivity);
    pose proof (fun k => bullPutSpread_put_legs U c Hc Hs _ k E0) as L1;
    pose proof (fun k => ironCondor_put_legs U c Hc Hs _ k E0) as L2;
    pose proof (fun k => cashSecuredPut_put_legs U c Hc Hs _ k E0) as L3
  end.
  cbn [currentPrice] in L1, L2, L3.
  apply blocks_Forall; intros j; repeat apply Forall_and.
  - by_name bullPutSpread_name L1.
  - by_name bullPutSpread_name L2.
  - by_name bullPutSpread_name L3.
  - by_name ironCondor_name L1.
  - by_name ironCondor_name L2.
  - by_name ironCondor_name L3.
  - by_name cashSecuredPut_name L1.
  - by_name cashSecuredPut_name L2.
  - by_name cashSecuredPut_name L3.
  - by_name longStraddle_name L1.
  - by_name longStraddle_name L2.
  - by_name longStraddle_name L3.
  - by_name coveredCall_name L1.
  - by_name coveredCall_name L2.
  - by_name coveredCall_name L3.
  - by_name bearCallSpread_name L1.
  - by_name bearCallSpread_name L2.
  - by_name bearCallSpread_name L3.
  - by_name bullCallSpread_name L1.
  - by_name bullCallSpread_name L2.
  - by_name bullCallSpread_name L3.
Qed.

Lemma put_side_strikes_witness :
  exists synth lo,
    generateStrategies (fun _ => 0.5) 0 monday_morning monday_morning 237.88 "AAPL" 30 45
      = Some synth /\
    nth_error (generateStrikes 237.88) 0 = Some lo /\ 0 < lo < 237.88 * 0.93 /\
    Forall (fun s =>
              (name s = "Bull Put Spread" ->
               map trade (legs s)
               = [("put", "sell", Some lo);
                  ("put", "buy", Some (lo + strike_interval 237.88))]) /\
              (name s = "Iron Condor" ->
               skipn 2 (map trade (legs s))
               = [("put", "sell", Some lo);
                  ("put", "buy", Some (lo + strike_interval 237.88))]) /\
              (name s = "Cash Secured Put" ->
               map trade (legs s) = [("put", "sell", Some lo)]))
           (fst (synth 0%nat)).
Proof.
  apply (put_side_strikes (fun _ => 0.5) 0 monday_morning monday_morning 237.88 "AAPL"
           30 45 0%nat).
  lra.
Defined.

(** *** A Bull Put Spread that is pushed

    With the put bought one rung above the put sold, the credit exceeds
    0.05 only where the market adjustment of the two quotes makes up for
    the difference of their closed-form values.  An instance: spot
    1937.5 (the rungs are 1800 and 1825), 108 days to expiry, volatility
    0.4985, the put sold quoted at 1.049 times and the put bought at
    0.95 times its value.  The two values are bounded there by interval
    arithmetic on the closed form. *)

(** A function that starts at 0 and has a derivative that is not
    negative does not go below 0. *)
Lemma grows_from_zero (f f' : R -> R) x :
  0 <= x -> f 0 = 0 ->
  (forall c, 0 <= c <= x -> derivable_pt_lim f c (f' c)) ->
  (forall c, 0 <= c <= x -> 0 <= f' c) ->
  0 <= f x.
Proof.
  intros Hx H0 Hd Hp.
  destruct (Req_dec x 0) as [-> | Hne]; [lra |].
  destruct (MVT_cor2 f f' 0 x ltac:(lra) Hd) as [c [E Hc]].
  specialize (Hp c ltac:(lra)). rewrite H0 in E. nra.
Qed.

Lemma derivable_pt_lim_exp_opp c :
  derivable_pt_lim (fun x => exp (- x)) c (- exp (- c)).
Proof.
  replace (- exp (- c)) with (exp (- c) * -1) by ring.
  apply (derivable_pt_lim_comp (fun x => - x) exp).
  - apply (derivable_pt_lim_opp Ranalysis1.id). apply derivable_pt_lim_id.
  - apply derivable_pt_lim_exp.
Qed.

Lemma derivable_pt_lim_monomial a n c :
  derivable_pt_lim (fun x => a * x ^ n) c (a * (INR n * c ^ pred n)).
Proof.
  apply (derivable_pt_lim_scal (fun x => x ^ n)). apply derivable_pt_lim_pow.
Qed.

Lemma derivable_pt_lim_quartic a0 a1 a2 a3 a4 c :
  derivable_pt_lim (fun x => a0 + a1 * x ^ 1 + a2 * x ^ 2 + a3 * x ^ 3 + a4 * x ^ 4) c
                   (a1 + 2 * a2 * c + 3 * a3 * c ^ 2 + 4 * a4 * c ^ 3).
Proof.
  replace (a1 + 2 * a2 * c + 3 * a3 * c ^ 2 + 4 * a4 * c ^ 3)
    with (0 + a1 * (INR 1 * c ^ pred 1) + a2 * (INR 2 * c ^ pred 2)
          + a3 * (INR 3 * c ^ pred 3) + a4 * (INR 4 * c ^ pred 4))
    by (simpl; ring).
  repeat (apply (derivable_pt_lim_plus _ (fun x => _ * x ^ _));
          [| apply derivable_pt_lim_monomial]).
  apply (derivable_pt_lim_const a0).
Qed.

(** The exponential between two partial sums of its series. *)
Lemma exp_opp_bounds x :
  0 <= x ->
  1 - x + x ^ 2 / 2 - x ^ 3 / 6 <= exp (- x)
  <= 1 - x + x ^ 2 / 2 - x ^ 3 / 6 + x ^ 4 / 24.
Proof.
  intros Hx.
  assert (H1 : forall y, 0 <= y -> 1 - y <= exp (- y)).
  { intros y _. pose proof (exp_ineq1_le (- y)). lra. }
  assert (H2 : forall y, 0 <= y -> exp (- y) <= 1 - y + y ^ 2 / 2).
  { intros y Hy.
    pose proof (grows_from_zero
                  (fun x => (1 + -1 * x ^ 1 + / 2 * x ^ 2 + 0 * x ^ 3 + 0 * x ^ 4) - exp (- x))
                  (fun c => (-1 + 2 * / 2 * c + 3 * 0 * c ^ 2 + 4 * 0 * c ^ 3) - - exp (- c))
                  y Hy) as H.
    cbv beta in H. rewrite Ropp_0, exp_0 in H.
    specialize (H ltac:(lra)).
    assert (G : 0 <= 1 + -1 * y ^ 1 + / 2 * y ^ 2 + 0 * y ^ 3 + 0 * y ^ 4 - exp (- y)).
    { apply H.
      - intros c _. apply (derivable_pt_lim_minus (fun x => _ + _ * x ^ 4)).
        + apply derivable_pt_lim_quartic.
        + apply derivable_pt_lim_exp_opp.
      - intros c Hc. specialize (H1 c (proj1 Hc)). lra. }
    lra. }
  assert (H3 : forall y, 0 <= y -> 1 - y + y ^ 2 / 2 - y ^ 3 / 6 <= exp (- y)).
  { intros y Hy.
    pose proof (grows_from_zero
                  (fun x => exp (- x) - (1 + -1 * x ^ 1 + / 2 * x ^ 2 + - / 6 * x ^ 3 + 0 * x ^ 4))
                  (fun c => - exp (- c) - (-1 + 2 * / 2 * c + 3 * - / 6 * c ^ 2 + 4 * 0 * c ^ 3))
                  y Hy) as H.
    cbv beta in H. rewrite Ropp_0, exp_0 in H.
    specialize (H ltac:(lra)).
    assert (G : 0 <= exp (- y) - (1 + -1 * y ^ 1 + / 2 * y ^ 2 + - / 6 * y ^ 3 + 0 * y ^ 4)).
    { apply H.
      - intros c _. apply (derivable_pt_lim_minus _ (fun x => _ + _ * x ^ 4)).
        + apply derivable_pt_lim_exp_opp.
        + apply derivable_pt_lim_quartic.
      - intros c Hc. specialize (H2 c (proj1 Hc)). lra. }
    lra. }
  split; [apply H3; exact Hx |].
  pose proof (grows_from_zero
                (fun x => (1 + -1 * x ^ 1 + / 2 * x ^ 2 + - / 6 * x ^ 3 + / 24 * x ^ 4)
                          - exp (- x))
                (fun c => (-1 + 2 * / 2 * c + 3 * - / 6 * c ^ 2 + 4 * / 24 * c ^ 3)
                          - - exp (- c))
                x Hx) as H.
  cbv beta in H. rewrite Ropp_0, exp_0 in H.
  specialize (H ltac:(lra)).
  assert (G : 0 <= 1 + -1 * x ^ 1 + / 2 * x ^ 2 + - / 6 * x ^ 3 + / 24 * x ^ 4 - exp (- x)).
  { apply H.
    - intros c _. apply (derivable_pt_lim_minus (fun x => _ + _ * x ^ 4)).
      + apply derivable_pt_lim_quartic.
      + apply derivable_pt_lim_exp_opp.
    - intros c Hc. specialize (H3 c (proj1 Hc)). lra. }
  lra.
Qed.

(** Intervals for square roots, quotients, products, exponentials and
    logarithms. *)
Lemma sqrt_between lo hi x :
  0 <= lo -> 0 <= hi -> lo * lo <= x <= hi * hi -> lo <= sqrt x <= hi.
Proof.
  intros Hlo Hhi [H1 H2]. split.
  - rewrite <- (sqrt_square lo Hlo). apply sqrt_le_1_alt. exact H1.
  - rewrite <- (sqrt_square hi Hhi). apply sqrt_le_1_alt. exact H2.
Qed.

Lemma div_between lo hi a b :
  0 < b -> lo * b <= a <= hi * b -> lo <= a / b <= hi.
Proof.
  intros Hb [H1 H2].
  assert (Hi : 0 < / b) by (apply Rinv_0_lt_compat; exact Hb).
  assert (E : forall z, z * b * / b = z) by (intros z; field; lra).
  unfold Rdiv. split.
  - rewrite <- (E lo). apply Rmult_le_compat_r; lra.
  - rewrite <- (E hi). apply Rmult_le_compat_r; lra.
Qed.

Lemma mul_between_pos x y xl xh yl yh :
  xl <= x <= xh -> yl <= y <= yh -> 0 <= xl -> 0 <= yl ->
  xl * yl <= x * y <= xh * yh.
Proof. intros. split; apply Rmult_le_compat; lra. Qed.

Lemma mul_between_neg x y xl xh yl yh :
  xl <= x <= xh -> yl <= y <= yh -> xh <= 0 -> 0 <= yl ->
  xl * yh <= x * y <= xh * yl.
Proof. intros. nra. Qed.

Lemma exp_opp_between q ql qh :
  0 <= ql <= q /\ q <= qh ->
  1 - qh + qh ^ 2 / 2 - qh ^ 3 / 6 <= exp (- q)
  <= 1 - ql + ql ^ 2 / 2 - ql ^ 3 / 6 + ql ^ 4 / 24.
Proof.
  intros [[H0 H1] H2].
  pose proof (exp_opp_bounds ql H0) as [_ Hl].
  pose proof (exp_opp_bounds qh ltac:(lra)) as [Hh _].
  assert (M : forall a b, a <= b -> exp (- b) <= exp (- a)).
  { intros a b [Hab | ->]; [left; apply exp_increasing; lra | right; reflexivity]. }
  pose proof (M ql q H1). pose proof (M q qh H2). lra.
Qed.

Lemma ln_between a b y :
  0 <= a -> 0 <= b -> 0 < y ->
  1 <= (1 - a + a ^ 2 / 2 - a ^ 3 / 6) * y ->
  y * (1 - b + b ^ 2 / 2 - b ^ 3 / 6 + b ^ 4 / 24) <= 1 ->
  a <= ln y <= b.
Proof.
  intros Ha Hb Hy Hlo Hhi.
  pose proof (exp_opp_bounds a Ha) as [La _].
  pose proof (exp_opp_bounds b Hb) as [_ Ub].
  pose proof (exp_pos a) as Pa. pose proof (exp_pos b) as Pb.
  assert (Ea : exp a * exp (- a) = 1) by (rewrite <- exp_plus, Rplus_opp_r; apply exp_0).
  assert (Eb : exp b * exp (- b) = 1) by (rewrite <- exp_plus, Rplus_opp_r; apply exp_0).
  assert (Hay : exp a <= y).
  { assert (H : 1 <= exp (- a) * y).
    { apply Rle_trans with (1 := Hlo). apply Rmult_le_compat_r; lra. }
    apply (Rmult_le_compat_l (exp a)) in H; [| lra].
    rewrite <- Rmult_assoc, Ea in H. lra. }
  assert (Hyb : y <= exp b).
  { assert (H : y * exp (- b) <= 1).
    { apply Rle_trans with (2 := Hhi). apply Rmult_le_compat_l; lra. }
    apply (Rmult_le_compat_l (exp b)) in H; [| lra].
    replace (exp b * (y * exp (- b))) with (y * (exp b * exp (- b))) in H by ring.
    rewrite Eb in H. lra. }
  split.
  - destruct (Rle_lt_dec a (ln y)) as [H | H]; [exact H | exfalso].
    apply exp_increasing in H. rewrite exp_ln in H by exact Hy. lra.
  - destruct (Rle_lt_dec (ln y) b) as [H | H]; [exact H | exfalso].
    apply exp_increasing in H. rewrite exp_ln in H by exact Hy. lra.
Qed.

Lemma N_opp_closed d :
  0 < d ->
  N (- d) = 0.5 * (as_poly (1 / (1 + 0.3275911 * (d / sqrt 2))) * exp (- (d * d / 2))).
Proof.
  intros Hd. pose proof sqrt2_neq0 as H2.
  assert (Hs : 0 < sqrt 2) by (apply sqrt_lt_R0; lra).
  assert (Hq : 0 < d / sqrt 2) by (apply Rdiv_lt_0_compat; assumption).
  unfold N, erf_approx.
  replace (- d / sqrt 2) with (- (d / sqrt 2)) by (field; exact H2).
  rewrite Rabs_Ropp, (Rabs_pos_eq (d / sqrt 2)) by lra.
  rewrite Rleb_false by lra.
  replace (- (d / sqrt 2) * (d / sqrt 2)) with (- (d * d / 2)).
  - lra.
  - replace (d * d / 2) with (d * d / (sqrt 2 * sqrt 2)) by (rewrite sqrt_sqrt by lra; reflexivity).
    field. exact H2.
Qed.

(** The contract of the instance: [T = 108 / 365], rate 0.05, volatility
    0.4985, spot 1937.5, strikes 1800 (sold) and 1825 (bought). *)
Lemma sqrt_T_bounds : 0.543958 <= sqrt (108 / 365) <= 0.5439581.
Proof. apply sqrt_between; lra. Qed.

Lemma sqrt_2_bounds : 1.4142135 <= sqrt 2 <= 1.4142136.
Proof. apply sqrt_between; lra. Qed.

Lemma discount_bounds : 0.9853143 <= exp (- (0.05) * (108 / 365)) <= 0.9853144.
Proof.
  replace (- (0.05) * (108 / 365)) with (- (0.05 * (108 / 365))) by lra.
  pose proof (exp_opp_bounds (0.05 * (108 / 365)) ltac:(lra)) as H.
  lra.
Qed.

Lemma ln_short_bounds : 0.0736105 <= ln (1937.5 / 1800) <= 0.0736119.
Proof. apply ln_between; lra. Qed.

Lemma d1_short_bounds :
  0.4616031 <= d1 1937.5 1800 (108 / 365) 0.05 0.4985 <= 0.4616084.
Proof.
  pose proof sqrt_T_bounds. pose proof ln_short_bounds.
  unfold d1. apply div_between; lra.
Qed.

Lemma d2_short_bounds :
  0.1904399 <= d2 1937.5 1800 (108 / 365) 0.05 0.4985 <= 0.1904454.
Proof.
  pose proof sqrt_T_bounds. pose proof d1_short_bounds.
  unfold d2. lra.
Qed.

Lemma N_opp_d1_short d :
  0.4616031 <= d <= 0.4616084 -> 0.3221788 <= N (- d) <= 0.3221834.
Proof.
  intros Hd. rewrite N_opp_closed by lra.
  pose proof sqrt_2_bounds as H2.
  assert (Hq : 0.1065387 <= d * d / 2 <= 0.1065412) by nra.
  assert (He : 0.8989327 <= exp (- (d * d / 2)) <= 0.8989404).
  { pose proof (exp_opp_between (d * d / 2) 0.1065387 0.1065412 ltac:(lra)) as H. lra. }
  assert (Hw : 0.3264026 <= d / sqrt 2 <= 0.3264065) by (apply div_between; lra).
  assert (Ht : 0.9034012 <= 1 / (1 + 0.3275911 * (d / sqrt 2)) <= 0.9034023)
    by (apply div_between; lra).
  revert Ht He.
  generalize (1 / (1 + 0.3275911 * (d / sqrt 2))) (exp (- (d * d / 2))).
  intros t e Ht He. unfold as_poly.
  assert (H1 : (-0.4942771) <= 1.061405429 * t + -1.453152027 <= (-0.4942759)) by lra.
  pose proof (mul_between_neg _ _ _ _ _ _ H1 Ht ltac:(lra) ltac:(lra)) as M1.
  assert (H3 : 0.974882641 <= (1.061405429 * t + -1.453152027) * t + 1.421413741 <= 0.974884341) by lra.
  pose proof (mul_between_pos _ _ _ _ _ _ H3 Ht ltac:(lra) ltac:(lra)) as M2.
  assert (H4 : 0.596213364 <= ((1.061405429 * t + -1.453152027) * t + 1.421413741) * t
                     + -0.284496736 <= 0.596216064) by lra.
  pose proof (mul_between_pos _ _ _ _ _ _ H4 Ht ltac:(lra) ltac:(lra)) as M3.
  assert (H5 : 0.793449392 <= (((1.061405429 * t + -1.453152027) * t + 1.421413741) * t
                      + -0.284496736) * t + 0.254829592 <= 0.793452592) by lra.
  pose proof (mul_between_pos _ _ _ _ _ _ H5 Ht ltac:(lra) ltac:(lra)) as M4.
  assert (H6 : 0.7168031 <= ((((1.061405429 * t + -1.453152027) * t + 1.421413741) * t
                       + -0.284496736) * t + 0.254829592) * t <= 0.7168069) by lra.
  pose proof (mul_between_pos _ _ _ _ _ _ H6 He ltac:(lra) ltac:(lra)) as M5.
  lra.
Qed.

Lemma N_opp_d2_short d :
  0.1904399 <= d <= 0.1904454 -> 0.4244795 <= N (- d) <= 0.4244828.
Proof.
  intros Hd. rewrite N_opp_closed by lra.
  pose proof sqrt_2_bounds as H2.
  assert (Hq : 0.0181336 <= d * d / 2 <= 0.0181348) by nra.
  assert (He : 0.9820286 <= exp (- (d * d / 2)) <= 0.9820299).
  { pose proof (exp_opp_between (d * d / 2) 0.0181336 0.0181348 ltac:(lra)) as H. lra. }
  assert (Hw : 0.1346613 <= d / sqrt 2 <= 0.1346653) by (apply div_between; lra).
  assert (Ht : 0.9577487 <= 1 / (1 + 0.3275911 * (d / sqrt 2)) <= 0.95775)
    by (apply div_between; lra).
  revert Ht He.
  generalize (1 / (1 + 0.3275911 * (d / sqrt 2))) (exp (- (d * d / 2))).
  intros t e Ht He. unfold as_poly.
  assert (H1 : (-0.4365924) <= 1.061405429 * t + -1.453152027 <= (-0.4365909)) by lra.
  pose proof (mul_between_neg _ _ _ _ _ _ H1 Ht ltac:(lra) ltac:(lra)) as M1.
  assert (H3 : 1.003267341 <= (1.061405429 * t + -1.453152027) * t + 1.421413741 <= 1.003269441) by lra.
  pose proof (mul_between_pos _ _ _ _ _ _ H3 Ht ltac:(lra) ltac:(lra)) as M2.
  assert (H4 : 0.676381164 <= ((1.061405429 * t + -1.453152027) * t + 1.421413741) * t
                     + -0.284496736 <= 0.676384664) by lra.
  pose proof (mul_between_pos _ _ _ _ _ _ H4 Ht ltac:(lra) ltac:(lra)) as M3.
  assert (H5 : 0.902632692 <= (((1.061405429 * t + -1.453152027) * t + 1.421413741) * t
                      + -0.284496736) * t + 0.254829592 <= 0.902637092) by lra.
  pose proof (mul_between_pos _ _ _ _ _ _ H5 Ht ltac:(lra) ltac:(lra)) as M4.
  assert (H6 : 0.8644952 <= ((((1.061405429 * t + -1.453152027) * t + 1.421413741) * t
                       + -0.284496736) * t + 0.254829592) * t <= 0.8645007) by lra.
  pose proof (mul_between_pos _ _ _ _ _ _ H6 He ltac:(lra) ltac:(lra)) as M5.
  lra.
Qed.

Lemma put_short_bounds :
  128.6119 <= put_value 1937.5 1800 (108 / 365) 0.05 0.4985 <= 128.6269.
Proof.
  pose proof discount_bounds as Hx.
  pose proof (N_opp_d1_short _ d1_short_bounds) as H1.
  pose proof (N_opp_d2_short _ d2_short_bounds) as H2.
  unfold put_value. revert Hx H1 H2.
  generalize (exp (- (0.05) * (108 / 365)))
             (N (- d1 1937.5 1800 (108 / 365) 0.05 0.4985))
             (N (- d2 1937.5 1800 (108 / 365) 0.05 0.4985)).
  intros x n1 n2 Hx H1 H2.
  pose proof (mul_between_pos _ _ _ _ _ _ Hx H2 ltac:(lra) ltac:(lra)) as M.
  lra.
Qed.

Lemma ln_long_bounds : 0.0598179 <= ln (1937.5 / 1825) <= 0.0598186.
Proof. apply ln_between; lra. Qed.

Lemma d1_long_bounds :
  0.4107385 <= d1 1937.5 1825 (108 / 365) 0.05 0.4985 <= 0.4107412.
Proof.
  pose proof sqrt_T_bounds. pose proof ln_long_bounds.
  unfold d1. apply div_between; lra.
Qed.

Lemma d2_long_bounds :
  0.1395753 <= d2 1937.5 1825 (108 / 365) 0.05 0.4985 <= 0.1395782.
Proof.
  pose proof sqrt_T_bounds. pose proof d1_long_bounds.
  unfold d2. lra.
Qed.

Lemma N_opp_d1_long d :
  0.4107385 <= d <= 0.4107412 -> 0.34063 <= N (- d) <= 0.3406326.
Proof.
  intros Hd. rewrite N_opp_closed by lra.
  pose proof sqrt_2_bounds as H2.
  assert (Hq : 0.084353 <= d * d / 2 <= 0.0843542) by nra.
  assert (He : 0.9191035 <= exp (- (d * d / 2)) <= 0.9191068).
  { pose proof (exp_opp_between (d * d / 2) 0.084353 0.0843542 ltac:(lra)) as H. lra. }
  assert (Hw : 0.2904359 <= d / sqrt 2 <= 0.290438) by (apply div_between; lra).
  assert (Ht : 0.9131211 <= 1 / (1 + 0.3275911 * (d / sqrt 2)) <= 0.9131218)
    by (apply div_between; lra).
  revert Ht He.
  generalize (1 / (1 + 0.3275911 * (d / sqrt 2))) (exp (- (d * d / 2))).
  intros t e Ht He. unfold as_poly.
  assert (H1 : (-0.4839604) <= 1.061405429 * t + -1.453152027 <= (-0.4839595)) by lra.
  pose proof (mul_between_neg _ _ _ _ _ _ H1 Ht ltac:(lra) ltac:(lra)) as M1.
  assert (H3 : 0.979498941 <= (1.061405429 * t + -1.453152027) * t + 1.421413741 <= 0.979500141) by lra.
  pose proof (mul_between_pos _ _ _ _ _ _ H3 Ht ltac:(lra) ltac:(lra)) as M2.
  assert (H4 : 0.609904364 <= ((1.061405429 * t + -1.453152027) * t + 1.421413741) * t
                     + -0.284496736 <= 0.609906264) by lra.
  pose proof (mul_between_pos _ _ _ _ _ _ H4 Ht ltac:(lra) ltac:(lra)) as M3.
  assert (H5 : 0.811746092 <= (((1.061405429 * t + -1.453152027) * t + 1.421413741) * t
                      + -0.284496736) * t + 0.254829592 <= 0.811748392) by lra.
  pose proof (mul_between_pos _ _ _ _ _ _ H5 Ht ltac:(lra) ltac:(lra)) as M4.
  assert (H6 : 0.7412224 <= ((((1.061405429 * t + -1.453152027) * t + 1.421413741) * t
                       + -0.284496736) * t + 0.254829592) * t <= 0.7412252) by lra.
  pose proof (mul_between_pos _ _ _ _ _ _ H6 He ltac:(lra) ltac:(lra)) as M5.
  lra.
Qed.

Lemma N_opp_d2_long d :
  0.1395753 <= d <= 0.1395782 -> 0.4444961 <= N (- d) <= 0.4444982.
Proof.
  intros Hd. rewrite N_opp_closed by lra.
  pose proof sqrt_2_bounds as H2.
  assert (Hq : 0.0097406 <= d * d / 2 <= 0.0097411) by nra.
  assert (He : 0.9903061 <= exp (- (d * d / 2)) <= 0.9903067).
  { pose proof (exp_opp_between (d * d / 2) 0.0097406 0.0097411 ltac:(lra)) as H. lra. }
  assert (Hw : 0.0986946 <= d / sqrt 2 <= 0.0986967) by (apply div_between; lra).
  assert (Ht : 0.9686804 <= 1 / (1 + 0.3275911 * (d / sqrt 2)) <= 0.9686812)
    by (apply div_between; lra).
  revert Ht He.
  generalize (1 / (1 + 0.3275911 * (d / sqrt 2))) (exp (- (d * d / 2))).
  intros t e Ht He. unfold as_poly.
  assert (H1 : (-0.4249894) <= 1.061405429 * t + -1.453152027 <= (-0.4249885)) by lra.
  pose proof (mul_between_neg _ _ _ _ _ _ H1 Ht ltac:(lra) ltac:(lra)) as M1.
  assert (H3 : 1.009734441 <= (1.061405429 * t + -1.453152027) * t + 1.421413741 <= 1.009735741) by lra.
  pose proof (mul_between_pos _ _ _ _ _ _ H3 Ht ltac:(lra) ltac:(lra)) as M2.
  assert (H4 : 0.693613164 <= ((1.061405429 * t + -1.453152027) * t + 1.421413741) * t
                     + -0.284496736 <= 0.693615364) by lra.
  pose proof (mul_between_pos _ _ _ _ _ _ H4 Ht ltac:(lra) ltac:(lra)) as M3.
  assert (H5 : 0.926718992 <= (((1.061405429 * t + -1.453152027) * t + 1.421413741) * t
                      + -0.284496736) * t + 0.254829592 <= 0.926721792) by lra.
  pose proof (mul_between_pos _ _ _ _ _ _ H5 Ht ltac:(lra) ltac:(lra)) as M4.
  assert (H6 : 0.8976945 <= ((((1.061405429 * t + -1.453152027) * t + 1.421413741) * t
                       + -0.284496736) * t + 0.254829592) * t <= 0.897698) by lra.
  pose proof (mul_between_pos _ _ _ _ _ _ H6 He ltac:(lra) ltac:(lra)) as M5.
  lra.
Qed.

Lemma put_long_bounds :
  139.3166 <= put_value 1937.5 1825 (108 / 365) 0.05 0.4985 <= 139.3255.
Proof.
  pose proof discount_bounds as Hx.
  pose proof (N_opp_d1_long _ d1_long_bounds) as H1.
  pose proof (N_opp_d2_long _ d2_long_bounds) as H2.
  unfold put_value. revert Hx H1 H2.
  generalize (exp (- (0.05) * (108 / 365)))
             (N (- d1 1937.5 1825 (108 / 365) 0.05 0.4985))
             (N (- d2 1937.5 1825 (108 / 365) 0.05 0.4985)).
  intros x n1 n2 Hx H1 H2.
  pose proof (mul_between_pos _ _ _ _ _ _ Hx H2 ltac:(lra) ltac:(lra)) as M.
  lra.
Qed.

(** The calendar, the ladder and the two quotes of the instance. *)
Lemma far_calendar : getExpirationDates 0 monday_morning 100 110 = Some [20868%Z].
Proof. vm_compute. reflexivity. Qed.

Lemma far_dte : daysUntil monday_morning (Some 20868%Z) = Fin 108.
Proof.
  unfold daysUntil, parseIsoDate.
  replace ((20868 * msPerDay - monday_morning) / msPerDay)%Z with 108%Z
    by (vm_compute; reflexivity).
  reflexivity.
Qed.

Section FarSpread.

Variable U : nat -> R.
Variable c : Setup.
Hypothesis Hc : ladder_setup c.
Hypothesis Hspot : currentPrice c = 1937.5.
Hypothesis Hdte : dte c = Fin 108.
Hypothesis Hiv : iv c = Fin 0.4985.

Lemma far_strikes :
  bullPutShortStrike c = Some 1800 /\ bullPutLongStrike c = Some 1825.
Proof.
  assert (Hr : 2.7 <= currentPrice c <= 1960) by (rewrite Hspot; lra).
  destruct (put_strikes c Hc Hr) as [lo [E0 [_ [Es [El _]]]]].
  assert (Ei : strike_interval 1937.5 = 25).
  { unfold strike_interval. rewrite !Rltb_false by lra. reflexivity. }
  assert (Ek : base_index 1937.5 = 78%Z).
  { unfold base_index. rewrite Ei. apply Zfloor_eq. simpl. lra. }
  destruct Hc as [Hpos Hl]. rewrite Hspot in *.
  destruct (ladder_head 1937.5 ltac:(lra)) as [rest Hh].
  rewrite Hl, Hh, Ek, Ei in E0. cbn [nth_error] in E0.
  injection E0 as <-.
  assert (E72 : IZR (Z.max 72 1) * 25 = 1800) by (rewrite Z.max_l by lia; lra).
  rewrite Es, El, Ei, E72. split; [reflexivity |]. f_equal. lra.
Qed.

Lemma far_spread_pushed i :
  U i = 0.99 -> U (Nat.succ i) = 0 ->
  exists s x, fst (bullPutSpread U c i) = [s] /\ name s = "Bull Put Spread" /\
              net_credit s = Fin x.
Proof.
  intros Hu Hv. destruct far_strikes as [Es El].
  pose proof (bullPutSpread_inclusion U c i) as H.
  unfold quote, spot in H. rewrite Es, El, Hdte, Hiv, Hspot in H. cbn [toNumber] in H.
  rewrite !calculateOptionPrice_live in H by lra.
  cbn [price nsub lift2 nle cmp2 value] in H.
  rewrite Hu, Hv in H.
  pose proof put_short_bounds as Hs. pose proof put_long_bounds as Hl.
  revert H Hs Hl.
  generalize (put_value 1937.5 1800 (108 / 365) 0.05 0.4985)
             (put_value 1937.5 1825 (108 / 365) 0.05 0.4985).
  intros a b H Hs Hl.
  rewrite Rleb_false in H.
  - destruct H as [s [E [Hn Hx]]]. exists s. eexists. repeat split; eassumption.
  - unfold Rmax. repeat destruct (Rle_dec _ _); lra.
Qed.

End FarSpread.

Lemma far_catalog synth :
  generateStrategies spread_draws 0 monday_morning monday_morning 1937.5 "SPX" 100 110
  = Some synth ->
  exists s x, In s (fst (synth 0%nat)) /\ name s = "Bull Put Spread" /\
              net_credit s = Fin x.
Proof.
  intros E.
  destruct (generateStrategies_run spread_draws 0 monday_morning monday_morning 1937.5
              "SPX" 100 110) as [l [El E']].
  rewrite far_calendar in El. injection El as <-.
  rewrite E' in E. injection E as <-. cbv beta.
  match goal with |- context [blocks ?V ?c ?k] =>
    destruct (blocks_split V c k) as [i1 [i2 [i3 [i4 [i5 [i6 Eb]]]]]];
    assert (H : exists s x, fst (bullPutSpread V c k) = [s] /\
                            name s = "Bull Put Spread" /\ net_credit s = Fin x)
  end.
  { apply far_spread_pushed.
    - split; [cbn [currentPrice]; lra | reflexivity].
    - reflexivity.
    - exact far_dte.
    - cbn [iv nadd nmul lift2]. f_equal. unfold spread_draws. cbn [Nat.eqb]. lra.
    - reflexivity.
    - reflexivity. }
  destruct H as [s [x [Es [Hn Hx]]]].
  exists s, x. rewrite Eb, Es. split; [left; reflexivity | split; assumption].
Qed.

(** With the put bought above the put sold, the difference of the
    strikes is minus one interval: every Bull Put Spread in the catalog
    whose net credit is a number has a credit above 0.05 and reports a
    [maxLoss] that is positive, where the other templates report a loss
    as a negative number. *)
Theorem bull_put_max_loss_sign U tz today now spot ticker minDte maxDte i :
  2.7 <= spot <= 1960 ->
  exists synth,
    generateStrategies U tz today now spot ticker minDte maxDte = Some synth /\
    Forall (fun s => name s = "Bull Put Spread" ->
                     forall x, net_credit s = Fin x ->
                               0.05 < x /\ exists m, maxLoss s = Fin m /\ 0 < m)
           (fst (synth i)).
Proof.
  intros Hspot.
  destruct (generateStrategies_run U tz today now spot ticker minDte maxDte)
    as [l [_ E]].
  eexists. split; [exact E |]. cbv beta.
  match goal with |- context [blocks ?U ?c ?i] =>
    assert (Hc : ladder_setup c) by (split; [cbn [currentPrice]; lra | reflexivity]);
    assert (Hs : 2.7 <= currentPrice c <= 1960) by exact Hspot;
    pose proof (bullPutSpread_max_loss U c Hc Hs) as L
  end.
  apply blocks_Forall; intros j.
  - by_name bullPutSpread_name L.
  - by_name ironCondor_name L.
  - by_name cashSecuredPut_name L.
  - by_name longStraddle_name L.
  - by_name coveredCall_name L.
  - by_name bearCallSpread_name L.
  - by_name bullCallSpread_name L.
Qed.

Lemma bull_put_max_loss_sign_witness :
  unit_draws spread_draws /\
  exists synth,
    generateStrategies spread_draws 0 monday_morning monday_morning 1937.5 "SPX" 100 110
      = Some synth /\
    Forall (fun s => name s = "Bull Put Spread" ->
                     forall x, net_credit s = Fin x ->
                               0.05 < x /\ exists m, maxLoss s = Fin m /\ 0 < m)
           (fst (synth 0%nat)) /\
    exists s x m,
      In s (fst (synth 0%nat)) /\ name s = "Bull Put Spread" /\
      net_credit s = Fin x /\ 0.05 < x /\ maxLoss s = Fin m /\ 0 < m.
Proof.
  split; [intros n; unfold spread_draws; destruct (Nat.eqb n 2); lra |].
  destruct (bull_put_max_loss_sign spread_draws 0 monday_morning monday_morning 1937.5
              "SPX" 100 110 0%nat ltac:(lra)) as [synth [E H]].
  exists synth. split; [exact E |]. split; [exact H |].
  destruct (far_catalog synth E) as [s [x [Hin [Hn Hx]]]].
  destruct (proj1 (Forall_forall _ _) H s Hin Hn x Hx) as [Hgt [m [Hm Hpos]]].
  exists s, x, m. repeat split; assumption.
Defined.

(** The three spreads that are pushed under a [> threshold] test never
    come with a figure that is not a number: whatever the inputs, an
    Iron Condor or a Bull Call Spread in the catalog has a [maxProfit] of
    at least 10, a Bear Call Spread of at least 5, and a Bull Call Spread
    has a [maxLoss] that is zero or negative, with [capitalRequired] its
    opposite. *)
Theorem guarded_spreads_profit U tz today now spot ticker minDte maxDte i :
  exists synth,
    generateStrategies U tz today now spot ticker minDte maxDte = Some synth /\
    Forall (fun s =>
              (name s = "Iron Condor" -> exists m, maxProfit s = Fin m /\ 10 <= m) /\
              (name s = "Bear Call Spread" -> exists m, maxProfit s = Fin m /\ 5 <= m) /\
              (name s = "Bull Call Spread" ->
               (exists m, maxProfit s = Fin m /\ 10 <= m) /\
               (exists l, maxLoss s = Fin l /\ l <= 0 /\ capitalRequired s = Fin (- l))))
           (fst (synth i)).
Proof.
  destruct (generateStrategies_run U tz today now spot ticker minDte maxDte)
    as [l [_ E]].
  eexists. split; [exact E |]. cbv beta.
  match goal with |- context [blocks ?U ?c ?i] =>
    pose proof (ironCondor_profit U c) as L1;
    pose proof (bearCallSpread_profit U c) as L2;
    pose proof (bullCallSpread_profit U c) as L3
  end.
  apply blocks_Forall; intros j; repeat apply Forall_and.
  - by_name bullPutSpread_name L1.
  - by_name bullPutSpread_name L2.
  - by_name bullPutSpread_name L3.
  - by_name ironCondor_name L1.
  - by_name ironCondor_name L2.
  - by_name ironCondor_name L3.
  - by_name cashSecuredPut_name L1.
  - by_name cashSecuredPut_name L2.
  - by_name cashSecuredPut_name L3.
  - by_name longStraddle_name L1.
  - by_name longStraddle_name L2.
  - by_name longStraddle_name L3.
  - by_name coveredCall_name L1.
  - by_name coveredCall_name L2.
  - by_name coveredCall_name L3.
  - by_name bearCallSpread_name L1.
  - by_name bearCallSpread_name L2.
  - by_name bearCallSpread_name L3.
  - by_name bullCallSpread_name L1.
  - by_name bullCallSpread_name L2.
  - by_name bullCallSpread_name L3.
Qed.

(* ================================================================= *)
(** ** The ranking under every profile *)

(** *** The head of the ranking *)

Lemma sorted_top (kept sorted : list Strategy) s0 :
  stably_ranked kept sorted -> In s0 kept ->
  exists top rest, sorted = top :: rest /\ confidence_value s0 <= confidence_value top.
Proof.
  intros [Hp [Hs _]] Hin.
  pose proof (Permutation_in _ Hp Hin) as Hin'.
  destruct sorted as [| top rest]; [contradiction |].
  exists top, rest. split; [reflexivity |].
  apply StronglySorted_inv in Hs as [_ Hall]. rewrite Forall_forall in Hall.
  destruct Hin' as [<- | Hin']; [lra | apply (Hall s0 Hin')].
Qed.

Lemma slice0_head {A} (x : A) l e :
  (1 <= e)%Z -> exists rest, JSArray.slice0 (x :: l) e = x :: rest.
Proof.
  intros He. rewrite slice0_nonneg by lia.
  destruct (Z.to_nat e) as [| k] eqn:Ek; [lia |]. cbn. eexists; reflexivity.
Qed.

(** A strategy that passes the test of every profile puts a strategy at
    least as confident at the head of the ranking. *)
Lemma rank_top riskProfile maxStrategies all s0 :
  Forall finite_confidence all -> (1 <= maxStrategies)%Z ->
  In s0 all -> 65 <= confidence_value s0 -> type s0 <> "volatility" ->
  exists top rest,
    rank riskProfile maxStrategies all = top :: rest /\
    confidence_value s0 <= confidence_value top.
Proof.
  intros Hfin Hmax Hin Hconf Hty. unfold rank.
  set (kept := if String.eqb riskProfile "conservative" then _ else _).
  assert (Hk : In s0 kept /\ Forall finite_confidence kept).
  { rewrite Forall_forall in Hfin. destruct (Hfin s0 Hin) as [x Hx].
    assert (Ex : x = confidence_value s0) by (unfold confidence_value; now rewrite Hx).
    subst kept.
    destruct (String.eqb riskProfile "conservative");
      [| destruct (String.eqb riskProfile "moderate");
         [| destruct (String.eqb riskProfile "moderate_aggressive")]].
    - split; [| apply Forall_filter, Forall_forall, Hfin].
      apply filter_In. split; [exact Hin |]. rewrite Hx. cbn.
      rewrite Rleb_true by lra. cbn.
      destruct (String.eqb_spec (type s0) "volatility"); [contradiction | reflexivity].
    - split; [| apply Forall_filter, Forall_forall, Hfin].
      apply filter_In. split; [exact Hin |]. rewrite Hx. cbn. apply Rleb_true. lra.
    - split; [| apply Forall_filter, Forall_forall, Hfin].
      apply filter_In. split; [exact Hin |]. rewrite Hx. cbn. apply Rleb_true. lra.
    - split; [exact Hin | apply Forall_forall, Hfin]. }
  destruct Hk as [Hk Hkfin].
  destruct (sorted_top kept _ s0 (sort_by_confidence kept Hkfin) Hk) as [top [rest [E Hle]]].
  rewrite E. destruct (slice0_head top rest maxStrategies Hmax) as [rest' ->].
  now exists top, rest'.
Qed.

Section AlwaysThere.

Variable U : nat -> R.
Variable c : Setup.

(** The Cash Secured Put is in every catalog, with its confidence. *)
Lemma blocks_cashSecuredPut_confidence i :
  exists s k, In s (fst (blocks U c i)) /\ name s = "Cash Secured Put" /\
              type s = "bullish" /\ confidence s = Fin (69.8 + U k * 5).
Proof.
  destruct (blocks_split U c i) as [i1 [i2 [i3 [i4 [i5 [i6 ->]]]]]].
  assert (H : exists s k, In s (fst (cashSecuredPut U c i2)) /\
                          name s = "Cash Secured Put" /\
                          type s = "bullish" /\ confidence s = Fin (69.8 + U k * 5)).
  { unfold cashSecuredPut. run_block. cbn [fst].
    eexists _, _. split; [left; reflexivity |]. repeat split. }
  destruct H as [s [k [Hin H]]]. exists s, k. split; [| exact H].
  apply in_or_app. right. apply in_or_app. right. apply in_or_app. now left.
Qed.

End AlwaysThere.

(** The head of the ranked list is at least as confident as the Cash
    Secured Put. *)
Lemma handler_top U tz today now spot ticker riskProfile
    minDte maxDte maxStrategies i :
  unit_draws U -> (1 <= maxStrategies)%Z ->
  exists h top rest,
    handler U tz today now spot ticker riskProfile minDte maxDte maxStrategies = Some h /\
    fst (h i) = top :: rest /\ 69.8 <= confidence_value top.
Proof.
  intros HU Hmax.
  destruct (generateStrategies_run U tz today now spot ticker minDte maxDte)
    as [l [_ E]].
  unfold handler. rewrite E. cbn [option_map].
  match goal with |- exists h top rest, Some ?f = Some h /\ _ =>
    cut (exists top rest, fst (f i) = top :: rest /\ 69.8 <= confidence_value top);
    [ intros [top [rest H]]; exists f, top, rest; split; [reflexivity | exact H] |]
  end.
  cbv beta. unfold bind, ret.
  set (c := mkSetup _ _ _ _ _ _).
  pose proof (blocks_confidence U c (Nat.succ i)) as Hj.
  destruct (blocks_cashSecuredPut_confidence U c (Nat.succ i))
    as [s0 [k [Hin [_ [Hty Hconf]]]]].
  destruct (blocks U c (Nat.succ i)) as [all i'']. cbn [fst] in *.
  assert (Hfin : Forall finite_confidence all)
    by (eapply Forall_impl; [apply jittered_finite | exact Hj]).
  assert (Hv : confidence_value s0 = 69.8 + U k * 5)
    by (unfold confidence_value; now rewrite Hconf).
  pose proof (HU k) as Hk.
  destruct (rank_top riskProfile maxStrategies all s0 Hfin Hmax Hin)
    as [top [rest [Er Hle]]]; [lra | rewrite Hty; discriminate |].
  exists top, rest. split; [exact Er | lra].
Qed.

(** *** The ranking is sorted, whatever the profile *)

Lemma StronglySorted_firstn {A} (R : A -> A -> Prop) k l :
  StronglySorted R l -> StronglySorted R (firstn k l).
Proof.
  intros H. revert k. induction H as [| x l Hl IH Hx]; intros [| k]; cbn;
    constructor; [apply IH | now apply Forall_firstn].
Qed.

Lemma rank_sorted riskProfile maxStrategies all :
  Forall finite_confidence all ->
  StronglySorted (descending confidence_value) (rank riskProfile maxStrategies all) /\
  incl (rank riskProfile maxStrategies all) all /\
  ((0 <= maxStrategies)%Z ->
   (Z.of_nat (List.length (rank riskProfile maxStrategies all)) <= maxStrategies)%Z).
Proof.
  intros Hfin. unfold rank.
  set (kept := if String.eqb riskProfile "conservative" then _ else _).
  assert (Hk : incl kept all /\ Forall finite_confidence kept).
  { subst kept.
    destruct (String.eqb riskProfile "conservative");
      [| destruct (String.eqb riskProfile "moderate");
         [| destruct (String.eqb riskProfile "moderate_aggressive")]];
      (split; [try apply incl_filter; try apply incl_refl
              | try apply Forall_filter; exact Hfin]). }
  destruct Hk as [Hinc Hkfin].
  pose proof (sort_by_confidence kept Hkfin) as [Hp [Hs _]].
  split; [| split].
  - unfold JSArray.slice0. now apply StronglySorted_firstn.
  - unfold JSArray.slice0. intros s Hs'. apply firstn_In in Hs'.
    apply Hinc. apply Permutation_sym in Hp. now apply (Permutation_in _ Hp).
  - intros Hmax. rewrite slice0_nonneg by assumption.
    pose proof (firstn_le_length (Z.to_nat maxStrategies)
                  (JSArray.sort (fun a b => nsub (confidence b) (confidence a)) kept)).
    lia.
Qed.

Lemma handler_sorted U tz today now spot ticker riskProfile minDte maxDte maxStrategies i :
  exists synth h,
    generateStrategies U tz today now spot ticker minDte maxDte = Some synth /\
    handler U tz today now spot ticker riskProfile minDte maxDte maxStrategies = Some h /\
    StronglySorted (descending confidence_value) (fst (h i)) /\
    incl (fst (h i)) (fst (synth i)) /\
    ((0 <= maxStrategies)%Z -> (Z.of_nat (List.length (fst (h i))) <= maxStrategies)%Z).
Proof.
  destruct (generateStrategies_run U tz today now spot ticker minDte maxDte)
    as [l [_ E]].
  unfold handler. rewrite E. cbn [option_map].
  eexists _, _. split; [reflexivity |]. split; [reflexivity |].
  cbv beta. unfold bind, ret.
  set (c := mkSetup _ _ _ _ _ _).
  pose proof (blocks_confidence U c (Nat.succ i)) as Hj.
  destruct (blocks U c (Nat.succ i)) as [all i'']. cbn [fst] in *.
  apply rank_sorted.
  eapply Forall_impl; [apply jittered_finite | exact Hj].
Qed.

(** With draws in [0, 1) and [maxStrategies >= 1] the ranked list is
    never empty, whatever the risk profile (known or not), the spot
    price, the window and the clock: the Cash Secured Put is always
    synthesized, with a confidence of at least 69.8 and a category other
    than volatility, so it passes every filter, and the strategy ranked
    first has a confidence of at least 69.8. *)
Theorem ranking_never_empty U tz today now spot ticker riskProfile
    minDte maxDte maxStrategies i :
  unit_draws U -> (1 <= maxStrategies)%Z ->
  exists h top rest,
    handler U tz today now spot ticker riskProfile minDte maxDte maxStrategies = Some h /\
    fst (h i) = top :: rest /\ 69.8 <= confidence_value top.
Proof. apply handler_top. Qed.

Lemma ranking_never_empty_witness :
  exists h top rest,
    handler (fun _ => 0.5) 0 monday_morning monday_morning 100 "AAPL" "conservative"
            30 45 5 = Some h /\
    fst (h 0%nat) = top :: rest /\ 69.8 <= confidence_value top.
Proof.
  apply (ranking_never_empty (fun _ => 0.5) 0 monday_morning monday_morning 100 "AAPL"
           "conservative" 30 45 5 0%nat).
  - intros k. lra.
  - lia.
Defined.

(** Whatever the risk profile (known or not) and whatever
    [maxStrategies] (even negative), the ranked list is sorted by
    confidence, highest first, and holds only strategies of the catalog;
    for [maxStrategies >= 0] it holds at most that many. *)
Theorem ranking_descending U tz today now spot ticker riskProfile
    minDte maxDte maxStrategies i :
  exists synth h,
    generateStrategies U tz today now spot ticker minDte maxDte = Some synth /\
    handler U tz today now spot ticker riskProfile minDte maxDte maxStrategies = Some h /\
    StronglySorted (descending confidence_value) (fst (h i)) /\
    incl (fst (h i)) (fst (synth i)) /\
    ((0 <= maxStrategies)%Z -> (Z.of_nat (List.length (fst (h i))) <= maxStrategies)%Z).
Proof. apply handler_sorted. Qed.

(* ================================================================= *)
(** ** The range of the quote *)

(** *** Range of the normal CDF of the code *)

Lemma as_poly_range t : 0 <= t <= 1 -> 0 <= as_poly t <= 2.
Proof.
  intros [H0 H1]. unfold as_poly.
  assert (Ht2 : 0 <= t * t <= t) by nra.
  assert (Ht3 : 0 <= t * t * t <= t * t) by nra.
  assert (Ht4 : 0 <= t * t * t * t <= t * t * t) by nra.
  set (g := (((1.061405429 * t + -1.453152027) * t + 1.421413741) * t
              + -0.284496736) * t + 0.254829592).
  assert (Hg : 0 <= g <= 2).
  { subst g. destruct (Rle_dec t (1 / 2)) as [Hh | Hh].
    - split; nra.
    - split; nra. }
  nra.
Qed.

Lemma erf_approx_range x : -1 <= erf_approx x <= 1.
Proof.
  unfold erf_approx.
  set (t := 1 / (1 + 0.3275911 * Rabs x)).
  pose proof (Rabs_pos x) as Ha.
  assert (Ht : 0 <= t <= 1).
  { subst t. split.
    - apply Rlt_le, Rdiv_lt_0_compat; lra.
    - assert (H : / (1 + 0.3275911 * Rabs x) <= / 1)
        by (apply Rinv_le_contravar; lra).
      rewrite Rinv_1 in H. unfold Rdiv. lra. }
  pose proof (as_poly_range t Ht) as Hp.
  assert (He : 0 < exp (- Rabs x * Rabs x) <= 1).
  { split; [apply exp_pos |].
    rewrite <- exp_0. destruct (Req_dec (Rabs x) 0) as [E | E].
    - rewrite E. right. f_equal. ring.
    - left. apply exp_increasing. nra. }
  assert (Hq : 0 <= as_poly t * exp (- Rabs x * Rabs x) <= 2) by nra.
  destruct (Rleb 0 x); lra.
Qed.

(** The normal CDF of the code stays between 0 and 1. *)
Lemma N_range x : 0 <= N x <= 1.
Proof. unfold N. pose proof (erf_approx_range (x / sqrt 2)). lra. Qed.

Lemma n_pos x : 0 < n x.
Proof.
  unfold n. apply Rdiv_lt_0_compat; [apply exp_pos |].
  apply sqrt_lt_R0. generalize PI_RGT_0. lra.
Qed.

Lemma Rround_le x z : x <= IZR z -> Rround x <= IZR z.
Proof.
  intros H. unfold Rround. apply IZR_le.
  pose proof (Zfloor_bound (x + 1 / 2)) as [Hlo _].
  assert (Hlt : IZR (Zfloor (x + 1 / 2)) < IZR (z + 1)) by (rewrite plus_IZR; lra).
  apply lt_IZR in Hlt. lia.
Qed.

Lemma round_to_range lo hi p x :
  0 < p -> IZR lo <= x * p -> x * p <= IZR hi ->
  IZR lo / p <= round_to p x <= IZR hi / p.
Proof.
  intros Hp Hlo Hhi. unfold round_to.
  pose proof (Rround_floor _ _ Hlo). pose proof (Rround_le _ _ Hhi).
  split; apply Rmult_le_compat_r; try assumption; apply Rlt_le, Rinv_0_lt_compat, Hp.
Qed.

Section GreeksRange.

Variables (S K T r σ : R).
Hypotheses (HS : 0 < S) (HK : 0 < K) (HT : 0 < T) (Hσ : 0 < σ).

Lemma delta_value_range (isCall : bool) :
  if isCall then 0 <= delta_value S K T r σ isCall <= 1
  else -1 <= delta_value S K T r σ isCall <= 0.
Proof.
  unfold delta_value. pose proof (N_range (d1 S K T r σ)). destruct isCall; lra.
Qed.

Lemma gamma_value_pos : 0 < gamma_value S K T r σ.
Proof.
  unfold gamma_value. apply Rdiv_lt_0_compat; [apply n_pos |].
  assert (0 < sqrt T) by (apply sqrt_lt_R0; lra).
  apply Rmult_lt_0_compat; [nra | assumption].
Qed.

Lemma vega_value_pos : 0 < vega_value S K T r σ.
Proof.
  unfold vega_value. pose proof (n_pos (d1 S K T r σ)).
  assert (0 < sqrt T) by (apply sqrt_lt_R0; lra).
  apply Rdiv_lt_0_compat; [| lra].
  apply Rmult_lt_0_compat; [nra | assumption].
Qed.

Lemma theta_annual_neg isCall : 0 <= r -> theta_annual S K T r σ isCall < 0.
Proof.
  intros Hr. unfold theta_annual.
  pose proof (n_pos (d1 S K T r σ)) as Hn.
  assert (HsT : 0 < sqrt T) by (apply sqrt_lt_R0; lra).
  assert (H1 : 0 < (S * n (d1 S K T r σ) * σ) / (2 * sqrt T)).
  { apply Rdiv_lt_0_compat; [| lra].
    apply Rmult_lt_0_compat; [nra | assumption]. }
  pose proof (exp_pos (- r * T)) as He.
  assert (H2 : 0 <= r * K * exp (- r * T) * (if isCall then N (d2 S K T r σ)
                                              else N (- d2 S K T r σ))).
  { apply Rmult_le_pos; [apply Rmult_le_pos; [nra | lra] |].
    destruct isCall; apply N_range. }
  lra.
Qed.

End GreeksRange.

(** For positive spot, strike and volatility and a rate that is not
    negative, whatever the days to expiry (positive or not) and the
    draw, every field of the quote is a number; the price is not
    negative, the delta of a call lies in [0, 1] and the delta of a put
    in [-1, 0], gamma and vega are not negative and theta is not
    positive.  This rests on the normal CDF of the code, built on the
    approximation of [erf], staying within [0, 1]. *)
Theorem quote_in_range U S K d σ r (isCall : bool) i :
  0 < S -> 0 < K -> 0 < σ -> 0 <= r ->
  exists p δ γ θ ν,
    fst (calculateOptionPrice U (Fin S) (Fin K) (Fin d) (Fin σ) (Fin r) isCall i)
    = mkQuote (Fin p) (mkGreeks (Fin δ) (Fin γ) (Fin θ) (Fin ν)) /\
    0 <= p /\ (if isCall then 0 <= δ <= 1 else -1 <= δ <= 0) /\
    0 <= γ /\ θ <= 0 /\ 0 <= ν.
Proof.
  intros HS HK Hσ Hr. destruct (Rle_lt_dec d 0) as [Hd | Hd].
  - rewrite calculateOptionPrice_expired by assumption. cbn [fst]. js_eval.
    destruct isCall.
    + destruct (Rltb K S); eexists _, _, _, _, _; (split; [reflexivity |]);
        (split; [apply Rmax_r |]); repeat split; lra.
    + destruct (Rltb S K); eexists _, _, _, _, _; (split; [reflexivity |]);
        (split; [apply Rmax_r |]); repeat split; lra.
  - rewrite calculateOptionPrice_live by assumption. cbn [fst].
    assert (HT : 0 < d / 365) by (apply Rdiv_lt_0_compat; lra).
    eexists _, _, _, _, _. split; [reflexivity |].
    split; [eapply Rle_trans; [| apply Rmax_r]; lra |].
    split; [| split; [| split]].
    + pose proof (delta_value_range S K (d / 365) r σ isCall) as Hδ.
      destruct isCall.
      * pose proof (round_to_range 0 100 100 (delta_value S K (d / 365) r σ true)
                      ltac:(lra) ltac:(lra) ltac:(lra)) as H.
        lra.
      * pose proof (round_to_range (-100) 0 100 (delta_value S K (d / 365) r σ false)
                      ltac:(lra) ltac:(lra) ltac:(lra)) as H.
        lra.
    + pose proof (gamma_value_pos S K (d / 365) r σ HS HT Hσ) as Hγ.
      unfold round_to. pose proof (Rround_nonneg (gamma_value S K (d / 365) r σ * 1000)
                                     ltac:(lra)).
      apply Rmult_le_pos; [assumption | lra].
    + pose proof (theta_annual_neg S K (d / 365) r σ HS HK HT Hσ isCall Hr) as Hθ.
      unfold theta_per_day, round_to.
      pose proof (Rround_le (theta_annual S K (d / 365) r σ isCall * 100) 0 ltac:(lra)).
      lra.
    + pose proof (vega_value_pos S K (d / 365) r σ HS HT) as Hν.
      unfold round_to. pose proof (Rround_nonneg (vega_value S K (d / 365) r σ * 100)
                                     ltac:(lra)).
      apply Rmult_le_pos; [assumption | lra].
Qed.

Lemma quote_in_range_witness :
  exists p δ γ θ ν,
    fst (calculateOptionPrice (fun _ => 0.5) (Fin 100) (Fin 95) (Fin 30) (Fin 0.4)
           (Fin 0.05) false 0%nat)
    = mkQuote (Fin p) (mkGreeks (Fin δ) (Fin γ) (Fin θ) (Fin ν)) /\
    0 <= p /\ (-1 <= δ <= 0) /\ 0 <= γ /\ θ <= 0 /\ 0 <= ν.
Proof.
  apply (quote_in_range (fun _ => 0.5) 100 95 30 0.4 0.05 false 0%nat); lra.
Defined.

(** On the closed-form branch, with a draw in [0, 1), the quoted price
    is the value of the model moved by at most 5% of it, unless that
    lies below the tick of 0.05, which is then the price. *)
Theorem quote_near_model U S K d σ r (isCall : bool) i :
  0 < S -> 0 < K -> 0 < d -> 0 < σ -> 0 <= U i < 1 ->
  exists p,
    price (fst (calculateOptionPrice U (Fin S) (Fin K) (Fin d) (Fin σ) (Fin r) isCall i))
    = Fin p /\
    0.05 <= p /\
    (p = 0.05 \/
     Rabs (p - value S K (d / 365) r σ isCall)
     <= 0.05 * Rabs (value S K (d / 365) r σ isCall)).
Proof.
  intros HS HK Hd Hσ HU.
  rewrite calculateOptionPrice_live by assumption. cbn [fst price].
  set (v := value S K (d / 365) r σ isCall).
  eexists; split; [reflexivity |]. split; [apply Rmax_r |].
  destruct (Rle_dec (v * (1 + (U i - 0.5) * 0.1)) 0.05) as [Hle | Hgt].
  - left. now apply Rmax_right.
  - right. rewrite Rmax_left by lra.
    replace (v * (1 + (U i - 0.5) * 0.1) - v) with (v * ((U i - 0.5) * 0.1)) by ring.
    rewrite Rabs_mult, Rmult_comm.
    apply Rmult_le_compat_r; [apply Rabs_pos |].
    apply Rabs_le. lra.
Qed.

Lemma quote_near_model_witness :
  exists p,
    price (fst (calculateOptionPrice (fun _ => 0.25) (Fin 100) (Fin 95) (Fin 30) (Fin 0.4)
                  (Fin 0.05) true 0%nat))
    = Fin p /\
    0.05 <= p /\
    (p = 0.05 \/
     Rabs (p - value 100 95 (30 / 365) 0.05 0.4 true)
     <= 0.05 * Rabs (value 100 95 (30 / 365) 0.05 0.4 true)).
Proof.
  apply (quote_near_model (fun _ => 0.25) 100 95 30 0.4 0.05 true 0%nat); lra.
Defined.

(* ================================================================= *)
(** ** Live price and request handling *)

Section PriceFacts.

Variable U : nat -> R.
Hypothesis HU : unit_draws U.

(** A price from the table, or a random one. *)
Lemma mockPrice_cases ticker n :
  (exists p, In (ticker, p) Api.mockPrices /\ Api.mockPrice U ticker n = (p, n)) \/
  ((forall p, ~ In (ticker, p) Api.mockPrices) /\
   Api.mockPrice U ticker n = (100 + U n * 200, S n)).
Proof.
  unfold Api.mockPrice, Api.mockPrices. cbn [Api.lookup].
  repeat match goal with
    | |- context [String.eqb ?k ticker] =>
        destruct (String.eqb_spec k ticker) as [<- | ?];
        [ left; eexists; split; [cbn; tauto |]; rewrite Reqb_false by lra; reflexivity |]
    end.
  right. split; [| reflexivity].
  intros p Hin. cbn in Hin.
  repeat (destruct Hin as [Hin | Hin]; [injection Hin as Hk _; congruence |]).
  exact Hin.
Qed.

Lemma mockPrice_known ticker p n :
  In (ticker, p) Api.mockPrices -> Api.mockPrice U ticker n = (p, n).
Proof.
  intros Hin. cbn in Hin.
  repeat (destruct Hin as [Hin | Hin];
          [ injection Hin as <- <-; unfold Api.mockPrice;
            cbn [Api.lookup Api.mockPrices String.eqb Ascii.eqb Bool.eqb];
            rewrite Reqb_false by lra; reflexivity |]).
  contradiction.
Qed.

Lemma mockPrices_range ticker p : In (ticker, p) Api.mockPrices -> 120.33 <= p <= 590.25.
Proof.
  intros Hin. cbn in Hin.
  repeat (destruct Hin as [Hin | Hin]; [injection Hin as _ <-; lra |]).
  contradiction.
Qed.

Lemma mockPrice_range ticker n :
  100 <= fst (Api.mockPrice U ticker n) <= 590.25 /\
  (n <= snd (Api.mockPrice U ticker n) <= S n)%nat.
Proof.
  destruct (mockPrice_cases ticker n) as [[p [Hin ->]] | [_ ->]]; cbn [fst snd].
  - pose proof (mockPrices_range _ _ Hin). split; [lra | lia].
  - specialize (HU n). split; [lra | lia].
Qed.

End PriceFacts.

(** Ranking only selects and reorders. *)
Lemma rank_Forall (P : Strategy -> Prop) riskProfile maxStrategies all :
  Forall P all -> Forall P (rank riskProfile maxStrategies all).
Proof.
  intros H. unfold rank, JSArray.slice0. apply Forall_firstn, sort_Forall.
  destruct (String.eqb riskProfile "conservative"); [now apply Forall_filter |].
  destruct (String.eqb riskProfile "moderate"); [now apply Forall_filter |].
  destruct (String.eqb riskProfile "moderate_aggressive"); [now apply Forall_filter |].
  exact H.
Qed.

(** The price costs no draw or one. *)
Lemma fetchLiveStockPrice_forward U apiKey provider ticker n :
  (n <= snd (Api.fetchLiveStockPrice U apiKey provider ticker n) <= S n)%nat.
Proof.
  unfold Api.fetchLiveStockPrice, Api.mockPrice, Api.randomPrice, Api.random, bind, ret.
  destruct apiKey as [k |]; [destruct (String.eqb k "") |];
    repeat match goal with
      | |- context [match ?x with _ => _ end] => destruct x
      end; cbn [snd]; lia.
Qed.

(** Synthesis and ranking cost at least the draw of the volatility. *)
Lemma handler_forward U tz today now spot ticker riskProfile minDte maxDte maxStrategies h n :
  handler U tz today now spot ticker riskProfile minDte maxDte maxStrategies = Some h ->
  (S n <= snd (h n))%nat.
Proof.
  unfold handler.
  destruct (generateStrategies_run U tz today now spot ticker minDte maxDte)
    as [l [_ ->]].
  cbn [option_map]. intros [= <-]. unfold bind, ret, Math_random. cbv beta.
  match goal with |- context [blocks ?U ?c ?i] =>
    pose proof (blocks_draws U c i) as [Hle _]; destruct (blocks U c i) as [all n2]
  end.
  cbn [snd] in *. exact Hle.
Qed.

Section HandlerFacts.

Variable U : nat -> R.
Variables (tz today now : Z).
Variable apiKey : option string.
Variable provider : string -> Api.ProviderReply.
Variable toUpperCase : string -> string.

(** A request with a ticker is served: price, catalog, ranking, delay. *)
Lemma scanHandler_served req t n :
  Api.req_ticker req = Some t -> t <> "" ->
  exists h,
    handler U tz today now
            (fst (Api.fetchLiveStockPrice U apiKey provider (toUpperCase t) n))
            (toUpperCase t) (Api.req_riskProfile req)
            (Api.withDefault (Api.req_minDte req) 30)
            (Api.withDefault (Api.req_maxDte req) 45)
            (Api.withDefault (Api.req_maxStrategies req) 5) = Some h /\
    Api.scanHandler U tz today now apiKey provider toUpperCase "POST" (Some req) n
    = (Some (Api.mkReply 200
               (Api.mkResponse true
                  (fst (h (snd (Api.fetchLiveStockPrice U apiKey provider (toUpperCase t) n))))
                  (fst (Api.fetchLiveStockPrice U apiKey provider (toUpperCase t) n))
                  (toUpperCase t) None)
               (800 + U (snd (h (snd (Api.fetchLiveStockPrice U apiKey provider
                                        (toUpperCase t) n)))) * 400)),
       S (snd (h (snd (Api.fetchLiveStockPrice U apiKey provider (toUpperCase t) n))))).
Proof.
  intros Ht Hne. unfold Api.scanHandler. cbn [String.eqb Ascii.eqb Bool.eqb negb].
  rewrite Ht. destruct (String.eqb_spec t "") as [E | _]; [contradiction |].
  unfold bind at 1.
  destruct (Api.fetchLiveStockPrice U apiKey provider (toUpperCase t) n) as [p n1].
  cbn [fst snd].
  destruct (generateStrategies_run U tz today now p (toUpperCase t)
              (Api.withDefault (Api.req_minDte req) 30)
              (Api.withDefault (Api.req_maxDte req) 45)) as [l [_ E]].
  unfold handler. rewrite E. cbn [option_map]. eexists; split; [reflexivity |].
  unfold bind, ret, Api.random. cbv beta.
  match goal with |- context [blocks ?U ?c ?i] => destruct (blocks U c i) as [all n2] end.
  reflexivity.
Qed.

End HandlerFacts.

(** A price that is positive: a fallback price, or a positive close. *)
Lemma fetchLiveStockPrice_positive U apiKey provider ticker n :
  unit_draws U ->
  apiKey = None \/ apiKey = Some "" \/
  (exists key, apiKey = Some key /\
               forall c, provider (Api.priceUrl ticker key) = Api.Close c -> 0 < c) ->
  0 < fst (Api.fetchLiveStockPrice U apiKey provider ticker n).
Proof.
  intros HU H.
  assert (Hm : 0 < fst (Api.mockPrice U ticker n))
    by (pose proof (mockPrice_range U HU ticker n) as [Hr _]; lra).
  destruct H as [-> | [-> | [key [-> Hc]]]]; [exact Hm | exact Hm |].
  unfold Api.fetchLiveStockPrice. destruct (String.eqb key ""); [exact Hm |].
  specialize (HU n).
  destruct (provider (Api.priceUrl ticker key)) as [| st | | c] eqn:Ep.
  - unfold Api.randomPrice, Api.random, bind, ret. cbn [fst]. lra.
  - unfold Api.randomPrice, Api.random, bind, ret. cbn [fst]. lra.
  - unfold Api.randomPrice, Api.random, bind, ret. cbn [fst]. lra.
  - unfold ret. cbn [fst]. now apply Hc.
Qed.

(** What holds of the whole catalog holds of the ranked list. *)
Lemma handler_Forall (P : Strategy -> Prop) U tz today now spot ticker riskProfile
    minDte maxDte maxStrategies synth h n :
  generateStrategies U tz today now spot ticker minDte maxDte = Some synth ->
  Forall P (fst (synth n)) ->
  handler U tz today now spot ticker riskProfile minDte maxDte maxStrategies = Some h ->
  Forall P (fst (h n)).
Proof.
  intros Es HP. unfold handler. rewrite Es. cbn [option_map]. intros [= <-].
  unfold bind, ret. destruct (synth n) as [all n2]. cbn [fst] in HP |- *.
  now apply rank_Forall.
Qed.

(** Ranking keeps the legs and the figures as the synthesizer made them. *)
Lemma handler_quoted U tz today now spot ticker riskProfile minDte maxDte maxStrategies h n :
  unit_draws U -> 0 < spot -> regular_window minDte maxDte ->
  (now <= today + 5 * msPerDay)%Z ->
  handler U tz today now spot ticker riskProfile minDte maxDte maxStrategies = Some h ->
  Forall (fun s => Forall leg_quoted (legs s) /\ all_numbers s) (fst (h n)).
Proof.
  intros HU Hpos Hwin Hnow Eh.
  destruct (generateStrategies_quoted U tz today now spot ticker minDte maxDte n
              HU Hpos Hwin Hnow) as [synth [Es Hq]].
  destruct (generateStrategies_numbers U tz today now spot ticker minDte maxDte n
              HU Hpos Hwin Hnow) as [synth' [Es' Hn]].
  assert (synth' = synth) by congruence. subst synth'.
  eapply handler_Forall; [exact Es | | exact Eh].
  apply Forall_and; assumption.
Qed.

(** Without an API key (undefined or empty) and whenever the provider
    fails (unreachable, HTTP error, no results), the price is a fallback:
    with draws in [0, 1) it lies between 100 and 590.25 and costs at most
    one draw.  Without a key a ticker of the table gets its table price
    and no draw is made; with a key and a failing provider the table is
    not consulted and the price is [100 + 200 u] also for those tickers. *)
Theorem fallback_price U apiKey provider ticker n :
  unit_draws U ->
  apiKey = None \/ apiKey = Some "" \/
  (exists key, apiKey = Some key /\
               forall c, provider (Api.priceUrl ticker key) <> Api.Close c) ->
  100 <= fst (Api.fetchLiveStockPrice U apiKey provider ticker n) <= 590.25 /\
  (n <= snd (Api.fetchLiveStockPrice U apiKey provider ticker n) <= S n)%nat /\
  (forall p, apiKey = None \/ apiKey = Some "" -> In (ticker, p) Api.mockPrices ->
             Api.fetchLiveStockPrice U apiKey provider ticker n = (p, n)) /\
  (forall key, apiKey = Some key -> key <> "" ->
               Api.fetchLiveStockPrice U apiKey provider ticker n
               = (100 + U n * 200, S n)).
Proof.
  intros HU Hfall.
  assert (Hmock : apiKey = None \/ apiKey = Some "" ->
                  Api.fetchLiveStockPrice U apiKey provider ticker n
                  = Api.mockPrice U ticker n).
  { intros [-> | ->]; reflexivity. }
  assert (Hlive : forall key, apiKey = Some key -> key <> "" ->
                  Api.fetchLiveStockPrice U apiKey provider ticker n
                  = (100 + U n * 200, S n)).
  { intros key -> Hk. destruct Hfall as [H | [H | [key' [H Hfail]]]];
      try congruence.
    injection H as <-. unfold Api.fetchLiveStockPrice.
    destruct (String.eqb_spec key "") as [E | _]; [contradiction |].
    destruct (provider (Api.priceUrl ticker key)) as [| st | | c] eqn:Ep;
      try reflexivity.
    exfalso. apply (Hfail c). reflexivity. }
  assert (Hcases : apiKey = None \/ apiKey = Some "" \/
                   exists key, apiKey = Some key /\ key <> "").
  { destruct Hfall as [H | [H | [key [H _]]]]; [tauto | tauto |].
    destruct (String.eqb_spec key "") as [-> | Hk]; [tauto |].
    right; right. now exists key. }
  split; [| split; [| split]].
  - destruct Hcases as [H | [H | [key [H Hk]]]].
    + rewrite Hmock by tauto. apply (mockPrice_range U HU).
    + rewrite Hmock by tauto. apply (mockPrice_range U HU).
    + rewrite (Hlive key H Hk). cbn [fst]. specialize (HU n). lra.
  - destruct Hcases as [H | [H | [key [H Hk]]]].
    + rewrite Hmock by tauto. apply (mockPrice_range U HU).
    + rewrite Hmock by tauto. apply (mockPrice_range U HU).
    + rewrite (Hlive key H Hk). cbn [snd]. lia.
  - intros p Hk Hin. rewrite (Hmock Hk). now apply mockPrice_known.
  - exact Hlive.
Qed.

Lemma fallback_price_witness :
  100 <= fst (Api.fetchLiveStockPrice (fun _ => 0.5) (Some "k") (fun _ => Api.HttpError 429)
                "AAPL" 0%nat) <= 590.25 /\
  (0 <= snd (Api.fetchLiveStockPrice (fun _ => 0.5%R) (Some "k")
               (fun _ => Api.HttpError 429%Z) "AAPL" 0) <= 1)%nat /\
  (forall p, Some "k" = None \/ Some "k" = Some "" -> In ("AAPL", p) Api.mockPrices ->
             Api.fetchLiveStockPrice (fun _ => 0.5) (Some "k") (fun _ => Api.HttpError 429)
               "AAPL" 0%nat = (p, 0%nat)) /\
  (forall key, Some "k" = Some key -> key <> "" ->
               Api.fetchLiveStockPrice (fun _ => 0.5) (Some "k") (fun _ => Api.HttpError 429)
                 "AAPL" 0%nat = (100 + 0.5 * 200, 1%nat)).
Proof.
  apply (fallback_price (fun _ => 0.5) (Some "k") (fun _ => Api.HttpError 429) "AAPL" 0%nat).
  - intros k. lra.
  - right; right. exists "k". split; [reflexivity | discriminate].
Defined.

(** Every request gets one reply, whatever JSON value it carries under
    [ticker] (the other fields are strings and whole numbers, or
    absent).  A method other than POST is answered 405; a POST whose
    body cannot be destructured, or whose ticker is truthy without being
    a string, 500; a POST whose ticker is missing, falsy or empty 400;
    each with [success = false], no strategies, price 0, an empty ticker
    and its error message, and without a draw.  A POST with a non-empty
    string for ticker is answered 200 with [success = true], no error
    and the ticker in upper case, after at least two draws.  So
    [success] is true exactly on status 200. *)
Theorem every_request_answered U tz today now apiKey provider toUpperCase
    method body n :
  exists r n',
    Api.postHandler U tz today now apiKey provider toUpperCase method body n
    = (Some r, n') /\
    (method <> "POST" -> r = Api.failure 405 "Method not allowed" /\ n' = n) /\
    (method = "POST" -> body = None ->
     r = Api.failure 500 "Internal server error" /\ n' = n) /\
    (method = "POST" ->
     forall sent, body = Some sent ->
                  Api.sent_ticker sent = Api.NoTicker \/
                  Api.sent_ticker sent = Api.TickerText "" ->
                  r = Api.failure 400 "Ticker is required" /\ n' = n) /\
    (method = "POST" ->
     forall sent, body = Some sent -> Api.sent_ticker sent = Api.NotAString ->
                  r = Api.failure 500 "Internal server error" /\ n' = n) /\
    (method = "POST" ->
     forall sent t, body = Some sent -> Api.sent_ticker sent = Api.TickerText t ->
                    t <> "" ->
                    Api.status r = 200%Z /\ Api.res_error (Api.body r) = None /\
                    Api.res_ticker (Api.body r) = toUpperCase t /\ (n + 2 <= n')%nat) /\
    (Api.res_success (Api.body r) = true <-> Api.status r = 200%Z).
Proof.
  destruct (String.eqb_spec method "POST") as [-> | Hm].
  2:{ exists (Api.failure 405 "Method not allowed"), n. split.
      - unfold Api.postHandler, Api.scanHandler.
        destruct (String.eqb_spec method "POST") as [E | _]; [contradiction |].
        cbn [negb]. destruct body as [sent |]; [| reflexivity].
        destruct (Api.sent_ticker sent); reflexivity.
      - repeat split; intros;
          cbn [Api.failure Api.status Api.body Api.res_success] in *; congruence. }
  destruct body as [sent |].
  2:{ exists (Api.failure 500 "Internal server error"), n.
      split; [reflexivity |].
      repeat split; intros; cbn [Api.failure Api.status Api.body Api.res_success] in *;
        congruence. }
  destruct (Api.sent_ticker sent) as [| t |] eqn:Et.
  - exists (Api.failure 400 "Ticker is required"), n.
    split; [unfold Api.postHandler; rewrite Et; reflexivity |].
    repeat split; intros; cbn [Api.failure Api.status Api.body Api.res_success] in *;
      congruence.
  - destruct (String.eqb_spec t "") as [-> | Ht].
    { exists (Api.failure 400 "Ticker is required"), n.
      split; [unfold Api.postHandler; rewrite Et; reflexivity |].
      repeat split; intros; cbn [Api.failure Api.status Api.body Api.res_success] in *;
        congruence. }
    destruct (scanHandler_served U tz today now apiKey provider toUpperCase
                (Api.typed sent (Some t)) t n eq_refl Ht) as [h [Eh E]].
    eexists _, _. split; [unfold Api.postHandler; rewrite Et; exact E |].
    split; [intros H; congruence |].
    split; [intros _ H; discriminate H |].
    split; [intros _ sent' [= <-] [H | H]; congruence |].
    split; [intros _ sent' [= <-] H; congruence |].
    split; [| cbn [Api.status Api.body Api.res_success]; split; reflexivity].
    intros _ sent' t' [= <-] Ht' _. assert (t' = t) by congruence. subst t'.
    cbn [Api.status Api.body Api.res_error Api.res_ticker].
    repeat (split; [reflexivity |]).
    pose proof (handler_forward _ _ _ _ _ _ _ _ _ _ h
                  (snd (Api.fetchLiveStockPrice U apiKey provider (toUpperCase t) n)) Eh).
    pose proof (fetchLiveStockPrice_forward U apiKey provider (toUpperCase t) n).
    lia.
  - exists (Api.failure 500 "Internal server error"), n.
    split; [unfold Api.postHandler; rewrite Et; reflexivity |].
    repeat split; intros; cbn [Api.failure Api.status Api.body Api.res_success] in *;
      try match goal with H : _ \/ _ |- _ => destruct H end; congruence.
Qed.

(** A POST with a ticker is served in this order: the price is fetched
    for the ticker in upper case, the catalog is synthesized and ranked
    for that price from the stream position where the fetch stopped, and
    one more draw sets the delay.  The reply is 200 with that price,
    that ticker and that ranking; with draws in [0, 1) it is sent after
    at least 800 and less than 1200 milliseconds, and for
    [maxStrategies >= 1] (the default is 5) it carries at least one
    strategy. *)
Theorem served_request U tz today now apiKey provider toUpperCase req t n :
  unit_draws U -> Api.req_ticker req = Some t -> t <> "" ->
  exists h r n',
    handler U tz today now
            (fst (Api.fetchLiveStockPrice U apiKey provider (toUpperCase t) n))
            (toUpperCase t) (Api.req_riskProfile req)
            (Api.withDefault (Api.req_minDte req) 30)
            (Api.withDefault (Api.req_maxDte req) 45)
            (Api.withDefault (Api.req_maxStrategies req) 5) = Some h /\
    Api.scanHandler U tz today now apiKey provider toUpperCase "POST" (Some req) n
    = (Some r, n') /\
    Api.status r = 200%Z /\
    Api.body r
    = Api.mkResponse true
        (fst (h (snd (Api.fetchLiveStockPrice U apiKey provider (toUpperCase t) n))))
        (fst (Api.fetchLiveStockPrice U apiKey provider (toUpperCase t) n))
        (toUpperCase t) None /\
    n' = S (snd (h (snd (Api.fetchLiveStockPrice U apiKey provider (toUpperCase t) n)))) /\
    Api.waited r = 800 + U (Nat.pred n') * 400 /\
    800 <= Api.waited r < 1200 /\
    ((1 <= Api.withDefault (Api.req_maxStrategies req) 5)%Z ->
     Api.res_strategies (Api.body r) <> []).
Proof.
  intros HU Et Ht.
  destruct (scanHandler_served U tz today now apiKey provider toUpperCase req t n Et Ht)
    as [h [Eh E]].
  eexists h, _, _. split; [exact Eh |]. split; [exact E |].
  cbn [Api.status Api.body Api.waited Api.res_strategies Nat.pred].
  repeat (split; [reflexivity |]).
  split; [match goal with |- context [U ?k] => specialize (HU k) end; lra |].
  intros Hmax.
  destruct (handler_top U tz today now
              (fst (Api.fetchLiveStockPrice U apiKey provider (toUpperCase t) n))
              (toUpperCase t) (Api.req_riskProfile req)
              (Api.withDefault (Api.req_minDte req) 30)
              (Api.withDefault (Api.req_maxDte req) 45)
              (Api.withDefault (Api.req_maxStrategies req) 5)
              (snd (Api.fetchLiveStockPrice U apiKey provider (toUpperCase t) n))
              HU Hmax) as [h' [top [rest [Eh' [Etop _]]]]].
  assert (h' = h) by congruence. subst h'. rewrite Etop. discriminate.
Qed.

Lemma served_request_witness :
  exists h r n',
    handler (fun _ => 0.5) 0 monday_morning monday_morning
            (fst (Api.fetchLiveStockPrice (fun _ => 0.5) None (fun _ => Api.Unreachable)
                    (Api.toUpperAscii "aapl") 0%nat))
            (Api.toUpperAscii "aapl") "moderate"
            (Api.withDefault None 30) (Api.withDefault None 45) (Api.withDefault None 5)
      = Some h /\
    Api.scanHandler (fun _ => 0.5) 0 monday_morning monday_morning None
                    (fun _ => Api.Unreachable) Api.toUpperAscii "POST"
                    (Some (Api.mkRequest (Some "aapl") "moderate" None None None)) 0%nat
    = (Some r, n') /\
    Api.status r = 200%Z /\
    Api.body r
    = Api.mkResponse true
        (fst (h (snd (Api.fetchLiveStockPrice (fun _ => 0.5) None (fun _ => Api.Unreachable)
                        (Api.toUpperAscii "aapl") 0%nat))))
        (fst (Api.fetchLiveStockPrice (fun _ => 0.5) None (fun _ => Api.Unreachable)
                (Api.toUpperAscii "aapl") 0%nat))
        (Api.toUpperAscii "aapl") None /\
    n' = S (snd (h (snd (Api.fetchLiveStockPrice (fun _ => 0.5) None
                           (fun _ => Api.Unreachable) (Api.toUpperAscii "aapl") 0%nat)))) /\
    Api.waited r = 800 + (fun _ : nat => 0.5) (Nat.pred n') * 400 /\
    800 <= Api.waited r < 1200 /\
    ((1 <= Api.withDefault None 5)%Z -> Api.res_strategies (Api.body r) <> []).
Proof.
  apply (served_request (fun _ => 0.5) 0 monday_morning monday_morning None
           (fun _ => Api.Unreachable) Api.toUpperAscii
           (Api.mkRequest (Some "aapl") "moderate" None None None) "aapl" 0%nat).
  - intros k. lra.
  - reflexivity.
  - discriminate.
Defined.

(** End to end on a positive price: without an API key, or with a
    provider that fails or reports a positive close, a POST with a
    ticker and a regular window (the defaults 30..45 are one), served
    on a host at a constant offset from UTC (no daylight saving) with
    draws in [0, 1) by a clock that moves at most five days, is answered
    200 with a positive price; every leg of every strategy of the
    response has a positive strike, an expiry date and a premium of at
    least 0.05, and no figure of the response is [NaN]. *)
Theorem positive_price_response U tz today now apiKey provider toUpperCase req t n :
  unit_draws U -> Api.req_ticker req = Some t -> t <> "" ->
  apiKey = None \/ apiKey = Some "" \/
  (exists key, apiKey = Some key /\
               forall c, provider (Api.priceUrl (toUpperCase t) key) = Api.Close c -> 0 < c) ->
  regular_window (Api.withDefault (Api.req_minDte req) 30)
                 (Api.withDefault (Api.req_maxDte req) 45) ->
  (now <= today + 5 * msPerDay)%Z ->
  exists r n',
    Api.scanHandler U tz today now apiKey provider toUpperCase "POST" (Some req) n
    = (Some r, n') /\
    Api.status r = 200%Z /\ 0 < Api.res_currentPrice (Api.body r) /\
    Forall (fun s => Forall leg_quoted (legs s) /\ all_numbers s)
           (Api.res_strategies (Api.body r)).
Proof.
  intros HU Et Ht Hprice Hwin Hnow.
  destruct (scanHandler_served U tz today now apiKey provider toUpperCase req t n Et Ht)
    as [h [Eh E]].
  eexists _, _. split; [exact E |]. clear E.
  cbn [Api.status Api.body Api.res_currentPrice Api.res_strategies].
  split; [reflexivity |].
  pose proof (fetchLiveStockPrice_positive U apiKey provider (toUpperCase t) n HU Hprice)
    as Hpos.
  split; [exact Hpos |].
  exact (handler_quoted U tz today now _ _ _ _ _ _ h _ HU Hpos Hwin Hnow Eh).
Qed.

Lemma positive_price_response_witness :
  exists r n',
    Api.scanHandler (fun _ => 0.5) 0 monday_morning monday_morning None
                    (fun _ => Api.Unreachable) Api.toUpperAscii "POST"
                    (Some (Api.mkRequest (Some "aapl") "moderate" None None None)) 0%nat
    = (Some r, n') /\
    Api.status r = 200%Z /\ 0 < Api.res_currentPrice (Api.body r) /\
    Forall (fun s => Forall leg_quoted (legs s) /\ all_numbers s)
           (Api.res_strategies (Api.body r)).
Proof.
  apply (positive_price_response (fun _ => 0.5) 0 monday_morning monday_morning None
           (fun _ => Api.Unreachable) Api.toUpperAscii
           (Api.mkRequest (Some "aapl") "moderate" None None None) "aapl" 0%nat).
  - intros k. lra.
  - reflexivity.
  - discriminate.
  - left. reflexivity.
  - unfold regular_window. cbn. lia.
  - unfold msPerDay. lia.
Defined.
